(** * Yenta: a shallow embedding of the workflow parser, graph builder,
      parameter mapper, node lifecycle, mock registry, retry controller and
      test validator (src/yenta), with the properties of its specification. *)

From Stdlib Require Import ZArith QArith Qpower Qabs Ascii String DecimalN.
From stdpp Require Import base list strings gmap sorting.

Set Warnings "-register-all".
Open Scope string_scope.

(* ================================================================== *)
(** ** Python data *)

(** Python values that flow through the code: JSON-like data (the
    arguments and responses of tool calls, YAML documents) and opaque
    protocol response objects ([VObj fields]: an object whose
    [model_dump()] is the dict [fields]; [VResult content]: an object
    without [model_dump] whose [.content] is the list [content], such as
    FastMCP's [CallToolResult] dataclass). Dicts are association lists in
    insertion order, as a Python [dict] iterates. *)

(** An item of a result's [.content]: one with a [.text] attribute, or
    one without, given by its [str()]. *)
Inductive content_item : Type :=
| CText (text : string)
| COther (str_ : string).

Inductive value : Type :=
| VNone
| VBool (b : bool)
| VInt (z : Z)
| VStr (s : string)
| VList (l : list value)
| VDict (d : list (string * value))
| VObj (fields : list (string * value))
| VResult (content : list content_item).

(** Induction over [value] with hypotheses for the elements of lists and
    the values of dicts. *)
Fixpoint value_ind' (P : value -> Prop)
    (HN : P VNone) (HB : forall b, P (VBool b)) (HI : forall z, P (VInt z))
    (HS : forall s, P (VStr s))
    (HL : forall l, Forall P l -> P (VList l))
    (HD : forall d, Forall (fun kv => P kv.2) d -> P (VDict d))
    (HO : forall f, Forall (fun kv => P kv.2) f -> P (VObj f))
    (HR : forall c, P (VResult c)) (v : value) : P v :=
  let IH := value_ind' P HN HB HI HS HL HD HO HR in
  let fix go_l (l : list value) : Forall P l :=
    match l with [] => @List.Forall_nil _ _ | x :: xs => @List.Forall_cons _ _ x xs (IH x) (go_l xs) end in
  let fix go_d (d : list (string * value)) : Forall (fun kv => P kv.2) d :=
    match d with
    | [] => @List.Forall_nil _ _
    | kv :: d' => @List.Forall_cons _ _ kv d' (IH kv.2) (go_d d')
    end in
  match v with
  | VNone => HN
  | VBool b => HB b
  | VInt z => HI z
  | VStr s => HS s
  | VList l => HL l (go_l l)
  | VDict d => HD d (go_d d)
  | VObj f => HO f (go_d f)
  | VResult c => HR c
  end.

(** Python exceptions: the class name and the method resolution order
    (the class and all its bases), which is what [isinstance] and
    [except C] consult. *)
Record exn := mk_exn { exn_type : string; exn_mro : list string; exn_msg : string }.

Definition isinstance (e : exn) (cls : string) : bool :=
  bool_decide (cls ∈ exn_mro e).

Definition ValueError (msg : string) : exn :=
  mk_exn "ValueError" ["ValueError"; "Exception"; "BaseException"] msg.
Definition KeyError (msg : string) : exn :=
  mk_exn "KeyError" ["KeyError"; "LookupError"; "Exception"; "BaseException"] msg.

(** The outcome of a Python call: a return value or a raised exception. *)
Inductive result (A : Type) : Type :=
| Ok (a : A)
| Raise (e : exn).
Arguments Ok {A} a.
Arguments Raise {A} e.

Definition bind {A B} (r : result A) (k : A -> result B) : result B :=
  match r with Ok a => k a | Raise e => Raise e end.
Notation "x <- r ;; k" := (bind r (fun x => k))
  (at level 100, r at next level, right associativity).

(** [d.get(k)] on an association-list dict. *)
Fixpoint dict_get {A} (k : string) (d : list (string * A)) : option A :=
  match d with
  | [] => None
  | (k', v) :: d' => if String.eqb k k' then Some v else dict_get k d'
  end.

Definition dict_has {A} (k : string) (d : list (string * A)) : bool :=
  match dict_get k d with Some _ => true | None => false end.

(** [d[k] = v]: overwrite in place, or append a new key at the end. *)
Fixpoint dict_set {A} (k : string) (v : A) (d : list (string * A)) : list (string * A) :=
  match d with
  | [] => [(k, v)]
  | (k', v') :: d' =>
      if String.eqb k k' then (k', v) :: d' else (k', v') :: dict_set k v d'
  end.

(* ================================================================== *)
(** ** parser.py: [WorkflowParser] *)

Module Parser.

(** A parsed edge [(source, action, target, params)]. *)
Record edge := mk_edge {
  e_source : string;
  e_action : option string;
  e_target : string;
  e_params : option (list string)
}.

(** The terminal sentinel that [parse_workflow] uses as target. *)
Definition COMPLETE : string := "complete".

(** [get_ordered_nodes]: distinct node names in first-seen order, skipping
    the sentinel as a target. [seen] is the set of names already added. *)
Fixpoint ordered_nodes_go (seen : list string) (cs : list edge) : list string :=
  match cs with
  | [] => []
  | c :: cs' =>
      let s := e_source c in
      let t := e_target c in
      let (acc1, seen1) :=
        if bool_decide (s ∈ seen) then ([], seen) else ([s], s :: seen) in
      let (acc2, seen2) :=
        if negb (String.eqb t COMPLETE) && negb (bool_decide (t ∈ seen1))
        then ([t], t :: seen1) else ([], seen1) in
      acc1 ++ acc2 ++ ordered_nodes_go seen2 cs'
  end.

Definition get_ordered_nodes (cs : list edge) : list string := ordered_nodes_go [] cs.

(** [get_start_node]: the source of the first connection. *)
Definition get_start_node (cs : list edge) : result string :=
  match cs with
  | [] => Raise (ValueError "No workflow connections found")
  | c :: _ => Ok (e_source c)
  end.

(** [get_node_params]: the params of the first edge targeting the node
    with a non-empty param list. *)
Fixpoint get_node_params (cs : list edge) (node : string) : option (list string) :=
  match cs with
  | [] => None
  | c :: cs' =>
      match e_params c with
      | Some (_ :: _) as p => if String.eqb (e_target c) node then p else get_node_params cs' node
      | _ => get_node_params cs' node
      end
  end.

(** The start node as §4.1 of the specification words it: the node that is
    a source but never a target; when none or several qualify, the first
    edge's source. *)
Definition spec_start_candidates (cs : list edge) : list string :=
  List.filter (fun n => bool_decide (n ∉ map e_target cs)) (remove_dups (map e_source cs)).

Definition spec_get_start_node (cs : list edge) : option string :=
  match cs with
  | [] => None
  | c :: _ =>
      match spec_start_candidates cs with
      | [n] => Some n
      | _ => Some (e_source c)
      end
  end.

End Parser.

(* ================================================================== *)
(** ** workflow_flow.py: [MCPWorkflowFlow._build_workflow] *)

Module Builder.
Import Parser.

(** [str.lower] on one code point of 0..255: the letters A-Z and
    À-Þ (but not ×) move 32 up; every other Latin-1 character is its own
    lower case. *)
Definition char_lower (c : ascii) : ascii :=
  let n := nat_of_ascii c in
  if ((65 <=? n) && (n <=? 90))%nat || ((192 <=? n) && (n <=? 222) && negb (n =? 215))%nat
  then ascii_of_nat (n + 32) else c.

Fixpoint str_lower (s : string) : string :=
  match s with EmptyString => EmptyString | String c s' => String (char_lower c) (str_lower s') end.

(** The title case [str.capitalize] gives the first character, on
    0..255: a-z and à-þ (but not ÷) move 32 down, ß becomes ["Ss"], and
    µ and ÿ become U+039C and U+0178, which lie outside 0..255 ([None]);
    every other character stays. *)
Definition char_title (c : ascii) : option string :=
  let n := nat_of_ascii c in
  if ((97 <=? n) && (n <=? 122))%nat || ((224 <=? n) && (n <=? 254) && negb (n =? 247))%nat
  then Some (String (ascii_of_nat (n - 32)) EmptyString)
  else if (n =? 223)%nat then Some "Ss"
  else if (n =? 181)%nat || (n =? 255)%nat then None
  else Some (String c EmptyString).

(** [str.capitalize]: the first character title-cased, the rest lower
    case. [None] when the result holds a character outside 0..255: such
    a string is no class name among the model's strings. *)
Definition capitalize (s : string) : option string :=
  match s with
  | EmptyString => Some EmptyString
  | String c s' => match char_title c with Some t => Some (t ++ str_lower s') | None => None end
  end.

(** [s.split('_')]. *)
Fixpoint split_underscore (s : string) : list string :=
  match s with
  | EmptyString => [EmptyString]
  | String c s' =>
      match split_underscore s' with
      | [] => [] (* unreachable: split always yields a word *)
      | w :: ws => if Ascii.eqb c "_"%char then EmptyString :: w :: ws else String c w :: ws
      end
  end.

(** [''.join(word.capitalize() for word in node_name.split('_'))]
    ([None] as for [capitalize]). *)
Definition pascal_case (name : string) : option string :=
  match mapM capitalize (split_underscore name) with
  | Some ws => Some (String.concat "" ws)
  | None => None
  end.

(** The custom node classes loaded from the user's file, by class name. *)
Definition custom_classes := list string.

(** [pascal_name in self.custom_nodes]. *)
Definition pascal_in (custom : custom_classes) (name : string) : bool :=
  match pascal_case name with Some p => bool_decide (p ∈ custom) | None => false end.

(** [_is_custom_node]. *)
Definition is_custom_node (custom : custom_classes) (name : string) : bool :=
  bool_decide (name ∈ custom) || pascal_in custom name.

(** [_get_custom_node_class]. *)
Definition get_custom_node_class (custom : custom_classes) (name : string) : option string :=
  if bool_decide (name ∈ custom) then Some name
  else match pascal_case name with
       | Some p => if bool_decide (p ∈ custom) then Some p else None
       | None => None
       end.

(** A built node: an instance of a custom class, or an [MCPNode] for a
    tool with its next node and explicit params. *)
Inductive built_node :=
| CustomNode (cls : string)
| ToolNode (next_node : string) (explicit_params : option (list string)).

(** A wired transition [source - action >> target] ([None]: plain [>>]). *)
Definition wire := (string * option string * string)%type.

Record flow := mk_flow {
  f_nodes : list (string * built_node);
  f_start : string;
  f_wires : list wire
}.

(** The creation loop: [next_node] is the following ordered node or the
    sentinel for the last one. *)
Fixpoint create_nodes (custom : custom_classes) (cs : list edge) (ns : list string)
    : result (list (string * built_node)) :=
  match ns with
  | [] => Ok []
  | n :: ns' =>
      let next := match ns' with [] => COMPLETE | m :: _ => m end in
      let explicit := get_node_params cs n in
      node <- (if is_custom_node custom n then
                 match get_custom_node_class custom n with
                 | Some cls => Ok (CustomNode cls)
                 | None => Raise (KeyError n)
                 end
               else Ok (ToolNode next explicit)) ;;
      rest <- create_nodes custom cs ns' ;;
      Ok ((n, node) :: rest)
  end.

(** [self.nodes[...]]. *)
Definition lookup_node (nodes : list (string * built_node)) (n : string) : result built_node :=
  match dict_get n nodes with Some b => Ok b | None => Raise (KeyError n) end.

(** The wiring loop: edges to the sentinel are skipped. *)
Fixpoint wire_edges (nodes : list (string * built_node)) (cs : list edge) : result (list wire) :=
  match cs with
  | [] => Ok []
  | c :: cs' =>
      _ <- lookup_node nodes (e_source c) ;;
      if String.eqb (e_target c) COMPLETE then wire_edges nodes cs'
      else
        _ <- lookup_node nodes (e_target c) ;;
        let act := match e_action c with Some (String _ _ as a) => Some a | _ => None end in
        rest <- wire_edges nodes cs' ;;
        Ok ((e_source c, act, e_target c) :: rest)
  end.

(** [_build_workflow], from the parsed connections on. *)
Definition build_workflow (custom : custom_classes) (cs : list edge) : result flow :=
  match cs with
  | [] => Raise (ValueError "No valid workflow connections found")
  | _ =>
      let ordered := get_ordered_nodes cs in
      start <- get_start_node cs ;;
      nodes <- create_nodes custom cs ordered ;;
      wires <- wire_edges nodes cs ;;
      _ <- lookup_node nodes start ;;
      Ok (mk_flow nodes start wires)
  end.

End Builder.

(* ================================================================== *)
(** ** workflow_nodes.py and custom_nodes.py: the node lifecycle *)

Module Nodes.

(** Python truthiness, [bool(v)]. *)
Definition truthy (v : value) : bool :=
  match v with
  | VNone => false
  | VBool b => b
  | VInt z => negb (Z.eqb z 0)
  | VStr s => negb (String.eqb s "")
  | VList l => negb (bool_decide (l = []))
  | VDict d => negb (bool_decide (d = []))
  | VObj _ | VResult _ => true
  end.

Definition list_truthy {A} (o : option (list A)) : bool :=
  match o with Some (_ :: _) => true | _ => false end.

Definition Exception_ (e : exn) : bool := isinstance e "Exception".

Definition TypeError (msg : string) : exn :=
  mk_exn "TypeError" ["TypeError"; "Exception"; "BaseException"] msg.
Definition RuntimeError (msg : string) : exn :=
  mk_exn "RuntimeError" ["RuntimeError"; "Exception"; "BaseException"] msg.

(** The shared state of one workflow run. *)
Abbreviation shared := (gmap string value).

Definition PREV_OUTPUT_KEY : string := "_prev_output_key".
Definition input_key (name : string) : string := name ++ "_input".
Definition output_key (name : string) : string := name ++ "_output".

(** [shared.get(prev_output_key, {})]: a string key is looked up; other
    hashable keys are never present; lists and dicts are unhashable. *)
Definition shared_get_prev (s : shared) (pk : value) : result value :=
  match pk with
  | VStr k => Ok (default (VDict []) (s !! k))
  | VList _ | VDict _ => Raise (TypeError "unhashable type")
  | _ => Ok (VDict [])
  end.

(** The input lookup of [ValidationNode], [RoutingNode] and
    [TransformNode] [prep_async]. *)
Definition custom_prep (name : string) (s : shared) : result value :=
  match s !! input_key name with
  | Some v => Ok v
  | None =>
      match s !! PREV_OUTPUT_KEY with
      | Some pk => if truthy pk then shared_get_prev s pk else Ok (VDict [])
      | None => Ok (VDict [])
      end
  end.

(** The tool client, [fastmcp.Client]: external. *)
Record client := mk_client {
  call_tool : string -> value -> result value;
  get_prompt : string -> value -> result value;
  read_resource : value -> result value;
  (** [list_tools()] for one tool: the property names of its input schema
      and its [required] list, or [None] when the tool is missing, has no
      schema, or listing fails. *)
  tool_schema : string -> option (list string * list string)
}.

(** Everything outside the nodes: whether [fastmcp] imported, and the
    client it provides. *)
Record env := mk_env { fastmcp_available : bool; mcp : client }.

(** [MCPNode]: its constructor arguments and the discovery cache. *)
Record mcp_node := mk_mcp {
  m_name : string;
  m_entity_type : string;
  m_entity_name : string;
  m_explicit_params : option (list string);
  m_discovered_params : option (list string);
  m_required_params : option (list string);
  m_optional_params : option (list string)
}.

(** The warnings the parameter mapper prints. *)
Inductive warning :=
| WMissingExplicit (missing : list string)
| WNoMatch
| WMissingRequired (missing : list string)
| WNoParamInfo.

(** [_discover_tool_params]: [{'all', 'required', 'optional'}]. *)
Definition discover_tool_params (E : env) (n : mcp_node)
    : option (list string * list string * list string) :=
  if negb (fastmcp_available E) then None
  else match tool_schema (mcp E) (m_entity_name n) with
       | Some (all_params, required) =>
           Some (all_params, required,
                 List.filter (fun p => bool_decide (p ∉ required)) all_params)
       | None => None
       end.

(** [_auto_map_params]. *)
Definition auto_map_params (n : mcp_node) (input : list (string * value))
    (available : list string) : list (string * value) * list warning :=
  match available with
  | [] => (input, [])
  | _ =>
      let input_keys := map fst input in
      let matching := List.filter (fun k => bool_decide (k ∈ available)) input_keys in
      match matching with
      | [] => (input, [WNoMatch])
      | _ =>
          let w := match m_required_params n with
                   | Some ((_ :: _) as req) =>
                       match List.filter (fun k => bool_decide (k ∉ input_keys)) req with
                       | [] => []
                       | missing => [WMissingRequired missing]
                       end
                   | _ => []
                   end in
          (List.filter (fun kv => bool_decide (kv.1 ∈ matching)) input, w)
      end
  end.

(** Normalisation of the previous node's output in [MCPNode.prep_async]:
    a custom node's [{input, routing_key}] record is unwrapped, a response
    object is [model_dump()]ed, a result with a non-empty [.content] gives
    [{"result": ...}] from its first item ([.text], else [str()]; the
    [except] that yields [{}] cannot fire on a list), anything else
    passes. *)
Definition normalize_prev (prev : value) : value :=
  match prev with
  | VDict d =>
      if dict_has "input" d && dict_has "routing_key" d
      then default VNone (dict_get "input" d) else prev
  | VObj fields => VDict fields
  | VResult (CText t :: _) => VDict [("result", VStr t)]
  | VResult (COther r :: _) => VDict [("result", VStr r)]
  | _ => prev
  end.

(** The parameter mapping of [MCPNode.prep_async], from the resolved
    input on: explicit params, then auto-discovery (cached in the node),
    then pass-through. Returns the input, the updated node and the
    warnings printed. *)
Definition mcp_map_params (E : env) (n : mcp_node) (input : value)
    : value * mcp_node * list warning :=
  match input with
  | VDict d =>
      if list_truthy (m_explicit_params n) then
        let ex := default [] (m_explicit_params n) in
        let filtered := List.filter (fun kv => bool_decide (kv.1 ∈ ex)) d in
        let missing := List.filter (fun k => bool_decide (k ∉ map fst filtered)) ex in
        (VDict filtered, n, match missing with [] => [] | _ => [WMissingExplicit missing] end)
      else
        let n' :=
          match m_discovered_params n with
          | None =>
              if String.eqb (m_entity_type n) "tool" then
                match discover_tool_params E n with
                | Some (all_params, req, opt) =>
                    {| m_name := m_name n; m_entity_type := m_entity_type n;
                       m_entity_name := m_entity_name n;
                       m_explicit_params := m_explicit_params n;
                       m_discovered_params := Some all_params;
                       m_required_params := Some req;
                       m_optional_params := Some opt |}
                | None => n
                end
              else n
          | Some _ => n
          end in
        match m_discovered_params n' with
        | Some ((_ :: _) as avail) =>
            let (m, w) := auto_map_params n' d avail in (VDict m, n', w)
        | _ => (input, n', [WNoParamInfo])
        end
  | _ => (input, n, [])
  end.

(** [MCPNode.prep_async]. *)
Definition mcp_prep (E : env) (n : mcp_node) (s : shared)
    : result (value * mcp_node * list warning) :=
  input <- (match s !! input_key (m_name n) with
            | Some v => Ok v
            | None =>
                match s !! PREV_OUTPUT_KEY with
                | Some pk =>
                    if truthy pk then
                      prev <- shared_get_prev s pk ;; Ok (normalize_prev prev)
                    else Ok (VDict [])
                | None => Ok (VDict [])
                end
            end) ;;
  Ok (mcp_map_params E n input).

(** [MCPNode.exec_async]: the raw result of the client call. *)
Definition mcp_exec (E : env) (n : mcp_node) (input : value) : result value :=
  if negb (fastmcp_available E) then Raise (RuntimeError "FastMCP not installed")
  else if String.eqb (m_entity_type n) "tool" then call_tool (mcp E) (m_entity_name n) input
  else if String.eqb (m_entity_type n) "prompt" then get_prompt (mcp E) (m_entity_name n) input
  else if String.eqb (m_entity_type n) "resource" then
    match input with
    | VDict d => read_resource (mcp E) (default VNone (dict_get "uri" d))
    | _ => Raise (mk_exn "AttributeError" ["AttributeError"; "Exception"; "BaseException"]
                         "object has no attribute 'get'")
    end
  else Raise (ValueError ("Unknown entity type: " ++ m_entity_type n)).

(** [MCPNode.post_async]. *)
Definition mcp_post (n : mcp_node) (s : shared) (result_ : value) : shared * value :=
  let ok := output_key (m_name n) in
  let s1 := <[ok := result_]> s in
  let s2 := <[PREV_OUTPUT_KEY := VStr ok]> s1 in
  (s2, VStr "").

(** [ValidationNode]: the user's [validate] method and the route guard. *)
Record validation_node := mk_validation {
  v_name : string;
  v_allowed_routes : option (list string);
  v_default_route : string;
  v_validate : value -> result value
}.

(** [routing_key not in self.allowed_routes]: list membership by [==]. *)
Definition route_in (rk : value) (routes : list string) : bool :=
  match rk with VStr k => bool_decide (k ∈ routes) | _ => false end.

(** [ValidationNode.exec_async]: [except Exception] turns the user's
    exception into the route ["error"]; anything else propagates. *)
Definition validation_exec (n : validation_node) (input : value) : result value :=
  match v_validate n input with
  | Ok rk =>
      if list_truthy (v_allowed_routes n) && negb (route_in rk (default [] (v_allowed_routes n)))
      then Ok (VStr (v_default_route n))
      else Ok rk
  | Raise e => if Exception_ e then Ok (VStr "error") else Raise e
  end.

(** [ValidationNode.post_async] (and [RoutingNode.post_async]). *)
Definition record_post (name : string) (s : shared) (prep_res rk : value) : shared * value :=
  let ok := output_key name in
  let s1 := <[ok := VDict [("input", prep_res); ("routing_key", rk)]]> s in
  let s2 := <[PREV_OUTPUT_KEY := VStr ok]> s1 in
  (s2, rk).

(** [RoutingNode]. *)
Record routing_node := mk_routing {
  r_name : string;
  r_route : value -> result value
}.

Definition routing_exec (n : routing_node) (input : value) : result value :=
  match r_route n input with
  | Ok rk => Ok rk
  | Raise e => if Exception_ e then Ok (VStr "error") else Raise e
  end.

(** [TransformNode]. *)
Record transform_node := mk_transform {
  t_name : string;
  t_next_node : string;
  t_transform : value -> result value
}.

Definition transform_exec (n : transform_node) (input : value) : result value :=
  match t_transform n input with
  | Ok v => Ok v
  | Raise e => if Exception_ e then Ok input else Raise e
  end.

Definition transform_post (n : transform_node) (s : shared) (data : value) : shared * value :=
  let ok := output_key (t_name n) in
  let s1 := <[ok := data]> s in
  let s2 := <[PREV_OUTPUT_KEY := VStr ok]> s1 in
  (s2, VStr (t_next_node n)).

(** The workflow node kinds. *)
Inductive node :=
| NMCP (n : mcp_node)
| NValidation (n : validation_node)
| NRouting (n : routing_node)
| NTransform (n : transform_node).

Definition node_name (nd : node) : string :=
  match nd with
  | NMCP n => m_name n | NValidation n => v_name n
  | NRouting n => r_name n | NTransform n => t_name n
  end.

(** The three phases, as the execution substrate calls them. [prep]
    reads the shared state and may update the node's own fields (the
    discovery cache); [exec] sees only the prep result; [post] receives the
    shared state and returns it with the routing key. *)
Definition prep (E : env) (nd : node) (s : shared) : result (value * node) :=
  match nd with
  | NMCP n => r <- mcp_prep E n s ;; let '(v, n', _) := r in Ok (v, NMCP n')
  | NValidation n => v <- custom_prep (v_name n) s ;; Ok (v, nd)
  | NRouting n => v <- custom_prep (r_name n) s ;; Ok (v, nd)
  | NTransform n => v <- custom_prep (t_name n) s ;; Ok (v, nd)
  end.

Definition exec (E : env) (nd : node) (p : value) : result value :=
  match nd with
  | NMCP n => mcp_exec E n p
  | NValidation n => validation_exec n p
  | NRouting n => routing_exec n p
  | NTransform n => transform_exec n p
  end.

Definition post (nd : node) (s : shared) (p r : value) : shared * value :=
  match nd with
  | NMCP n => mcp_post n s r
  | NValidation n => record_post (v_name n) s p r
  | NRouting n => record_post (r_name n) s p r
  | NTransform n => transform_post n s r
  end.

(** One run of a node: prepare, execute, finalize. Returns the node
    (with its updated fields), the prep and exec results, the shared state
    after finalize and the routing key. *)
Definition run_node (E : env) (nd : node) (s : shared)
    : result (node * value * value * shared * value) :=
  pr <- prep E nd s ;;
  let '(p, nd') := pr in
  r <- exec E nd' p ;;
  let '(s', rk) := post nd' s p r in
  Ok (nd', p, r, s', rk).

End Nodes.

(* ================================================================== *)
(** ** [json.dumps] and mocks.py: [MockRegistry] *)

Module Json.
Import Nodes.

(** Characters are the code points 0..255 (Latin-1). *)
Definition chr (n : nat) : ascii := ascii_of_nat n.
Definition QUOTE : ascii := chr 34.
Definition BSLASH : ascii := chr 92.

Definition hex_digit (n : nat) : ascii :=
  if (n <? 10)%nat then chr (48 + n) else chr (87 + n).

(** One character of [py_encode_basestring] ([ensure_ascii=False]) or
    [py_encode_basestring_ascii] ([ensure_ascii=True]). *)
Definition escape_char (ensure_ascii : bool) (c : ascii) : string :=
  let n := nat_of_ascii c in
  if (n =? 34)%nat then String BSLASH (String QUOTE EmptyString)
  else if (n =? 92)%nat then String BSLASH (String BSLASH EmptyString)
  else if (n =? 8)%nat then "\b"
  else if (n =? 12)%nat then "\f"
  else if (n =? 10)%nat then "\n"
  else if (n =? 13)%nat then "\r"
  else if (n =? 9)%nat then "\t"
  else if (n <? 32)%nat || (ensure_ascii && (126 <? n)%nat)
  then String BSLASH ("u00" ++ String (hex_digit (n / 16)) (String (hex_digit (n mod 16)) EmptyString))
  else String c EmptyString.

Fixpoint escape_string (ensure_ascii : bool) (s : string) : string :=
  match s with
  | EmptyString => EmptyString
  | String c s' => escape_char ensure_ascii c ++ escape_string ensure_ascii s'
  end.

Definition encode_str (ensure_ascii : bool) (s : string) : string :=
  String QUOTE (escape_string ensure_ascii s ++ String QUOTE EmptyString).

Fixpoint uint_digits (u : Decimal.uint) : string :=
  match u with
  | Decimal.Nil => EmptyString
  | Decimal.D0 u => String "0" (uint_digits u)
  | Decimal.D1 u => String "1" (uint_digits u)
  | Decimal.D2 u => String "2" (uint_digits u)
  | Decimal.D3 u => String "3" (uint_digits u)
  | Decimal.D4 u => String "4" (uint_digits u)
  | Decimal.D5 u => String "5" (uint_digits u)
  | Decimal.D6 u => String "6" (uint_digits u)
  | Decimal.D7 u => String "7" (uint_digits u)
  | Decimal.D8 u => String "8" (uint_digits u)
  | Decimal.D9 u => String "9" (uint_digits u)
  end.

(** [int.__repr__]. *)
Definition int_repr (z : Z) : string :=
  match z with
  | Zneg p => String "-" (uint_digits (N.to_uint (Npos p)))
  | _ => uint_digits (N.to_uint (Z.to_N z))
  end.

(** Order of dict items by key, as [sorted(dct.items())] compares them (the
    keys of a dict are distinct, so values are never compared). *)
Definition key_le {A} (x y : string * A) : Prop := String.le x.1 y.1.
Global Instance key_le_dec {A} : RelDecision (@key_le A) :=
  fun x y => decide (String.le x.1 y.1).

(** [json.dumps(v, ensure_ascii=ea, sort_keys=sk)] with the default
    separators, for a serializable [v]. The items of a dict are encoded
    and then, under [sort_keys], ordered by key. *)
Fixpoint render (ea sk : bool) (v : value) : string :=
  match v with
  | VNone => "null"
  | VBool true => "true"
  | VBool false => "false"
  | VInt z => int_repr z
  | VStr s => encode_str ea s
  | VList l => "[" ++ String.concat ", " (map (render ea sk) l) ++ "]"
  | VDict d =>
      let items := map (fun kv => (kv.1, render ea sk kv.2)) d in
      "{" ++ String.concat ", "
               (map (fun ks => encode_str ea ks.1 ++ ": " ++ ks.2)
                    (if sk then merge_sort key_le items else items)) ++ "}"
  | VObj _ | VResult _ => EmptyString
  end.

(** Only JSON data can be serialised; a protocol object is not. *)
Fixpoint serializable (v : value) : bool :=
  match v with
  | VList l => forallb serializable l
  | VDict d => forallb (fun kv => serializable kv.2) d
  | VObj _ | VResult _ => false
  | _ => true
  end.

Definition dumps (ea sk : bool) (v : value) : result string :=
  if serializable v then Ok (render ea sk v)
  else Raise (TypeError "Object is not JSON serializable").

(** [MockRegistry]: the in-memory dict [self.mocks]. *)
Abbreviation mock_registry := (gmap string value).

(** [get_mock_key]: [json.dumps({"tool": tool, "args": args}, sort_keys=True)]. *)
Definition get_mock_key (tool args : value) : result string :=
  dumps true true (VDict [("tool", tool); ("args", args)]).

Definition get (m : mock_registry) (tool args : value) : result (option value) :=
  key <- get_mock_key tool args ;; Ok (m !! key).

Definition has_mock (m : mock_registry) (tool args : value) : result bool :=
  key <- get_mock_key tool args ;; Ok (bool_decide (is_Some (m !! key))).

(** [_save]: [json.dump(self.mocks, f, indent=2, ensure_ascii=False)]. *)
Definition save (m : mock_registry) : result unit :=
  if forallb serializable (map snd (map_to_list m)) then Ok tt
  else Raise (TypeError "Object is not JSON serializable").

(** [record]: the dict is updated before [_save] runs, so the new entry
    stays in memory even when saving raises. *)
Definition record (m : mock_registry) (tool args response : value)
    : mock_registry * result unit :=
  match get_mock_key tool args with
  | Raise e => (m, Raise e)
  | Ok key => let m' := <[key := response]> m in (m', save m')
  end.

End Json.

(** Sameness of JSON data ([same_json]): dicts by their key sets and
    per-key values, whatever the insertion order, lists elementwise, and
    booleans and integers kept apart as in JSON; Python's [==] ([py_eq]),
    which has [True == 1]; and the data a Python dict can hold (distinct
    keys at every level, no protocol objects). *)
Module JsonEq.

Fixpoint same_json (v w : value) : bool :=
  match v, w with
  | VNone, VNone => true
  | VBool a, VBool b => Bool.eqb a b
  | VInt a, VInt b => Z.eqb a b
  | VStr a, VStr b => String.eqb a b
  | VList l1, VList l2 =>
      (fix go (l1 l2 : list value) : bool :=
         match l1, l2 with
         | [], [] => true
         | x :: xs, y :: ys => same_json x y && go xs ys
         | _, _ => false
         end) l1 l2
  | VDict d1, VDict d2 =>
      Nat.eqb (length d1) (length d2) &&
      forallb (fun kv => match dict_get kv.1 d2 with
                         | Some y => same_json kv.2 y
                         | None => false
                         end) d1
  | _, _ => false
  end.

Fixpoint wf (v : value) : bool :=
  match v with
  | VList l => forallb wf l
  | VDict d => bool_decide (NoDup (map fst d)) && forallb (fun kv => wf kv.2) d
  | VObj _ | VResult _ => false
  | _ => true
  end.

Definition content_item_eqb (c d : content_item) : bool :=
  match c, d with
  | CText a, CText b => String.eqb a b
  | COther a, COther b => String.eqb a b
  | _, _ => false
  end.

(** Python's [==]: [True == 1] and [False == 0]; dicts by their key sets
    and per-key values, lists elementwise; two objects of one model class
    or dataclass compare by their fields. *)
Fixpoint py_eq (v w : value) : bool :=
  match v, w with
  | VNone, VNone => true
  | VBool a, VBool b => Bool.eqb a b
  | VBool a, VInt z | VInt z, VBool a => Z.eqb z (Z.b2z a)
  | VInt a, VInt b => Z.eqb a b
  | VStr a, VStr b => String.eqb a b
  | VList l1, VList l2 =>
      (fix go (l1 l2 : list value) : bool :=
         match l1, l2 with
         | [], [] => true
         | x :: xs, y :: ys => py_eq x y && go xs ys
         | _, _ => false
         end) l1 l2
  | VDict d1, VDict d2 | VObj d1, VObj d2 =>
      Nat.eqb (length d1) (length d2) &&
      forallb (fun kv => match dict_get kv.1 d2 with
                         | Some y => py_eq kv.2 y
                         | None => false
                         end) d1
  | VResult c1, VResult c2 =>
      Nat.eqb (length c1) (length c2) && forallb (fun p => content_item_eqb p.1 p.2) (zip c1 c2)
  | _, _ => false
  end.

End JsonEq.

(** A decoder for the output of [render], a left inverse used to show that
    the encoding is injective; [canon v] is [v] with the items of every
    dict in key order. *)
Module JsonDecode.
Import Json.

Definition hex_val (c : ascii) : nat :=
  let n := nat_of_ascii c in if (n <? 58)%nat then (n - 48)%nat else (n - 87)%nat.

Definition unescape (e : ascii) : ascii :=
  let n := nat_of_ascii e in
  if (n =? 98)%nat then chr 8
  else if (n =? 102)%nat then chr 12
  else if (n =? 110)%nat then chr 10
  else if (n =? 114)%nat then chr 13
  else if (n =? 116)%nat then chr 9
  else e.

Fixpoint decode_str (s : string) : option (string * string) :=
  match s with
  | EmptyString => None
  | String c s1 =>
      if Ascii.eqb c QUOTE then Some (EmptyString, s1)
      else if Ascii.eqb c BSLASH then
        match s1 with
        | String e s2 =>
            if Ascii.eqb e "u" then
              match s2 with
              | String _ (String _ (String h1 (String h2 s3))) =>
                  match decode_str s3 with
                  | Some (t, r) => Some (String (chr (16 * hex_val h1 + hex_val h2)) t, r)
                  | None => None
                  end
              | _ => None
              end
            else
              match decode_str s2 with
              | Some (t, r) => Some (String (unescape e) t, r)
              | None => None
              end
        | EmptyString => None
        end
      else
        match decode_str s1 with
        | Some (t, r) => Some (String c t, r)
        | None => None
        end
  end.

Definition is_digit (c : ascii) : bool :=
  (48 <=? nat_of_ascii c)%nat && (nat_of_ascii c <=? 57)%nat.

Definition digit_cons (c : ascii) (u : Decimal.uint) : Decimal.uint :=
  match (nat_of_ascii c - 48)%nat with
  | 0 => Decimal.D0 u | 1 => Decimal.D1 u | 2 => Decimal.D2 u | 3 => Decimal.D3 u
  | 4 => Decimal.D4 u | 5 => Decimal.D5 u | 6 => Decimal.D6 u | 7 => Decimal.D7 u
  | 8 => Decimal.D8 u | _ => Decimal.D9 u
  end.

Fixpoint read_uint (s : string) : Decimal.uint * string :=
  match s with
  | String c s' =>
      if is_digit c then let '(u, r) := read_uint s' in (digit_cons c u, r)
      else (Decimal.Nil, s)
  | EmptyString => (Decimal.Nil, EmptyString)
  end.

Fixpoint drop (n : nat) (s : string) : string :=
  match n, s with
  | O, _ => s
  | S n', String _ s' => drop n' s'
  | S _, EmptyString => EmptyString
  end.

Fixpoint parse (n : nat) (s : string) {struct n} : option (value * string) :=
  match n with
  | O => None
  | S n' =>
    match s with
    | EmptyString => None
    | String c s1 =>
      if Ascii.eqb c "n" then Some (VNone, drop 3 s1)
      else if Ascii.eqb c "t" then Some (VBool true, drop 3 s1)
      else if Ascii.eqb c "f" then Some (VBool false, drop 4 s1)
      else if Ascii.eqb c QUOTE then
        match decode_str s1 with Some (t, r) => Some (VStr t, r) | None => None end
      else if Ascii.eqb c "[" then
        match s1 with
        | String c2 r =>
            if Ascii.eqb c2 "]" then Some (VList [], r)
            else match parse_items n' s1 with Some (l, r') => Some (VList l, r') | None => None end
        | EmptyString => None
        end
      else if Ascii.eqb c "{" then
        match s1 with
        | String c2 r =>
            if Ascii.eqb c2 "}" then Some (VDict [], r)
            else match parse_entries n' s1 with Some (d, r') => Some (VDict d, r') | None => None end
        | EmptyString => None
        end
      else if Ascii.eqb c "-" then
        let '(u, r) := read_uint s1 in Some (VInt (- Z.of_N (N.of_uint u)), r)
      else let '(u, r) := read_uint s in Some (VInt (Z.of_N (N.of_uint u)), r)
    end
  end
with parse_items (n : nat) (s : string) {struct n} : option (list value * string) :=
  match n with
  | O => None
  | S n' =>
    match parse n' s with
    | Some (v, String c r) =>
        if Ascii.eqb c "," then
          match parse_items n' (drop 1 r) with
          | Some (vs, r') => Some (v :: vs, r')
          | None => None
          end
        else if Ascii.eqb c "]" then Some ([v], r) else None
    | _ => None
    end
  end
with parse_entries (n : nat) (s : string) {struct n}
    : option (list (string * value) * string) :=
  match n with
  | O => None
  | S n' =>
    match s with
    | String _ s1 =>
      match decode_str s1 with
      | Some (k, r1) =>
        match parse n' (drop 2 r1) with
        | Some (v, String c r) =>
            if Ascii.eqb c "," then
              match parse_entries n' (drop 1 r) with
              | Some (es, r') => Some ((k, v) :: es, r')
              | None => None
              end
            else if Ascii.eqb c "}" then Some ([(k, v)], r) else None
        | _ => None
        end
      | None => None
      end
    | EmptyString => None
    end
  end.

(** The dict whose encoding is the mock key of a query. *)
Definition mock_query (tool : string) (args : value) : value :=
  VDict [("tool", VStr tool); ("args", args)].

(** A rest of input that does not extend a number. *)
Definition nodigit (r : string) : Prop :=
  match r with String c _ => is_digit c = false | EmptyString => True end.

Fixpoint canon (v : value) : value :=
  match v with
  | VList l => VList (map canon l)
  | VDict d => VDict (merge_sort key_le (map (fun kv => (kv.1, canon kv.2)) d))
  | _ => v
  end.

Fixpoint vsize (v : value) : nat :=
  match v with
  | VList l => S (fold_right (fun x acc => S (vsize x + acc)) 0%nat l)
  | VDict d => S (fold_right (fun kv acc => S (vsize kv.2 + acc)) 0%nat d)
  | _ => 1%nat
  end.

End JsonDecode.

(* ================================================================== *)
(** ** __init__.py: [RunMCPTestsNode.exec_async] *)

Module Runner.
Import Nodes Json.

(** [a < b] on floats. *)
Definition py_lt (a b : Q) : bool := negb (Qle_bool b a).

Definition AttributeError (msg : string) : exn :=
  mk_exn "AttributeError" ["AttributeError"; "Exception"; "BaseException"] msg.

(** [d.get(k, default)] and [d[k]] on the test-case dict. *)
Definition tc_get (tc : list (string * value)) (k : string) (default : value) : value :=
  match dict_get k tc with Some v => v | None => default end.

Definition tc_index (tc : list (string * value)) (k : string) : result value :=
  match dict_get k tc with Some v => Ok v | None => Raise (KeyError k) end.

(** [str.lower] on the code points 0..255. *)
Definition lower_char (c : ascii) : ascii :=
  let n := nat_of_ascii c in
  if ((65 <=? n) && (n <=? 90))%nat || ((192 <=? n) && (n <=? 222) && negb (n =? 215))%nat
  then ascii_of_nat (n + 32) else c.

Fixpoint py_lower (s : string) : string :=
  match s with
  | EmptyString => EmptyString
  | String c s' => String (lower_char c) (py_lower s')
  end.

Fixpoint is_prefix (p s : string) : bool :=
  match p, s with
  | EmptyString, _ => true
  | String c p', String d s' => Ascii.eqb c d && is_prefix p' s'
  | String _ _, EmptyString => false
  end.

(** [p in s] for strings: [p] occurs in [s]. *)
Fixpoint py_substr (p s : string) : bool :=
  is_prefix p s || match s with EmptyString => false | String _ s' => py_substr p s' end.

(** [needle in container] for a string [needle]. *)
Definition py_contains (needle : string) (container : value) : result bool :=
  match container with
  | VDict d => Ok (dict_has needle d)
  | VList l => Ok (existsb (fun v => match v with VStr s => String.eqb s needle | _ => false end) l)
  | VStr s => Ok (py_substr needle s)
  | _ => Raise (TypeError "argument of type is not iterable")
  end.

(** [for k in v]: the items of a list, the one-character strings of a
    string, the keys of a dict. *)
Definition py_iter (v : value) : result (list value) :=
  match v with
  | VList l => Ok l
  | VStr s => Ok (map (fun c => VStr (String c EmptyString)) (list_ascii_of_string s))
  | VDict d => Ok (map (fun kv => VStr kv.1) d)
  | _ => Raise (TypeError "object is not iterable")
  end.

(** [int(v)]; a string is stripped of whitespace and read as a decimal
    literal with an optional sign and single underscores between digits. *)
Definition is_space (c : ascii) : bool :=
  let n := nat_of_ascii c in
  ((9 <=? n) && (n <=? 13))%nat || ((28 <=? n) && (n <=? 32))%nat || (n =? 133)%nat || (n =? 160)%nat.

Fixpoint lstrip (s : string) : string :=
  match s with
  | String c s' => if is_space c then lstrip s' else s
  | EmptyString => EmptyString
  end.

Definition py_strip (s : string) : string :=
  string_of_list_ascii (rev (list_ascii_of_string (lstrip (string_of_list_ascii
    (rev (list_ascii_of_string (lstrip s))))))).

Fixpoint dec_digits (s : string) (acc : Z) (after_digit : bool) : option Z :=
  match s with
  | EmptyString => if after_digit then Some acc else None
  | String c s' =>
      if JsonDecode.is_digit c then
        dec_digits s' (acc * 10 + Z.of_nat (nat_of_ascii c - 48)) true
      else if Ascii.eqb c "_" && after_digit then dec_digits s' acc false
      else None
  end.

Definition int_of_str (s : string) : option Z :=
  match py_strip s with
  | String "-" r => option_map Z.opp (dec_digits r 0 false)
  | String "+" r => dec_digits r 0 false
  | r => dec_digits r 0 false
  end.

Definition py_int (v : value) : result Z :=
  match v with
  | VInt z => Ok z
  | VBool b => Ok (if b then 1%Z else 0%Z)
  | VStr s => match int_of_str s with
              | Some z => Ok z
              | None => Raise (ValueError "invalid literal for int() with base 10")
              end
  | _ => Raise (TypeError "int() argument must be a string or a real number")
  end.

(** [isinstance(v, (int, float))] and [float(v)]: booleans are integers. *)
Definition py_number (v : value) : option Q :=
  match v with
  | VInt z => Some (inject_Z z)
  | VBool b => Some (if b then 1 else 0)%Q
  | _ => None
  end.

(** A failure reason; the f-string of the source is represented by its
    constructor and the values it formats. *)
Inductive failure :=
| FText (msg : string)
| FUnknownSchema (schema_name : value)
| FSchemaInvalid (e : exn)
| FMissingKeywords (missing : list value)
| FLatency (latency_ms : Q) (max_latency : value).

(** The returned dict, without its [metrics] (the latency rounded to two
    decimals) and [expected] (an echo of the test case) entries. *)
Record test_result := mk_result {
  r_server : string;
  r_test_name : value;
  r_tool : value;
  r_arguments : value;
  r_status : string;
  r_response : value;
  r_failures : list failure;
  r_mode : string
}.

(** What a real call gives: the text extracted from the MCP result, or an
    exception (raised by the client or by [asyncio.wait_for]). *)
Inductive call_outcome :=
| CallText (text : string)
| CallRaise (e : exn).

(** The world of a test run: whether [fastmcp] imported, the pydantic
    model of each name of [SCHEMA_REGISTRY] (calling it on the response succeeds or
    raises), the real call per (server, tool, args, timeout), and the time
    a real call takes in milliseconds. *)
Record runner_env := mk_env {
  fastmcp_available : bool;
  schema_registry : string → option (value → result unit);
  call_tool : string → value → value → Z → call_outcome;
  elapsed_ms : Q
}.

(** [SCHEMA_REGISTRY.get(schema_name)]. *)
Definition schema_lookup (E : runner_env) (v : value) : result (option (value → result unit)) :=
  match v with
  | VStr s => Ok (schema_registry E s)
  | VList _ | VDict _ => Raise (TypeError "unhashable type")
  | _ => Ok None
  end.

Fixpoint missing_keywords (jam : string) (ks : list value) : result (list value) :=
  match ks with
  | [] => Ok []
  | k :: ks' =>
      kl <- (match k with VStr s => Ok (py_lower s) | _ => Raise (AttributeError "lower") end) ;;
      rest <- missing_keywords jam ks' ;;
      Ok (if py_substr kl jam then rest else k :: rest)
  end.

(** The validation block (lines 156-184): the status and failures. *)
Definition validation (E : runner_env) (tc : list (string * value)) (resp : value) (latency_ms : Q)
    : result (string * list failure) :=
  has_error <- py_contains "error" resp ;;
  let status := if has_error then "FAIL" else "PASS" in
  let failures : list failure := [] in
  let schema_name := tc_get tc "expected_schema" VNone in
  sf <- (if String.eqb status "PASS" && truthy schema_name then
           model <- schema_lookup E schema_name ;;
           match model with
           | None => Ok ("FAIL", [FUnknownSchema schema_name])
           | Some validate =>
               match resp with
               | VDict _ =>
                   match validate resp with
                   | Ok _ => Ok (status, failures)
                   | Raise e =>
                       if isinstance e "ValidationError" then Ok ("FAIL", [FSchemaInvalid e])
                       else Raise e
                   end
               | _ => Raise (TypeError "argument after ** must be a mapping")
               end
           end
         else Ok (status, failures)) ;;
  let '(status, failures) := sf in
  let keywords := tc_get tc "expected_keywords" (VList []) in
  kf <- (if String.eqb status "PASS" && truthy keywords then
           jam <- dumps false false resp ;;
           ks <- py_iter keywords ;;
           missing <- missing_keywords (py_lower jam) ks ;;
           match missing with
           | [] => Ok (status, failures)
           | _ :: _ => Ok ("FAIL", [FMissingKeywords missing])
           end
         else Ok (status, failures)) ;;
  let '(status, failures) := kf in
  let metrics := tc_get tc "expected_metrics" (VDict []) in
  max_latency <- (match metrics with
                  | VDict d => Ok (tc_get d "max_latency_ms" VNone)
                  | _ => Raise (AttributeError "get")
                  end) ;;
  if String.eqb status "PASS" then
    match py_number max_latency with
    | Some mx => if py_lt mx latency_ms then Ok ("FAIL", [FLatency latency_ms max_latency])
                 else Ok (status, failures)
    | None => Ok (status, failures)
    end
  else Ok (status, failures).

(** The [except] clauses of the real call. *)
Definition call_handler (timeout : Z) (e : exn) : result (value * string) :=
  if isinstance e "TimeoutError" then
    Ok (VDict [("error", VStr ("Timeout after " ++ int_repr timeout ++ "s"))], "error")
  else if isinstance e "Exception" then
    Ok (VDict [("error", VStr (exn_type e ++ ": " ++ exn_msg e))], "error")
  else Raise e.

(** The mocking logic (lines 90-154): the response, its latency and the
    mode, or the early [FastMCP not installed] result. *)
Definition acquire (E : runner_env) (m : mock_registry) (server_path : string)
    (tc : list (string * value)) (name tool args : value) (timeout : Z)
    (use_mocks record_mocks : value)
    : mock_registry * result (test_result + (value * Q * string)) :=
  if truthy use_mocks && dict_has "mock" tc then
    (m, Ok (inr (tc_get tc "mock" VNone, 0%Q, "mock")))
  else
    match (if truthy use_mocks then has_mock m tool args else Ok false) with
    | Raise e => (m, Raise e)
    | Ok true =>
        match get m tool args with
        | Raise e => (m, Raise e)
        | Ok o => (m, Ok (inr (match o with Some v => v | None => VNone end, 0%Q, "replay")))
        end
    | Ok false =>
        if negb (fastmcp_available E) then
          (m, Ok (inl (mk_result server_path name tool args "FAIL"
                         (VDict [("error", VStr "FastMCP not installed")])
                         [FText "pip install fastmcp"] "error")))
        else
          let latency_ms := elapsed_ms E in
          let handle m' e :=
            match call_handler timeout e with
            | Ok (resp, mode) => (m', Ok (inr (resp, latency_ms, mode)))
            | Raise e' => (m', Raise e')
            end in
          match call_tool E server_path tool args timeout with
          | CallText text =>
              let resp := VDict [("result", VStr text)] in
              let mode := if truthy record_mocks then "recorded" else "real" in
              if truthy record_mocks then
                match record m tool args resp with
                | (m', Ok _) => (m', Ok (inr (resp, latency_ms, mode)))
                | (m', Raise e) => handle m' e
                end
              else (m, Ok (inr (resp, latency_ms, mode)))
          | CallRaise e => handle m e
          end
    end.

(** [exec_async(pair)] with the registry [self.mock_registry] as state. *)
Definition exec_async (E : runner_env) (m : mock_registry) (server_path : string)
    (tc : list (string * value)) (global_use_mocks global_record_mocks : value)
    : mock_registry * result test_result :=
  match (name <- tc_index tc "name" ;;
         tool <- tc_index tc "tool" ;;
         let args := tc_get tc "arguments" (VDict []) in
         timeout <- py_int (tc_get tc "timeout_sec" (VInt 45)) ;;
         Ok (name, tool, args, timeout)) with
  | Raise e => (m, Raise e)
  | Ok (name, tool, args, timeout) =>
      let use_mocks := tc_get tc "use_mocks" global_use_mocks in
      let record_mocks := tc_get tc "record_mocks" global_record_mocks in
      match acquire E m server_path tc name tool args timeout use_mocks record_mocks with
      | (m', Raise e) => (m', Raise e)
      | (m', Ok (inl r)) => (m', Ok r)
      | (m', Ok (inr (resp, latency_ms, mode))) =>
          (m', sf <- validation E tc resp latency_ms ;;
               let '(status, failures) := sf in
               Ok (mk_result (if bool_decide (mode ∈ ["mock"; "replay"]) then "mock" else server_path)
                             name tool args status resp failures mode))
      end
  end.

End Runner.

(** The four checks of the validator, each evaluated on its own, as the
    specification lists them: (a) call error, (b) expected schema,
    (c) expected keywords, (d) max latency. *)
Module RunnerSpec.
Import Nodes Json Runner.

Inductive check := Pass | Fail (reasons : list failure).

Definition check_error (resp : value) : result check :=
  b <- py_contains "error" resp ;; Ok (if b then Fail [] else Pass).

Definition check_schema (E : runner_env) (tc : list (string * value)) (resp : value) : result check :=
  let schema_name := tc_get tc "expected_schema" VNone in
  if truthy schema_name then
    model <- schema_lookup E schema_name ;;
    match model with
    | None => Ok (Fail [FUnknownSchema schema_name])
    | Some validate =>
        match resp with
        | VDict _ =>
            match validate resp with
            | Ok _ => Ok Pass
            | Raise e => if isinstance e "ValidationError" then Ok (Fail [FSchemaInvalid e]) else Raise e
            end
        | _ => Raise (TypeError "argument after ** must be a mapping")
        end
    end
  else Ok Pass.

Definition check_keywords (tc : list (string * value)) (resp : value) : result check :=
  let keywords := tc_get tc "expected_keywords" (VList []) in
  if truthy keywords then
    jam <- dumps false false resp ;;
    ks <- py_iter keywords ;;
    missing <- missing_keywords (py_lower jam) ks ;;
    Ok (match missing with [] => Pass | _ :: _ => Fail [FMissingKeywords missing] end)
  else Ok Pass.

Definition check_latency (tc : list (string * value)) (latency_ms : Q) : result check :=
  match tc_get tc "expected_metrics" (VDict []) with
  | VDict d =>
      let max_latency := tc_get d "max_latency_ms" VNone in
      Ok (match py_number max_latency with
          | Some mx => if py_lt mx latency_ms then Fail [FLatency latency_ms max_latency] else Pass
          | None => Pass
          end)
  | _ => Raise (AttributeError "get")
  end.

(** Short-circuit: the verdict of the first failing check, in order. *)
Fixpoint first_failure (cs : list check) : string * list failure :=
  match cs with
  | [] => ("PASS", [])
  | Pass :: cs' => first_failure cs'
  | Fail reasons :: _ => ("FAIL", reasons)
  end.

End RunnerSpec.

(* ================================================================== *)
(** ** retry_logic.py *)

Module Retry.
Import Nodes Runner.

(** Floats are rationals: the model keeps the exceptions of float
    arithmetic that the code can reach, not its rounding. An exception
    class is named by the [exn_mro] entry that [isinstance] looks for. *)
Record retry_config := mk_retry_config {
  max_attempts : Z;
  base_delay : Q;
  max_delay : Q;
  exponential_base : Q;
  jitter : bool;
  retryable_exceptions : list string
}.

(** [RetryConfig(...)]: an empty or missing list means the defaults
    ([retryable_exceptions or [...]]). *)
Definition RetryConfig (max_attempts : Z) (base_delay max_delay exponential_base : Q)
    (jitter : bool) (retryable : option (list string)) : retry_config :=
  mk_retry_config max_attempts base_delay max_delay exponential_base jitter
    (match retryable with
     | Some ((_ :: _) as l) => l
     | _ => ["TimeoutError"; "ConnectionError"; "OSError"]
     end).

Definition is_retryable_exception (e : exn) (retryable_types : list string) : bool :=
  existsb (isinstance e) retryable_types.

(** [min(a, b)] returns [a] unless [b < a]. *)
Definition py_min (a b : Q) : Q := if py_lt b a then b else a.

Definition ZeroDivisionError (msg : string) : exn :=
  mk_exn "ZeroDivisionError" ["ZeroDivisionError"; "ArithmeticError"; "Exception"; "BaseException"] msg.
Definition OverflowError (msg : string) : exn :=
  mk_exn "OverflowError" ["OverflowError"; "ArithmeticError"; "Exception"; "BaseException"] msg.

(** The largest finite double is 2^1024 - 2^971: an exact result of
    magnitude at least 2^1024 - 2^970 rounds to infinity. *)
Definition float_overflow_bound : Q := inject_Z (2 ^ 1024 - 2 ^ 970).

(** [x ** n] for a float [x] and an int [n] (CPython's [float_pow], with
    the C [pow] rounding to nearest): [0.0] to a negative power raises
    [ZeroDivisionError], a result that rounds to infinity raises
    [OverflowError]; an underflow is no error. *)
Definition float_pow (x : Q) (n : Z) : result Q :=
  if Qeq_bool x 0 && (n <? 0)%Z then
    Raise (ZeroDivisionError "0.0 cannot be raised to a negative power")
  else
    let p := (x ^ n)%Q in
    if Qle_bool float_overflow_bound (Qabs p) then
      Raise (OverflowError "(34, 'Numerical result out of range')")
    else Ok p.

(** [calculate_delay]; [u] is the [random.random()] draw behind
    [random.uniform(0.5, 1.5) = 0.5 + (1.5 - 0.5) * u]. A product that
    overflows is [inf] in Python, and [min(inf, max_delay)] is
    [max_delay], as with the exact product. *)
Definition calculate_delay (attempt : Z) (config : retry_config) (u : Q) : result Q :=
  p <- float_pow (exponential_base config) (attempt - 1) ;;
  let delay := (base_delay config * p)%Q in
  let delay := py_min delay (max_delay config) in
  Ok (if jitter config then (delay * ((1 # 2) + u))%Q else delay).

(** The loop of [retry_async] over [range(1, max_attempts + 1)]: the
    attempts made, the sleeps, and the outcome; an exception raised by
    [calculate_delay] inside the [except] block propagates. [func a] is the outcome of
    the call at attempt [a], [rand a] the draw of its delay. *)
Fixpoint retry_loop {A} (config : retry_config) (func : Z → result A) (rand : Z → Q)
    (attempts : list Z) (last_exception : option exn) : list Z * list Q * result A :=
  match attempts with
  | [] =>
      ([], [], match last_exception with
               | Some e => Raise e
               | None => Raise (TypeError "exceptions must derive from BaseException")
               end)
  | attempt :: rest =>
      match func attempt with
      | Ok v => ([attempt], [], Ok v)
      | Raise e =>
          if negb (isinstance e "Exception") then ([attempt], [], Raise e)
          else if negb (is_retryable_exception e (retryable_exceptions config)) then
            ([attempt], [], Raise e)
          else if Z.eqb attempt (max_attempts config) then ([attempt], [], Raise e)
          else
            match calculate_delay attempt config (rand attempt) with
            | Raise e' => ([attempt], [], Raise e')
            | Ok delay =>
                let '(calls, sleeps, r) := retry_loop config func rand rest (Some e) in
                (attempt :: calls, delay :: sleeps, r)
            end
      end
  end.

Definition py_range (lo hi : Z) : list Z :=
  map (fun k => (lo + Z.of_nat k)%Z) (seq 0 (Z.to_nat (hi - lo))).

Definition retry_async {A} (config : retry_config) (func : Z → result A) (rand : Z → Q)
    : list Z * list Q * result A :=
  retry_loop config func rand (py_range 1 (max_attempts config + 1)%Z) None.

End Retry.

(* ================================================================== *)
(** ** schema_validation.py and __init__.py: the validated spec as the
    runner sees it *)

Module Loader.
Import Nodes Runner.

(** [TestCase] after validation. *)
Record test_case := mk_test_case {
  tc_name : string;
  tc_tool : string;
  tc_arguments : list (string * value);
  tc_timeout_sec : Z;
  tc_use_mocks : option bool;
  tc_record_mocks : option bool;
  tc_mock : option (list (string * value));
  tc_expected_schema : option string;
  tc_expected_keywords : list string;
  tc_expected_metrics : list (string * value)
}.

(** [SpecSchema] after validation. *)
Record spec_schema := mk_spec {
  agent_name : string;
  mcp_server : option string;
  mcp_servers : option (list string);
  custom_tests : list test_case;
  use_mocks : bool;
  record_mocks : bool
}.

Definition opt_value {A} (f : A → value) (o : option A) : value :=
  match o with Some a => f a | None => VNone end.

(** [TestCase.model_dump()]: every field in declaration order, an unset
    optional field as [None]. *)
Definition test_case_dump (t : test_case) : list (string * value) :=
  [("name", VStr (tc_name t));
   ("tool", VStr (tc_tool t));
   ("arguments", VDict (tc_arguments t));
   ("timeout_sec", VInt (tc_timeout_sec t));
   ("use_mocks", opt_value VBool (tc_use_mocks t));
   ("record_mocks", opt_value VBool (tc_record_mocks t));
   ("mock", opt_value VDict (tc_mock t));
   ("expected_schema", opt_value VStr (tc_expected_schema t));
   ("expected_keywords", VList (map VStr (tc_expected_keywords t)));
   ("expected_metrics", VDict (tc_expected_metrics t))].

(** [validated_spec.model_dump()], as [LoadSpecNode] stores it. *)
Definition spec_dump (s : spec_schema) : list (string * value) :=
  [("agent_name", VStr (agent_name s));
   ("mcp_server", opt_value VStr (mcp_server s));
   ("mcp_servers", opt_value (fun l => VList (map VStr l)) (mcp_servers s));
   ("custom_tests", VList (map (fun t => VDict (test_case_dump t)) (custom_tests s)));
   ("use_mocks", VBool (use_mocks s));
   ("record_mocks", VBool (record_mocks s))].

(** One item of the batch: [{"server_path", "test", "global_use_mocks",
    "global_record_mocks"}]. *)
Record pair := mk_pair {
  p_server_path : value;
  p_test : value;
  p_global_use_mocks : value;
  p_global_record_mocks : value
}.

(** [[... for s in servers for t in tests]]: [tests] is iterated afresh
    for each server. *)
Fixpoint pairs_of (ss : list value) (tests gu gr : value) : result (list pair) :=
  match ss with
  | [] => Ok []
  | s :: ss' =>
      ts <- py_iter tests ;;
      rest <- pairs_of ss' tests gu gr ;;
      Ok (map (fun t => mk_pair s t gu gr) ts ++ rest)%list
  end.

(** [RunMCPTestsNode.prep_async], from [spec = shared["spec"]] on. *)
Definition runner_prep (spec : list (string * value)) : result (list pair) :=
  let tests := tc_get spec "custom_tests" (VList []) in
  servers <- (match dict_get "mcp_servers" spec with
              | Some v => Ok v
              | None =>
                  match dict_get "mcp_server" spec with
                  | Some v => Ok (VList [v])
                  | None => Raise (ValueError "spec must include mcp_server or mcp_servers")
                  end
              end) ;;
  let gu := tc_get spec "use_mocks" (VBool false) in
  let gr := tc_get spec "record_mocks" (VBool false) in
  ss <- py_iter servers ;;
  pairs_of ss tests gu gr.

End Loader.

(* ================================================================== *)
(** ** custom_nodes.py: the example nodes *)

Module Examples.
Import Nodes Runner.

(** [input_data.get(k, default)]: only a dict has [get]. *)
Definition py_get (input : value) (k : string) (default : value) : result value :=
  match input with
  | VDict d => Ok (match dict_get k d with Some v => v | None => default end)
  | _ => Raise (AttributeError "object has no attribute 'get'")
  end.

(** [RetryHandler.validate]: [retry_count < self.max_attempts]. *)
Definition retry_handler_validate (max_attempts : Z) (input : value) : result value :=
  retry_count <- py_get input "retry_count" (VInt 0) ;;
  match py_number retry_count with
  | Some q => Ok (VStr (if py_lt q (inject_Z max_attempts) then "retry" else "max_retries"))
  | None => Raise (TypeError "'<' not supported between instances")
  end.

Definition RetryHandler (name : string) (max_attempts : Z) : validation_node :=
  mk_validation name (Some ["retry"; "max_retries"]) "default" (retry_handler_validate max_attempts).

(** [ErrorHandler.validate]. *)
Definition error_handler_validate (input : value) : result value :=
  error <- py_get input "error" (VDict []) ;;
  error_type <- py_get error "type" (VStr "unknown") ;;
  Ok (VStr (if route_in error_type ["TimeoutError"; "ConnectionError"] then "retry"
            else if route_in error_type ["ValidationError"; "SchemaError"] then "skip"
            else "fatal")).

Definition ErrorHandler (name : string) : validation_node :=
  mk_validation name (Some ["retry"; "skip"; "fatal"]) "default" error_handler_validate.

(** [ConditionalRouter.route]; the default confidence is the float [0.5]. *)
Definition conditional_route (input : value) : result value :=
  priority <- py_get input "priority" (VStr "medium") ;;
  low <- (match input with
          | VDict d =>
              match dict_get "confidence" d with
              | None => Ok (py_lt (1 # 2) (3 # 10))
              | Some v =>
                  match py_number v with
                  | Some q => Ok (py_lt q (3 # 10))
                  | None => Raise (TypeError "'<' not supported between instances")
                  end
              end
          | _ => Raise (AttributeError "object has no attribute 'get'")
          end) ;;
  Ok (VStr (if low then "low_confidence"
            else if route_in priority ["urgent"] then "high"
            else if route_in priority ["normal"] then "medium"
            else "low")).

Definition ConditionalRouter (name : string) : routing_node :=
  mk_routing name conditional_route.

End Examples.

(* ================================================================== *)
(** ** retry_logic.py: the [retryable] decorator and the presets *)

Module RetryDecorator.
Import Nodes Runner Retry.

(** The [RetryConfig] objects alive, by reference: a decorator and its
    caller share the object they are given. *)
Abbreviation config_heap := (gmap positive retry_config).

Definition RetryConfig_default : retry_config := RetryConfig 3 1 60 2 true None.

Definition QUICK_RETRY : retry_config := RetryConfig 2 (1 # 2) 5 2 true None.
Definition STANDARD_RETRY : retry_config := RetryConfig 3 1 30 2 true None.
Definition PERSISTENT_RETRY : retry_config := RetryConfig 5 2 120 2 true None.

(** [retry_config.retryable_exceptions = ...]: an attribute write. *)
Definition set_retryable (c : retry_config) (l : list string) : retry_config :=
  mk_retry_config (max_attempts c) (base_delay c) (max_delay c) (exponential_base c) (jitter c) l.

(** One call of [retryable(config, retryable_exceptions)(func)]:
    [retry_config = config or RetryConfig()] (a config object is always
    truthy; [RetryConfig()] is a new object), the attribute write when the
    list is non-empty, then [retry_async]. [None]: [config] names no live
    object. *)
Definition wrapper_call {A} (h : config_heap) (config : option positive)
    (retryable_exceptions : option (list string)) (func : Z → result A) (rand : Z → Q)
    : option (config_heap * (list Z * list Q * result A)) :=
  let '(l, h1) := match config with
                  | Some l => (l, h)
                  | None => let l := fresh (dom h) in (l, <[l := RetryConfig_default]> h)
                  end in
  match h1 !! l with
  | None => None
  | Some c =>
      if list_truthy retryable_exceptions then
        let c' := set_retryable c (default [] retryable_exceptions) in
        Some (<[l := c']> h1, retry_async c' func rand)
      else Some (h1, retry_async c func rand)
  end.

End RetryDecorator.

(* ================================================================== *)
(** ** parser.py: [WorkflowParser.parse_workflow] *)

Module WorkflowParse.
Import Parser Runner.

(** [\w] on the code points 0..255 ([str.isalnum()] or ['_']). *)
Definition is_word (c : ascii) : bool :=
  let n := nat_of_ascii c in
  ((48 <=? n) && (n <=? 57))%nat || ((65 <=? n) && (n <=? 90))%nat || (n =? 95)%nat ||
  ((97 <=? n) && (n <=? 122))%nat || (n =? 170)%nat || (n =? 178)%nat || (n =? 179)%nat ||
  (n =? 181)%nat || (n =? 185)%nat || (n =? 186)%nat || ((188 <=? n) && (n <=? 190))%nat ||
  ((192 <=? n) && (n <=? 214))%nat || ((216 <=? n) && (n <=? 246))%nat ||
  ((248 <=? n) && (n <=? 255))%nat.

(** The regular expression of [parse_workflow], matched at the start of
    the line. Each piece is followed by a character it cannot consume
    ([\w+] by a non-word character, [[^\]]+] by [']'], [\s*] by a
    non-space), so backtracking never finds another match and the match
    is the greedy one computed here. *)
Fixpoint take_word (s : string) : string * string :=
  match s with
  | String c s' => if is_word c then let '(w, r) := take_word s' in (String c w, r) else ("", s)
  | EmptyString => ("", "")
  end.

(** [(\w+)]. *)
Definition match_word (s : string) : option (string * string) :=
  match take_word s with
  | (EmptyString, _) => None
  | (w, r) => Some (w, r)
  end.

Fixpoint take_until_rbracket (s : string) : string * string :=
  match s with
  | String c s' =>
      if Ascii.eqb c "]" then ("", s)
      else let '(w, r) := take_until_rbracket s' in (String c w, r)
  | EmptyString => ("", "")
  end.

(** [(?:\[([^\]]+)\])?]: the group, or [None] and the input unconsumed. *)
Definition match_params (s : string) : option string * string :=
  match s with
  | String "[" s' =>
      match take_until_rbracket s' with
      | (String _ _ as p, String "]" r) => (Some p, r)
      | _ => (None, s)
      end
  | _ => (None, s)
  end.

Definition is_quote (c : ascii) : bool := Ascii.eqb c "'" || Ascii.eqb c "034"%char.

(** [(?:\s*-\s*['\"](\w+)['\"])?]. *)
Definition match_action (s : string) : option string * string :=
  match lstrip s with
  | String "-" s1 =>
      match lstrip s1 with
      | String q s2 =>
          if is_quote q then
            match match_word s2 with
            | Some (a, String q' s3) => if is_quote q' then (Some a, s3) else (None, s)
            | _ => (None, s)
            end
          else (None, s)
      | EmptyString => (None, s)
      end
  | _ => (None, s)
  end.

(** The groups [(source, source params, action, target, target params)]. *)
Definition workflow_match (line : string)
    : option (string * option string * option string * string * option string) :=
  match match_word line with
  | None => None
  | Some (source, r1) =>
      let '(sp, r2) := match_params r1 in
      let '(action, r3) := match_action r2 in
      match lstrip r3 with
      | String ">" (String ">" r4) =>
          match match_word (lstrip r4) with
          | None => None
          | Some (target, r5) =>
              let '(tp, _) := match_params r5 in
              Some (source, sp, action, target, tp)
          end
      | _ => None
      end
  end.

(** [s.split(',')]. *)
Fixpoint split_comma (s : string) : list string :=
  match s with
  | EmptyString => [EmptyString]
  | String c s' =>
      match split_comma s' with
      | [] => []
      | w :: ws => if Ascii.eqb c "," then EmptyString :: w :: ws else String c w :: ws
      end
  end.

Definition split_params (s : string) : list string := map py_strip (split_comma s).

(** [parse_workflow]. *)
Fixpoint parse_workflow (lines : list string) : list edge :=
  match lines with
  | [] => []
  | l :: ls =>
      let line := py_strip l in
      if String.eqb line "" then parse_workflow ls
      else if negb (py_substr ">>" line) then
        mk_edge (py_strip line) None COMPLETE None :: parse_workflow ls
      else
        match workflow_match line with
        | Some (source, sp, action, target, tp) =>
            let params := match tp with
                          | Some (String _ _ as t) => Some (split_params t)
                          | _ => match sp with
                                 | Some (String _ _ as s) => Some (split_params s)
                                 | _ => None
                                 end
                          end in
            mk_edge source action target params :: parse_workflow ls
        | None => parse_workflow ls
        end
  end.


(** The line format of the docstring's examples:
    [source[params] - 'action' >> target[params]], each part optional
    but the two names. *)
Definition bracket (ps : option (list string)) : string :=
  match ps with
  | Some l => String "[" (String.concat "," l ++ "]")
  | None => ""
  end.

Definition workflow_line (source : string) (sp : option (list string)) (action : option string)
    (target : string) (tp : option (list string)) : string :=
  source ++ bracket sp ++
  match action with Some a => " - '" ++ a ++ "'" | None => "" end ++
  " >> " ++ target ++ bracket tp.

(** A name the pattern's [\w+] matches whole. *)
Definition is_ident (w : string) : bool :=
  match w with EmptyString => false | _ => forallb is_word (list_ascii_of_string w) end.

Definition no_comma_bracket (p : string) : bool :=
  forallb (fun c => negb (Ascii.eqb c ",") && negb (Ascii.eqb c "]")) (list_ascii_of_string p).

(** Parameters the docstring's format can write: nonempty between the
    brackets, items already stripped, without [','] or [']']. *)
Definition params_ok (ps : option (list string)) : bool :=
  match ps with
  | None => true
  | Some l => negb (String.eqb (String.concat "," l) "") &&
              forallb (fun p => String.eqb (py_strip p) p && no_comma_bracket p) l
  end.

End WorkflowParse.

(* ================================================================== *)
(** ** schema_validation.py: [SpecSchema.model_post_init]; __init__.py:
    the grouping of [GenerateReportNode.exec_async] *)

Module SpecCheck.
Import Nodes Runner Loader.

(** [model_post_init]: [not self.mcp_server] and [not self.mcp_servers]
    test truthiness, so an empty string or an empty list counts as unset. *)
Definition model_post_init (s : spec_schema) : result unit :=
  let server := opt_value VStr (mcp_server s) in
  let servers := opt_value (fun l => VList (map VStr l)) (mcp_servers s) in
  if negb (truthy server) && negb (truthy servers) then
    Raise (ValueError "Either 'mcp_server' or 'mcp_servers' must be specified")
  else if truthy server && truthy servers then
    Raise (ValueError "Cannot specify both 'mcp_server' and 'mcp_servers'")
  else Ok tt.

End SpecCheck.

Module Report.
Import Runner.

(** [servers = sorted(set(r["server"] for r in results))]. *)
Definition report_servers (results : list test_result) : list string :=
  merge_sort String.le (remove_dups (map r_server results)).

(** [by_server[s] = [r for r in results if r["server"] == s]]. *)
Definition by_server (results : list test_result) (s : string) : list test_result :=
  filter (fun r => r_server r = s) results.

(** [passed = sum(1 for r in block if r["status"] == "PASS")]. *)
Definition passed (block : list test_result) : nat :=
  length (filter (fun r => r_status r = "PASS") block).

(** The figures of each server's block, in the report's order:
    [(s, passed, total)] as written on its [Summary] line, and the
    block's results in the order they are listed. *)
Definition report_blocks (results : list test_result)
    : list (string * nat * nat * list test_result) :=
  map (fun s => let block := by_server results s in
                (s, passed block, length block, block)) (report_servers results).

End Report.

(* ================================================================== *)
(** * Properties *)

Import Parser Builder.

Example ordered_nodes_ex :
  get_ordered_nodes [mk_edge "a" None "b" None; mk_edge "b" (Some "x") "complete" None;
                     mk_edge "a" None "c" None] = ["a"; "b"; "c"].
Proof. reflexivity. Qed.

Example pascal_ex : pascal_case "check_cache" = Some "CheckCache".
Proof. reflexivity. Qed.

(** Latin-1 letters: ["état_ßx"] gives ["ÉtatSsx"]; a word starting with µ
    leaves 0..255. *)
Example pascal_latin1_ex :
  pascal_case (String "233"%char "tat_" ++ String "223"%char "X") =
    Some (String "201"%char "tat" ++ "Ssx") ∧
  pascal_case (String "181"%char "s") = None.
Proof. split; reflexivity. Qed.

(* ------------------------------------------------------------------ *)
(** Builder lemmas. *)

Lemma dict_get_elem_of {A} (l : list (string * A)) (n : string) :
  n ∈ map fst l → ∃ v, dict_get n l = Some v.
Proof.
  induction l as [|[k v] l IH]; simpl; intros Hn; [set_solver|].
  destruct (String.eqb_spec n k) as [->|Hne]; [eauto|].
  apply IH. set_solver.
Qed.

Lemma ordered_nodes_go_cover (cs : list edge) (seen : list string) (c : edge) (x : string) :
  c ∈ cs → (x = e_source c ∨ (x = e_target c ∧ x ≠ COMPLETE)) →
  x ∈ seen ∨ x ∈ ordered_nodes_go seen cs.
Proof.
  revert seen. induction cs as [|c' cs IH]; intros seen Hc Hx; [set_solver|].
  simpl. apply elem_of_cons in Hc as [->|Hc].
  - repeat case_bool_decide; destruct (String.eqb_spec (e_target c') COMPLETE);
      simpl; set_solver.
  - repeat case_bool_decide; destruct (String.eqb_spec (e_target c') COMPLETE);
      simpl; match goal with |- context [ordered_nodes_go ?s cs] =>
        destruct (IH s Hc Hx) end; set_solver.
Qed.

Lemma is_custom_node_class (custom : custom_classes) (n : string) :
  is_custom_node custom n = match get_custom_node_class custom n with Some _ => true | None => false end.
Proof.
  unfold is_custom_node, get_custom_node_class, pascal_in.
  destruct (pascal_case n); by repeat case_bool_decide.
Qed.

Lemma create_nodes_ok (custom : custom_classes) (cs : list edge) (ns : list string) :
  ∃ nodes, create_nodes custom cs ns = Ok nodes ∧ map fst nodes = ns ∧
    ∀ n k, (n, k) ∈ nodes → is_custom_node custom n = false →
      ∃ nx ep, k = ToolNode nx ep.
Proof.
  induction ns as [|n ns IH]; simpl.
  - exists []. split_and!; [done|done|set_solver].
  - destruct IH as (nodes & Hok & Hfst & Htool).
    destruct (is_custom_node custom n) eqn:Hc.
    + rewrite is_custom_node_class in Hc.
      destruct (get_custom_node_class custom n) as [cls|] eqn:Hcls; [|discriminate]. simpl. rewrite Hok. simpl.
      eexists. split_and!; [done|simpl; by f_equal|].
      intros m k Hm Hmc. apply elem_of_cons in Hm as [Heq|Hm].
      * simplify_eq. rewrite is_custom_node_class, Hcls in Hmc. discriminate.
      * eauto.
    + simpl. rewrite Hok. simpl.
      eexists. split_and!; [done|simpl; by f_equal|].
      intros m k Hm Hmc. apply elem_of_cons in Hm as [Heq|Hm].
      * simplify_eq. eauto.
      * eauto.
Qed.

Lemma wire_edges_ok (nodes : list (string * built_node)) (cs : list edge) :
  (∀ c, c ∈ cs → e_source c ∈ map fst nodes ∧
                 (e_target c ≠ COMPLETE → e_target c ∈ map fst nodes)) →
  ∃ ws, wire_edges nodes cs = Ok ws.
Proof.
  induction cs as [|c cs IH]; simpl; intros Hcs; [eauto|].
  destruct (Hcs c (list_elem_of_here _ _)) as [Hs Ht].
  destruct (dict_get_elem_of nodes _ Hs) as [vs Hvs].
  unfold lookup_node. rewrite Hvs. simpl.
  destruct IH as [ws Hws]; [intros c' Hc'; apply Hcs; set_solver|].
  destruct (String.eqb_spec (e_target c) COMPLETE) as [_|Hne]; [eauto|].
  destruct (dict_get_elem_of nodes _ (Ht Hne)) as [vt Hvt].
  rewrite Hvt. simpl. rewrite Hws. simpl. eauto.
Qed.

Lemma build_workflow_total (custom : custom_classes) (cs : list edge) :
  cs ≠ [] →
  ∃ fl, build_workflow custom cs = Ok fl ∧
    (∀ c, head cs = Some c → f_start fl = e_source c) ∧
    (∀ n k, (n, k) ∈ f_nodes fl → is_custom_node custom n = false →
       ∃ nx ep, k = ToolNode nx ep).
Proof.
  intros Hne. destruct cs as [|c0 cs0]; [done|]. set (cs := c0 :: cs0).
  assert (build_workflow custom cs =
          (nodes <- create_nodes custom cs (get_ordered_nodes cs) ;;
           wires <- wire_edges nodes cs ;;
           _ <- lookup_node nodes (e_source c0) ;;
           Ok (mk_flow nodes (e_source c0) wires))) as -> by reflexivity.
  destruct (create_nodes_ok custom cs (get_ordered_nodes cs)) as (nodes & Hok & Hfst & Htool).
  rewrite Hok. cbn [bind].
  destruct (wire_edges_ok nodes cs) as [ws Hws].
  { intros c Hc. rewrite Hfst. unfold get_ordered_nodes. split.
    - destruct (ordered_nodes_go_cover cs [] c (e_source c) Hc) as [H|H]; [by left|set_solver|done].
    - intros Ht. destruct (ordered_nodes_go_cover cs [] c (e_target c) Hc) as [H|H];
        [by right|set_solver|done]. }
  rewrite Hws. cbn [bind].
  assert (e_source c0 ∈ map fst nodes) as Hs.
  { rewrite Hfst. unfold get_ordered_nodes.
    destruct (ordered_nodes_go_cover cs [] c0 (e_source c0)) as [H|H];
      [subst; set_solver|by left|set_solver|done]. }
  destruct (dict_get_elem_of nodes _ Hs) as [v Hv].
  unfold lookup_node at 1. rewrite Hv. cbn [bind].
  eexists. split_and!; [done| |].
  - intros c Hc. subst. simpl in Hc. by simplify_eq.
  - exact Htool.
Qed.

(** C7 (counterexample): for the edges [b >> c; a >> b], node [a] is the
    only node that is a source and never a target, but [get_start_node]
    returns [b], the first edge's source. *)
Lemma get_start_node_not_unique_source :
  spec_start_candidates [mk_edge "b" None "c" None; mk_edge "a" None "b" None] = ["a"] ∧
  get_start_node [mk_edge "b" None "c" None; mk_edge "a" None "b" None] = Ok "b".
Proof. split; reflexivity. Qed.

(** C7 (amended): [get_start_node] returns the source of the first edge of
    every non-empty edge list, whether or not that node is also a target,
    and raises [ValueError] on the empty list; for the edges
    [(A,∅,B), (B,∅,C)] the start node is [A]. *)
Theorem get_start_node_first_source :
  (∀ (c : edge) (cs : list edge), get_start_node (c :: cs) = Ok (e_source c)) ∧
  get_start_node [] = Raise (ValueError "No workflow connections found") ∧
  get_start_node [mk_edge "A" None "B" None; mk_edge "B" None "C" None] = Ok "A".
Proof. split_and!; reflexivity. Qed.

(** C8 (counterexample): a workflow naming a node that is no custom class
    (and that the builder never checks against the server's tools) builds
    without error as a tool node; a cyclic edge list with no node that is a
    source but never a target builds too, starting at the first source. *)
Lemma build_workflow_no_fail_fast :
  build_workflow [] [mk_edge "no_such_tool" None COMPLETE None] =
    Ok (mk_flow [("no_such_tool", ToolNode COMPLETE None)] "no_such_tool" []) ∧
  spec_start_candidates [mk_edge "a" None "b" None; mk_edge "b" None "a" None] = [] ∧
  build_workflow [] [mk_edge "a" None "b" None; mk_edge "b" None "a" None] =
    Ok (mk_flow [("a", ToolNode "b" None); ("b", ToolNode COMPLETE None)] "a"
                [("a", None, "b"); ("b", None, "a")]).
Proof. split_and!; reflexivity. Qed.

(** C8 (amended): building never rejects a node name: for every set of
    custom classes and every non-empty edge list, [_build_workflow]
    succeeds, starts at the first edge's source, and builds every name that
    is not a custom class as a tool node without consulting the server;
    it fails (with [ValueError]) only for an empty edge list. *)
Theorem build_workflow_never_rejects (custom : custom_classes) (cs : list edge) :
  cs ≠ [] →
  (∃ fl, build_workflow custom cs = Ok fl ∧
    (∀ c, head cs = Some c → f_start fl = e_source c) ∧
    (∀ n k, (n, k) ∈ f_nodes fl → is_custom_node custom n = false →
       ∃ nx ep, k = ToolNode nx ep)) ∧
  build_workflow custom [] = Raise (ValueError "No valid workflow connections found").
Proof. intros Hne. split; [by apply build_workflow_total|reflexivity]. Qed.

Lemma build_workflow_never_rejects_witness :
  [mk_edge "no_such_tool" None COMPLETE None] ≠ [] ∧
  ((∃ fl, build_workflow ["CheckCache"] [mk_edge "no_such_tool" None COMPLETE None] = Ok fl ∧
    (∀ c, head [mk_edge "no_such_tool" None COMPLETE None] = Some c → f_start fl = e_source c) ∧
    (∀ n k, (n, k) ∈ f_nodes fl → is_custom_node ["CheckCache"] n = false →
       ∃ nx ep, k = ToolNode nx ep)) ∧
   build_workflow ["CheckCache"] [] = Raise (ValueError "No valid workflow connections found")).
Proof.
  assert (H : [mk_edge "no_such_tool" None COMPLETE None] ≠ []) by discriminate.
  split; [exact H|]. apply (build_workflow_never_rejects ["CheckCache"] _ H).
Defined.

(* ------------------------------------------------------------------ *)
(** Node lifecycle lemmas. *)

Import Nodes.

Lemma output_key_ne_prev (name : string) : output_key name ≠ PREV_OUTPUT_KEY.
Proof.
  unfold output_key, PREV_OUTPUT_KEY. intros H.
  repeat (destruct name as [|? name]; simpl in H;
          [discriminate|first [discriminate|injection H as _ H]]).
Qed.

Lemma bind_Ok_inv {A B} (r : result A) (k : A → result B) (b : B) :
  bind r k = Ok b → ∃ a, r = Ok a ∧ k a = Ok b.
Proof. destruct r; simpl; [eauto|discriminate]. Qed.

Lemma mcp_map_params_name (E : env) (n : mcp_node) (i : value) :
  m_name (mcp_map_params E n i).1.2 = m_name n.
Proof.
  unfold mcp_map_params. repeat case_match; simplify_eq/=; done.
Qed.

Lemma prep_same_kind (E : env) (nd nd' : node) (s : shared) (p : value) :
  prep E nd s = Ok (p, nd') →
  match nd, nd' with
  | NMCP n, NMCP n' => m_name n' = m_name n
  | NValidation n, NValidation n' => n' = n
  | NRouting n, NRouting n' => n' = n
  | NTransform n, NTransform n' => n' = n
  | _, _ => False
  end.
Proof.
  destruct nd as [n|n|n|n]; simpl; intros H.
  - destruct (mcp_prep E n s) as [[[v n'] w]|e] eqn:Hp; simpl in H; [|done].
    simplify_eq. unfold mcp_prep in Hp.
    apply bind_Ok_inv in Hp as (i & _ & Hp). injection Hp as Hp.
    rewrite <- (mcp_map_params_name E n i), Hp. done.
  - destruct (custom_prep (v_name n) s); simplify_eq/=; done.
  - destruct (custom_prep (r_name n) s); simplify_eq/=; done.
  - destruct (custom_prep (t_name n) s); simplify_eq/=; done.
Qed.

(** Finalize writes the output key, then the cursor; nothing else. *)
Lemma finalize_writes (s : shared) (name : string) (v : value) (k : string) :
  let s' := <[PREV_OUTPUT_KEY := VStr (output_key name)]> (<[output_key name := v]> s) in
  s' !! output_key name = Some v ∧
  s' !! PREV_OUTPUT_KEY = Some (VStr (output_key name)) ∧
  (k ≠ output_key name → k ≠ PREV_OUTPUT_KEY → s' !! k = s !! k).
Proof.
  pose proof (output_key_ne_prev name) as Hne. simpl. split_and!.
  - rewrite lookup_insert_ne by done. by rewrite lookup_insert_eq.
  - by rewrite lookup_insert_eq.
  - intros H1 H2. rewrite !lookup_insert_ne by done. done.
Qed.

Lemma filter_by_intersection (d : list (string * value)) (all : list string) :
  List.filter (fun kv => bool_decide (kv.1 ∈ List.filter (fun k => bool_decide (k ∈ all)) (map fst d))) d =
  List.filter (fun kv => bool_decide (kv.1 ∈ all)) d.
Proof.
  apply filter_ext_in. intros [k v] Hin. simpl. apply bool_decide_ext.
  rewrite !list_elem_of_In, filter_In, bool_decide_eq_true, list_elem_of_In.
  split; [by intros [_ H]|]. intros H. split; [|done].
  apply (in_map fst d (k, v) Hin).
Qed.

Lemma filter_elem_of_nil (l : list string) :
  List.filter (fun k => bool_decide (k ∈ ([] : list string))) l = [].
Proof. induction l as [|x l IH]; [done|]. cbn [List.filter]. rewrite bool_decide_false; [done|set_solver]. Qed.

(** The mapping once the schema's field names [all] and required fields
    [req] are cached in the node. *)
Lemma discovered_mapping_spec (n : mcp_node) (d : list (string * value)) (all req : list string) :
  m_discovered_params n = Some all → m_required_params n = Some req →
  let '(v, _, w) :=
    match m_discovered_params n with
    | Some ((_ :: _) as avail) => let (m, w) := auto_map_params n d avail in (VDict m, n, w)
    | _ => (VDict d, n, [WNoParamInfo])
    end in
  let inter := List.filter (fun k => bool_decide (k ∈ all)) (map fst d) in
  v = VDict (match inter with [] => d | _ => List.filter (fun kv => bool_decide (kv.1 ∈ all)) d end) ∧
  (inter = [] → w ≠ []) ∧
  (inter ≠ [] → (∃ r, r ∈ req ∧ r ∉ map fst d) → ∃ miss, WMissingRequired miss ∈ w).
Proof.
  intros Hd Hr. rewrite Hd. destruct all as [|a all'].
  - simpl. rewrite filter_elem_of_nil. split_and!; [done|done|]. by intros [].
  - cbn -[auto_map_params List.filter]. unfold auto_map_params. rewrite Hr.
    destruct (List.filter (fun k => bool_decide (k ∈ a :: all')) (map fst d)) as [|k ks] eqn:Hinter.
    + split_and!; [done|done|]. by intros [].
    + split_and!; [|done|].
      { cbn -[List.filter]. rewrite <- Hinter. apply (f_equal VDict), filter_by_intersection. }
      intros _ (r & Hr_in & Hr_miss).
      destruct req as [|r0 req']; [set_solver|].
      destruct (List.filter (fun k => bool_decide (k ∉ map fst d)) (r0 :: req')) as [|m ms] eqn:Hmiss.
      * exfalso. assert (In r (List.filter (fun k => bool_decide (k ∉ map fst d)) (r0 :: req'))) as Hf.
        { apply filter_In. split; [by apply list_elem_of_In|]. by apply bool_decide_eq_true. }
        rewrite Hmiss in Hf. done.
      * eexists. by left.
Qed.

(** C2: for a tool node without explicit params whose schema discovery
    succeeds (now, or earlier and cached), and a dict input (the upstream
    output after the normalisation of §4.4), the forwarded input is the
    upstream dict restricted to the schema's field names; when no key is a
    field name the whole dict is forwarded and a warning is printed; a
    required field missing from the input only adds a warning. For the
    upstream output [{"url":"x","title":"y","content":"z"}] and a schema
    with fields [content] (required) and [max_links], [prep_async]
    forwards exactly [{"content":"z"}]. *)
Theorem auto_map_params_restricts :
  (∀ (E : env) (n : mcp_node) (d : list (string * value)) (all req : list string),
     list_truthy (m_explicit_params n) = false →
     (m_discovered_params n = None ∧ m_entity_type n = "tool" ∧
        fastmcp_available E = true ∧ tool_schema (mcp E) (m_entity_name n) = Some (all, req)) ∨
     (m_discovered_params n = Some all ∧ m_required_params n = Some req) →
     let '(v, _, w) := mcp_map_params E n (VDict d) in
     let inter := List.filter (fun k => bool_decide (k ∈ all)) (map fst d) in
     v = VDict (match inter with [] => d | _ => List.filter (fun kv => bool_decide (kv.1 ∈ all)) d end) ∧
     (inter = [] → w ≠ []) ∧
     (inter ≠ [] → (∃ r, r ∈ req ∧ r ∉ map fst d) → ∃ miss, WMissingRequired miss ∈ w)) ∧
  (let E := mk_env true (mk_client (fun _ _ => Ok VNone) (fun _ _ => Ok VNone) (fun _ => Ok VNone)
              (fun t => if String.eqb t "extract_links"
                        then Some (["content"; "max_links"], ["content"]) else None)) in
   let n := mk_mcp "extract_links" "tool" "extract_links" None None None None in
   let s : shared := <[PREV_OUTPUT_KEY := VStr "scrape_url_output"]>
          (<["scrape_url_output" := VDict [("url", VStr "x"); ("title", VStr "y"); ("content", VStr "z")]]> ∅) in
   match mcp_prep E n s with
   | Ok (v, _, _) => v = VDict [("content", VStr "z")]
   | Raise _ => False
   end).
Proof.
  split; [|vm_compute; reflexivity].
  intros E n d all req Hex Hdisc. unfold mcp_map_params. rewrite Hex.
  destruct Hdisc as [(Hnone & Htool & Hfm & Hsch)|(Hsome & Hreq)].
  - rewrite Hnone, Htool. simpl. unfold discover_tool_params. rewrite Hfm, Hsch. simpl.
    apply (discovered_mapping_spec
             {| m_name := m_name n; m_entity_type := "tool";
                m_entity_name := m_entity_name n; m_explicit_params := m_explicit_params n;
                m_discovered_params := Some all; m_required_params := Some req;
                m_optional_params := Some (List.filter (fun p => bool_decide (p ∉ req)) all) |});
      reflexivity.
  - pose proof (discovered_mapping_spec n d all req Hsome Hreq) as H.
    rewrite Hsome in H. rewrite Hsome. cbv beta iota. rewrite Hsome. exact H.
Qed.

(* ------------------------------------------------------------------ *)
(** The node lifecycle and the shared state (C6). *)

(** C6, refuted: a [ValidationNode] whose [validate] returns ["hit"]
    leaves under ["check_output"] the record [{input, routing_key}], not
    its execute result ["hit"]. *)
Lemma run_node_validation_stores_record :
  let E := mk_env false (mk_client (fun _ _ => Ok VNone) (fun _ _ => Ok VNone)
                           (fun _ => Ok VNone) (fun _ => None)) in
  let vn := mk_validation "check" None "default" (fun _ => Ok (VStr "hit")) in
  let s : shared := <["check_input" := VDict []]> ∅ in
  match run_node E (NValidation vn) s with
  | Ok (_, _, r, s', _) =>
      r = VStr "hit" ∧
      s' !! "check_output" = Some (VDict [("input", VDict []); ("routing_key", VStr "hit")]) ∧
      s' !! "check_output" ≠ Some r
  | Raise _ => False
  end.
Proof. vm_compute. split_and!; [reflexivity|reflexivity|]. intros H. inversion H. Qed.

(** C6 (amended): for every node kind, a run of prepare, execute and
    finalize that does not raise returns the shared state it was given
    with exactly two writes, done by finalize: ["{name}_output"] and
    ["_prev_output_key"] := ["{name}_output"]; every other key keeps its
    value. The value stored under ["{name}_output"] is the execute result
    for tool and transform nodes, and the record
    [{"input": prep result, "routing_key": execute result}] for validation
    and routing nodes. *)
Theorem run_node_finalize_writes (E : env) (nd nd' : node) (s s' : shared) (p r rk : value) :
  run_node E nd s = Ok (nd', p, r, s', rk) →
  let name := node_name nd in
  let stored := match nd with
                | NValidation _ | NRouting _ => VDict [("input", p); ("routing_key", r)]
                | _ => r
                end in
  node_name nd' = name ∧
  s' = <[PREV_OUTPUT_KEY := VStr (output_key name)]> (<[output_key name := stored]> s) ∧
  s' !! output_key name = Some stored ∧
  s' !! PREV_OUTPUT_KEY = Some (VStr (output_key name)) ∧
  (∀ k, k ≠ output_key name → k ≠ PREV_OUTPUT_KEY → s' !! k = s !! k).
Proof.
  unfold run_node. intros H.
  apply bind_Ok_inv in H as ([p0 nd0] & Hp & H). cbv beta iota in H.
  pose proof (prep_same_kind _ _ _ _ _ Hp) as Hk.
  apply bind_Ok_inv in H as (r0 & _ & H).
  destruct (post nd0 s p0 r0) as [s0 rk0] eqn:Hpost.
  injection H as <- <- <- <- <-. 
  set (name := node_name nd).
  set (stored := match nd with
                 | NValidation _ | NRouting _ => VDict [("input", p0); ("routing_key", r0)]
                 | _ => r0
                 end).
  assert (node_name nd0 = name ∧
          s0 = <[PREV_OUTPUT_KEY := VStr (output_key name)]> (<[output_key name := stored]> s))
    as [Hn ->].
  { subst name stored.
    destruct nd as [n|n|n|n], nd0 as [n0|n0|n0|n0]; simpl in Hk; try contradiction;
      simpl in Hpost; injection Hpost as <- <-; simpl; [rewrite Hk| subst n0..]; done. }
  split; [done|]. split; [done|].
  pose proof (finalize_writes s name stored "") as (H1 & H2 & _).
  split_and!; [done|done|]. intros k.
  by pose proof (finalize_writes s name stored k) as (_ & _ & H3).
Qed.

Lemma run_node_finalize_writes_witness :
  let E := mk_env false (mk_client (fun _ _ => Ok VNone) (fun _ _ => Ok VNone)
                           (fun _ => Ok VNone) (fun _ => None)) in
  let tn := mk_transform "shape" "complete" (fun v => Ok (VList [v])) in
  let s : shared := <["shape_input" := VInt 7]> ∅ in
  run_node E (NTransform tn) s =
    Ok (NTransform tn, VInt 7, VList [VInt 7],
        <[PREV_OUTPUT_KEY := VStr "shape_output"]> (<["shape_output" := VList [VInt 7]]> s),
        VStr "complete") ∧
  (<[PREV_OUTPUT_KEY := VStr "shape_output"]> (<["shape_output" := VList [VInt 7]]> s) : shared)
    !! "shape_output" = Some (VList [VInt 7]).
Proof.
  intros E tn s.
  assert (Hrun : run_node E (NTransform tn) s =
    Ok (NTransform tn, VInt 7, VList [VInt 7],
        <[PREV_OUTPUT_KEY := VStr "shape_output"]> (<["shape_output" := VList [VInt 7]]> s),
        VStr "complete")) by reflexivity.
  split; [exact Hrun|].
  exact (proj1 (proj2 (proj2 (run_node_finalize_writes E _ _ _ _ _ _ _ Hrun)))).
Defined.

(* ------------------------------------------------------------------ *)
(** The validation node's routing key (C10). *)

(** C10, refuted: an exception that does not derive from [Exception]
    (here [KeyboardInterrupt]) escapes [validate]'s handler; and with
    [allowed_routes = []] (configured, but falsy) a route ["foo"] outside
    it is returned unchanged. *)
Lemma validation_exec_escapes :
  let KI := mk_exn "KeyboardInterrupt" ["KeyboardInterrupt"; "BaseException"] "" in
  validation_exec (mk_validation "check" (Some ["hit"; "miss"]) "default" (fun _ => Raise KI))
                  (VDict []) = Raise KI ∧
  validation_exec (mk_validation "check" (Some []) "default" (fun _ => Ok (VStr "foo")))
                  (VDict []) = Ok (VStr "foo") ∧
  ¬ (VStr "foo" ∈ map VStr [] ∨ VStr "foo" = VStr "default" ∨ VStr "foo" = VStr "error").
Proof.
  cbv zeta. split_and!; [reflexivity|reflexivity|].
  intros [H|[H|H]]; [set_solver|discriminate|discriminate].
Qed.

(** C10 (amended): when [validate] raises an exception deriving from
    [Exception], the execute phase returns the routing key ["error"]; any
    other exception propagates; and when [allowed_routes] is a non-empty
    list, every routing key the execute phase returns is a route of it, the
    default route, or ["error"]: a key [validate] returns is kept when it
    is one of [allowed_routes] and replaced by [default_route] otherwise;
    when [allowed_routes] is [None] or empty, it is kept as it is. *)
Theorem validation_exec_routes (n : validation_node) (input : value) :
  (∀ e, v_validate n input = Raise e → Exception_ e = true →
        validation_exec n input = Ok (VStr "error")) ∧
  (∀ e, v_validate n input = Raise e → Exception_ e = false →
        validation_exec n input = Raise e) ∧
  (∀ routes rk, v_allowed_routes n = Some routes → routes ≠ [] →
        validation_exec n input = Ok rk →
        rk ∈ map VStr routes ∨ rk = VStr (v_default_route n) ∨ rk = VStr "error") ∧
  (∀ routes rk, v_allowed_routes n = Some routes → routes ≠ [] → v_validate n input = Ok rk →
        (rk ∈ map VStr routes → validation_exec n input = Ok rk) ∧
        (rk ∉ map VStr routes → validation_exec n input = Ok (VStr (v_default_route n)))) ∧
  (∀ rk, (v_allowed_routes n = None ∨ v_allowed_routes n = Some []) → v_validate n input = Ok rk →
        validation_exec n input = Ok rk).
Proof.
  assert (Hrt : ∀ rk routes, route_in rk routes = true ↔ rk ∈ map VStr routes).
  { intros rk routes. unfold route_in. rewrite list_elem_of_In, in_map_iff. split.
    - destruct rk; try discriminate. intros Hb. apply bool_decide_eq_true in Hb.
      exists s. split; [reflexivity|]. by apply list_elem_of_In.
    - intros (x & <- & Hx). apply bool_decide_eq_true. by apply list_elem_of_In. }
  unfold validation_exec. split_and!.
  - intros e -> ->. done.
  - intros e -> ->. done.
  - intros routes rk Hr Hne. rewrite Hr.
    destruct routes as [|r0 routes]; [done|]. simpl.
    destruct (v_validate n input) as [v|e].
    + destruct (route_in v (r0 :: routes)) eqn:Hin; simpl; intros H; injection H as <-.
      * left. destruct v; try discriminate. unfold route_in in Hin.
        apply bool_decide_eq_true in Hin.
        apply list_elem_of_In, (in_map VStr (r0 :: routes)). by apply list_elem_of_In.
      * by right; left.
    + destruct (Exception_ e); [|done]. intros H; injection H as <-. by right; right.
  - intros routes rk Hr Hne Hv. rewrite Hr, Hv.
    destruct routes as [|r0 routes]; [done|]. cbn [list_truthy default andb id]. split.
    + intros H. apply Hrt in H. by rewrite H.
    + intros H. destruct (route_in rk (r0 :: routes)) eqn:E; [apply Hrt in E; done|done].
  - intros rk [Hr|Hr] Hv; rewrite Hr, Hv; reflexivity.
Qed.

Lemma validation_exec_routes_witness :
  validation_exec (mk_validation "check" (Some ["hit"; "miss"]) "default" (fun _ => Ok (VStr "foo")))
                  (VDict []) = Ok (VStr "default") ∧
  (VStr "default" ∈ map VStr ["hit"; "miss"] ∨ VStr "default" = VStr "default" ∨
   VStr "default" = VStr "error").
Proof.
  pose proof (validation_exec_routes
    (mk_validation "check" (Some ["hit"; "miss"]) "default" (fun _ => Ok (VStr "foo"))) (VDict []))
    as (_ & _ & H3 & H4 & _).
  assert (He : validation_exec (mk_validation "check" (Some ["hit"; "miss"]) "default"
                 (fun _ => Ok (VStr "foo"))) (VDict []) = Ok (VStr "default")).
  { apply (proj2 (H4 ["hit"; "miss"] (VStr "foo") eq_refl ltac:(discriminate) eq_refl)).
    cbv. intros H. inversion H as [|? ? ? H' Heq]; subst.
    inversion H' as [|? ? ? H'' Heq']; subst. inversion H''. }
  split; [exact He|].
  exact (H3 ["hit"; "miss"] (VStr "default") eq_refl ltac:(discriminate) He).
Defined.

(* ------------------------------------------------------------------ *)
(** The mock key: [json.dumps(..., sort_keys=True)] (C5). *)

Section mock_key.
Import Json JsonEq JsonDecode.

Lemma str_app_cons c (s t : string) : String c s ++ t = String c (s ++ t).
Proof. reflexivity. Qed.

Lemma str_app_assoc (s1 s2 s3 : string) : (s1 ++ s2) ++ s3 = s1 ++ (s2 ++ s3).
Proof. induction s1 as [|c s1 IH]; [done|]. rewrite !str_app_cons. by f_equal. Qed.

Lemma str_app_nil (s : string) : s ++ EmptyString = s.
Proof. induction s as [|c s IH]; [done|]. rewrite str_app_cons. by f_equal. Qed.

Section merge_sort_map.
Context {A B : Type} (R : relation A) (R' : relation B)
  `{!RelDecision R} `{!RelDecision R'} (f : A → B).
Hypothesis Hf : ∀ x y, R' (f x) (f y) ↔ R x y.

Lemma list_merge_cons {C} (Q : relation C) `{!RelDecision Q} x l1 y l2 :
  list_merge Q (x :: l1) (y :: l2) =
  if decide (Q x y) then x :: list_merge Q l1 (y :: l2) else y :: list_merge Q (x :: l1) l2.
Proof. reflexivity. Qed.

Lemma list_merge_map l1 l2 :
  map f (list_merge R l1 l2) = list_merge R' (map f l1) (map f l2).
Proof.
  revert l2. induction l1 as [|x l1 IH1]; intros l2; [by destruct l2|].
  induction l2 as [|y l2 IH2]; [done|]. cbn [map]. rewrite !list_merge_cons.
  destruct (decide (R x y)) as [H|H]; destruct (decide (R' (f x) (f y))) as [H'|H'];
    try (exfalso; naive_solver).
  - cbn [map]. rewrite IH1. done.
  - cbn [map]. rewrite IH2. done.
Qed.

Lemma merge_list_to_stack_map st l :
  map (option_map (map f)) (merge_list_to_stack R st l) =
  merge_list_to_stack R' (map (option_map (map f)) st) (map f l).
Proof.
  revert l. induction st as [|[l'|] st IH]; intros l; simpl; [done| |done].
  rewrite IH, list_merge_map. done.
Qed.

Lemma merge_stack_map st :
  map f (merge_stack R st) = merge_stack R' (map (option_map (map f)) st).
Proof.
  induction st as [|[l|] st IH]; simpl; [done| |done].
  by rewrite list_merge_map, IH.
Qed.

Lemma merge_sort_map l : map f (merge_sort R l) = merge_sort R' (map f l).
Proof.
  unfold merge_sort. change (@nil (option (list B))) with (map (option_map (map f)) []).
  generalize (@nil (option (list A))). induction l as [|x l IH]; intros st; simpl.
  - apply merge_stack_map.
  - rewrite IH, merge_list_to_stack_map. done.
Qed.

End merge_sort_map.

Lemma merge_sort_key_map {V W} (g : V → W) (L : list (string * V)) :
  merge_sort key_le (map (fun kv => (kv.1, g kv.2)) L) =
  map (fun kv => (kv.1, g kv.2)) (merge_sort key_le L).
Proof. symmetry. apply merge_sort_map. intros x y. done. Qed.

(** Decoding inverts the escaping of a string. *)
Lemma decode_escape_char ea c t :
  decode_str (escape_char ea c ++ t) =
  match decode_str t with Some (x, r) => Some (String c x, r) | None => None end.
Proof. destruct ea, c as [[] [] [] [] [] [] [] []]; reflexivity. Qed.

Lemma decode_escape_string ea s r :
  decode_str (escape_string ea s ++ String QUOTE r) = Some (s, r).
Proof.
  induction s as [|c s IH]; [reflexivity|]. cbn [escape_string].
  rewrite str_app_assoc, decode_escape_char, IH. done.
Qed.

Lemma read_uint_digits u r : nodigit r → read_uint (uint_digits u ++ r) = (u, r).
Proof.
  intros Hr. induction u; cbn [uint_digits]; rewrite ?str_app_cons; simpl;
    try (rewrite IHu; reflexivity).
  destruct r as [|c r]; simpl in *; [done|]. by rewrite Hr.
Qed.

Lemma parse_uint n u r :
  u ≠ Decimal.Nil → nodigit r →
  parse (S n) (uint_digits u ++ r) = Some (VInt (Z.of_N (N.of_uint u)), r).
Proof.
  intros Hu Hr. destruct u as [|u|u|u|u|u|u|u|u|u|u]; [done|..];
    cbn [uint_digits]; rewrite str_app_cons;
    match goal with |- parse _ (String ?c (uint_digits ?u' ++ ?r')) = _ =>
      change (parse (S n) (String c (uint_digits u' ++ r'))) with
        (let '(u0, r0) := read_uint (uint_digits (digit_cons c u') ++ r') in
         Some (VInt (Z.of_N (N.of_uint u0)), r0))
    end; rewrite read_uint_digits by done; reflexivity.
Qed.

Lemma to_uint_pos_nonempty p : N.to_uint (Npos p) ≠ Decimal.Nil.
Proof.
  intros E. pose proof (DecimalN.Unsigned.of_to (Npos p)) as H.
  rewrite E in H. discriminate.
Qed.

Lemma parse_int n z r : nodigit r → parse (S n) (int_repr z ++ r) = Some (VInt z, r).
Proof.
  intros Hr. destruct z as [|p|p].
  - exact (parse_uint n (Decimal.D0 Decimal.Nil) r ltac:(discriminate) Hr).
  - change (int_repr (Zpos p)) with (uint_digits (N.to_uint (Npos p))).
    rewrite parse_uint by auto using to_uint_pos_nonempty.
    by rewrite DecimalN.Unsigned.of_to.
  - change (int_repr (Zneg p)) with (String "-" (uint_digits (N.to_uint (Npos p)))).
    rewrite str_app_cons.
    change (parse (S n) (String "-" (uint_digits (N.to_uint (Npos p)) ++ r))) with
      (let '(u0, r0) := read_uint (uint_digits (N.to_uint (Npos p)) ++ r) in
       Some (VInt (- Z.of_N (N.of_uint u0)), r0)).
    rewrite read_uint_digits by done. by rewrite DecimalN.Unsigned.of_to.
Qed.

Lemma render_head ea sk v :
  serializable v = true →
  ∃ c t, render ea sk v = String c t ∧ Ascii.eqb c "]" = false ∧ Ascii.eqb c "}" = false.
Proof.
  intros Hs. destruct v as [|[]|[|p|p]|s|l|d|f|c]; try discriminate;
    try (eexists _, _; split; [reflexivity|done]).
  cbn [render]. change (int_repr (Zpos p)) with (uint_digits (N.to_uint (Npos p))).
  pose proof (to_uint_pos_nonempty p).
  destruct (N.to_uint (Npos p)); [done|..]; (eexists _, _; split; [reflexivity|done]).
Qed.

Lemma str_app_single c (s : string) : String c EmptyString ++ s = String c s.
Proof. reflexivity. Qed.

Lemma concat_cons (sep x : string) xs :
  String.concat sep (x :: xs) =
  x ++ match xs with [] => EmptyString | _ => sep ++ String.concat sep xs end.
Proof. destruct xs; simpl; [by rewrite str_app_nil|done]. Qed.

Lemma parse_quote n s :
  parse (S n) (String QUOTE s) =
  match decode_str s with Some (t, r) => Some (VStr t, r) | None => None end.
Proof. reflexivity. Qed.

Lemma parse_lbracket n s :
  parse (S n) (String "[" s) =
  match s with
  | String c2 r =>
      if Ascii.eqb c2 "]" then Some (VList [], r)
      else match parse_items n s with Some (l, r') => Some (VList l, r') | None => None end
  | EmptyString => None
  end.
Proof. reflexivity. Qed.

Lemma parse_lbrace n s :
  parse (S n) (String "{" s) =
  match s with
  | String c2 r =>
      if Ascii.eqb c2 "}" then Some (VDict [], r)
      else match parse_entries n s with Some (d, r') => Some (VDict d, r') | None => None end
  | EmptyString => None
  end.
Proof. reflexivity. Qed.

Lemma parse_items_S n s :
  parse_items (S n) s =
  match parse n s with
  | Some (v, String c r) =>
      if Ascii.eqb c "," then
        match parse_items n (drop 1 r) with Some (vs, r') => Some (v :: vs, r') | None => None end
      else if Ascii.eqb c "]" then Some ([v], r) else None
  | _ => None
  end.
Proof. reflexivity. Qed.

Lemma parse_entries_S n c s :
  parse_entries (S n) (String c s) =
  match decode_str s with
  | Some (k, r1) =>
    match parse n (drop 2 r1) with
    | Some (v, String c r) =>
        if Ascii.eqb c "," then
          match parse_entries n (drop 1 r) with Some (es, r') => Some ((k, v) :: es, r') | None => None end
        else if Ascii.eqb c "}" then Some ([(k, v)], r) else None
    | _ => None
    end
  | None => None
  end.
Proof. reflexivity. Qed.

Lemma fold_size_perm {C} (h : C → nat) (L1 L2 : list C) :
  L1 ≡ₚ L2 →
  fold_right (fun x acc => S (h x + acc)) 0%nat L1 = fold_right (fun x acc => S (h x + acc)) 0%nat L2.
Proof. induction 1; simpl; lia. Qed.

Lemma str_app_empty (s : string) : EmptyString ++ s = s.
Proof. reflexivity. Qed.

Lemma map_cons' {A B} (f : A → B) x l : map f (x :: l) = f x :: map f l.
Proof. reflexivity. Qed.

Lemma concat_map_cons2 {A} (f : A → string) (sep : string) x y ys :
  String.concat sep (map f (x :: y :: ys)) = f x ++ (sep ++ String.concat sep (map f (y :: ys))).
Proof. reflexivity. Qed.

Lemma concat_map2_cons2 {A B} (f : B → string) (g : A → B) (sep : string) x y ys :
  String.concat sep (map f (map g (x :: y :: ys))) =
  f (g x) ++ (sep ++ String.concat sep (map f (map g (y :: ys)))).
Proof. reflexivity. Qed.

Lemma parse_items_render ea r (l : list value) :
  l ≠ [] →
  Forall (fun x => ∀ n r, (vsize x ≤ n)%nat → nodigit r →
                   parse n (render ea true x ++ r) = Some (canon x, r)) l →
  ∀ m, (fold_right (fun x acc => S (vsize x + acc)) 0%nat l ≤ m)%nat →
  parse_items m (String.concat ", " (map (render ea true) l) ++ String "]" r) =
  Some (map canon l, r).
Proof.
  induction l as [|x xs IH]; intros Hne Hall m Hm; [done|].
  apply Forall_cons in Hall as [Hx Hxs].
  destruct m as [|m]; [simpl in Hm; lia|].
  rewrite parse_items_S. destruct xs as [|y ys].
  - change (String.concat ", " (map (render ea true) [x])) with (render ea true x).
    rewrite Hx; [reflexivity|simpl in Hm; lia|done].
  - rewrite concat_map_cons2, str_app_assoc, Hx; [|simpl in Hm; lia|done].
    specialize (IH ltac:(done) Hxs m ltac:(simpl in *; lia)).
    rewrite !str_app_cons, str_app_empty.
    remember (String.concat ", " (map (render ea true) (y :: ys)) ++ String "]" r) as REST eqn:HR.
    simpl. rewrite IH. reflexivity.
Qed.

Lemma parse_entries_render ea r (L : list (string * value)) :
  L ≠ [] →
  Forall (fun kv => ∀ n r, (vsize kv.2 ≤ n)%nat → nodigit r →
                    parse n (render ea true kv.2 ++ r) = Some (canon kv.2, r)) L →
  ∀ m, (fold_right (fun kv acc => S (vsize kv.2 + acc)) 0%nat L ≤ m)%nat →
  parse_entries m
    (String.concat ", " (map (fun ks => encode_str ea ks.1 ++ ": " ++ ks.2)
                            (map (fun kv => (kv.1, render ea true kv.2)) L)) ++ String "}" r) =
  Some (map (fun kv => (kv.1, canon kv.2)) L, r).
Proof.
  induction L as [|[k x] xs IH]; intros Hne Hall m Hm; [done|].
  apply Forall_cons in Hall as [Hx Hxs]. simpl in Hx.
  destruct m as [|m]; [simpl in Hm; lia|].
  destruct xs as [|y ys].
  - change (String.concat ", " (map (fun ks => encode_str ea ks.1 ++ ": " ++ ks.2)
              (map (fun kv => (kv.1, render ea true kv.2)) [(k, x)])))
      with (encode_str ea k ++ ": " ++ render ea true x).
    unfold encode_str.
    rewrite !str_app_assoc, !str_app_cons, !str_app_assoc, str_app_single.
    rewrite parse_entries_S, decode_escape_string. rewrite ?str_app_cons, ?str_app_empty.
    cbn [drop]. rewrite Hx; [reflexivity|simpl in Hm; lia|done].
  - rewrite concat_map2_cons2. cbn [fst snd]. unfold encode_str at 1.
    rewrite !str_app_assoc, !str_app_cons, !str_app_assoc, str_app_single.
    rewrite parse_entries_S, decode_escape_string. rewrite ?str_app_cons, ?str_app_empty.
    cbn [drop]. rewrite Hx; [|simpl in Hm; lia|done].
    specialize (IH ltac:(done) Hxs m ltac:(simpl in *; lia)).
    rewrite ?str_app_cons, ?str_app_empty.
    remember (String.concat ", "
       (map (fun ks => encode_str ea ks.1 ++ ": " ++ ks.2)
            (map (fun kv => (kv.1, render ea true kv.2)) (y :: ys))) ++ String "}" r) as REST eqn:HR.
    simpl. rewrite IH. reflexivity.
Qed.

Lemma forallb_Forall {C} (h : C → bool) (l : list C) :
  forallb h l = true → Forall (fun x => h x = true) l.
Proof.
  induction l as [|x l IH]; simpl; intros H; [constructor|].
  apply andb_prop in H as [H1 H2]. constructor; auto.
Qed.

Lemma Forall_mp {C} (P Q : C → Prop) (l : list C) :
  Forall (fun x => P x → Q x) l → Forall P l → Forall Q l.
Proof. induction 1; inversion 1; constructor; auto. Qed.

Lemma concat_map2_cons {A B} (f : B → string) (g : A → B) (sep : string) x xs :
  String.concat sep (map f (map g (x :: xs))) =
  f (g x) ++ match map f (map g xs) with [] => EmptyString | _ => sep ++ String.concat sep (map f (map g xs)) end.
Proof. apply concat_cons. Qed.

Lemma parse_lbracket_ne n c t :
  Ascii.eqb c "]" = false →
  parse (S n) (String "[" (String c t)) =
  match parse_items n (String c t) with Some (l, r') => Some (VList l, r') | None => None end.
Proof. intros H. rewrite parse_lbracket. cbv beta iota. by rewrite H. Qed.

Lemma parse_lbrace_ne n c t :
  Ascii.eqb c "}" = false →
  parse (S n) (String "{" (String c t)) =
  match parse_entries n (String c t) with Some (d, r') => Some (VDict d, r') | None => None end.
Proof. intros H. rewrite parse_lbrace. cbv beta iota. by rewrite H. Qed.

Lemma items_head ea (l : list value) r :
  l ≠ [] → Forall (fun x => serializable x = true) l →
  ∃ c t, String.concat ", " (map (render ea true) l) ++ String "]" r = String c t ∧
         Ascii.eqb c "]" = false.
Proof.
  intros Hne Hs. destruct l as [|x xs]; [done|].
  apply Forall_cons in Hs as [Hx _].
  destruct (render_head ea true x Hx) as (c & t & Ht & Hc & _).
  rewrite map_cons', concat_cons, Ht, !str_app_cons.
  eexists _, _. split; [reflexivity|exact Hc].
Qed.

Lemma entries_head ea (L : list (string * value)) r :
  L ≠ [] →
  ∃ t, String.concat ", " (map (fun ks => encode_str ea ks.1 ++ ": " ++ ks.2)
                              (map (fun kv => (kv.1, render ea true kv.2)) L)) ++ String "}" r =
       String QUOTE t.
Proof.
  intros Hne. destruct L as [|[k x] L']; [done|].
  rewrite concat_map2_cons. cbv beta. cbn [fst snd]. unfold encode_str.
  rewrite !str_app_assoc, str_app_cons. eexists. reflexivity.
Qed.

(** Parsing the sorted encoding of a value gives back the value with its
    dicts in key order. *)
Lemma parse_render ea v :
  serializable v = true → ∀ n r, (vsize v ≤ n)%nat → nodigit r →
  parse n (render ea true v ++ r) = Some (canon v, r).
Proof.
  induction v as [| b | z | s | l IH | d IH | f _ | c] using value_ind';
    intros Hs n r Hn Hr; destruct n as [|n]; try (cbn [vsize] in Hn; lia);
    try discriminate.
  - reflexivity.
  - destruct b; reflexivity.
  - apply parse_int, Hr.
  - cbn [render]. unfold encode_str.
    rewrite str_app_cons, str_app_assoc, str_app_single, parse_quote, decode_escape_string.
    reflexivity.
  - cbn [serializable] in Hs. apply forallb_Forall in Hs.
    cbn [render]. rewrite !str_app_assoc, !str_app_single.
    destruct (decide (l = [])) as [->|Hne]; [reflexivity|].
    destruct (items_head ea l r Hne Hs) as (c & t & Ht & Hc).
    rewrite Ht, parse_lbracket_ne, <- Ht by exact Hc.
    rewrite (parse_items_render ea r l Hne); [reflexivity| |cbn [vsize] in Hn; lia].
    eapply Forall_mp; [exact IH|exact Hs].
  - cbn [serializable] in Hs. apply forallb_Forall in Hs.
    cbn [render]. rewrite merge_sort_key_map, !str_app_assoc, !str_app_single.
    destruct (decide (d = [])) as [->|Hne]; [reflexivity|].
    pose proof (merge_sort_Permutation key_le d) as Hp.
    assert (merge_sort key_le d ≠ []) as Hne'.
    { intros E. rewrite E in Hp. apply Hne. by apply Permutation_nil_r. }
    destruct (entries_head ea (merge_sort key_le d) r Hne') as (t & Ht).
    rewrite Ht, parse_lbrace_ne, <- Ht by reflexivity.
    rewrite (parse_entries_render ea r (merge_sort key_le d) Hne').
    + cbn [canon]. by rewrite merge_sort_key_map.
    + pose proof (Forall_mp _ _ _ IH Hs) as HQ. rewrite Forall_forall in HQ.
      apply Forall_forall. intros kv Hkv. rewrite Hp in Hkv. by apply HQ.
    + rewrite (fold_size_perm (fun kv => vsize kv.2) _ _ Hp). cbn [vsize] in Hn. lia.
Qed.

(** Equal sorted encodings come from values with equal dict contents. *)
Lemma render_inj ea v w :
  serializable v = true → serializable w = true →
  render ea true v = render ea true w → canon v = canon w.
Proof.
  intros Hv Hw E.
  pose proof (parse_render ea v Hv (vsize v + vsize w) EmptyString ltac:(lia) I) as H1.
  pose proof (parse_render ea w Hw (vsize v + vsize w) EmptyString ltac:(lia) I) as H2.
  rewrite E, H2 in H1. congruence.
Qed.

Lemma elem_of_kmap {V W} (g : V → W) (L : list (string * V)) k w :
  (k, w) ∈ map (fun kv => (kv.1, g kv.2)) L ↔ ∃ v, w = g v ∧ (k, v) ∈ L.
Proof.
  induction L as [|[k' v'] L IH]; cbn [map fst snd].
  - rewrite elem_of_nil. split; [done|]. intros (v & _ & Hv). by apply elem_of_nil in Hv.
  - rewrite elem_of_cons, IH. setoid_rewrite elem_of_cons. naive_solver.
Qed.

(** Rendering with [sort_keys] is rendering the key-ordered value. *)
Lemma render_canon ea v : render ea true v = render ea false (canon v).
Proof.
  induction v as [| b | z | s | l IH | d IH | f _ | c] using value_ind'; try reflexivity.
  - cbn [render canon]. rewrite map_map. f_equal. f_equal. f_equal.
    apply map_ext_in. intros x Hx. rewrite Forall_forall in IH.
    apply IH. by apply list_elem_of_In.
  - cbn [render canon]. rewrite !merge_sort_key_map.
    do 4 f_equal. rewrite map_map. apply map_ext_in. intros [k x] Hx. cbn [fst snd]. f_equal.
    rewrite Forall_forall in IH. apply (IH (k, x)).
    rewrite <- (merge_sort_Permutation key_le d). by apply list_elem_of_In.
Qed.

Lemma forallb_elem {C} (h : C → bool) (l : list C) :
  forallb h l = true ↔ ∀ x, x ∈ l → h x = true.
Proof.
  induction l as [|y l IH]; cbn [forallb].
  - split; [|done]. intros _ x Hx. by apply elem_of_nil in Hx.
  - rewrite andb_true_iff, IH. setoid_rewrite elem_of_cons. naive_solver.
Qed.

Lemma keys_kmap {V W} (g : V → W) (L : list (string * V)) :
  map fst (map (fun kv => (kv.1, g kv.2)) L) = map fst L.
Proof. induction L as [|[k v] L IH]; cbn [map fst]; [done|]. by f_equal. Qed.

Lemma key_in {V} (L : list (string * V)) k v : (k, v) ∈ L → k ∈ map fst L.
Proof.
  induction L as [|[k' v'] L IH]; cbn [map fst]; rewrite ?elem_of_nil, ?elem_of_cons; [done|].
  intros [E|H]; [injection E as -> ->; by left|right; auto].
Qed.

Lemma nodup_keys_nodup {V} (L : list (string * V)) : NoDup (map fst L) → NoDup L.
Proof.
  induction L as [|[k v] L IH]; cbn [map fst]; intros Hnd; [constructor|].
  apply NoDup_cons in Hnd as [Hk Hnd]. apply NoDup_cons. split; [|auto].
  intros Hin. by apply Hk, (key_in L k v).
Qed.

Lemma nodup_keys_unique {V} (L : list (string * V)) k a b :
  NoDup (map fst L) → (k, a) ∈ L → (k, b) ∈ L → a = b.
Proof.
  induction L as [|[k' c] L IH]; cbn [map fst]; intros Hnd Ha Hb;
    [by apply elem_of_nil in Ha|].
  apply NoDup_cons in Hnd as [Hk Hnd]. apply elem_of_cons in Ha, Hb.
  destruct Ha as [Ea|Ha], Hb as [Eb|Hb]; simplify_eq; auto;
    exfalso; apply Hk; eapply key_in; eauto.
Qed.

Lemma dict_get_Some {V} k (L : list (string * V)) v : dict_get k L = Some v → (k, v) ∈ L.
Proof.
  induction L as [|[k' w] L IH]; cbn [dict_get]; [done|]. rewrite elem_of_cons.
  destruct (String.eqb_spec k k') as [->|]; intros H; [injection H as ->; by left|right; auto].
Qed.

Lemma dict_get_elem {V} k (L : list (string * V)) v :
  NoDup (map fst L) → (k, v) ∈ L → dict_get k L = Some v.
Proof.
  induction L as [|[k' w] L IH]; cbn [dict_get map fst]; intros Hnd Hin;
    [by apply elem_of_nil in Hin|].
  apply NoDup_cons in Hnd as [Hk Hnd]. apply elem_of_cons in Hin.
  destruct (String.eqb_spec k k') as [->|Hne]; destruct Hin as [E|Hin]; simplify_eq; auto.
  exfalso. apply Hk. eapply key_in; eauto.
Qed.

Lemma key_le_transitive {A} : Transitive (@key_le A).
Proof. intros x y z H1 H2. unfold key_le in *. by trans y.1. Qed.

Lemma key_le_total {A} : Total (@key_le A).
Proof. intros x y. unfold key_le. apply (total String.le). Qed.

(** Sorting by key a list with distinct keys depends only on its items. *)
Lemma sorted_perm_eq {V} (D1 D2 : list (string * V)) :
  NoDup (map fst D1) → D1 ≡ₚ D2 → merge_sort key_le D1 = merge_sort key_le D2.
Proof.
  intros Hnd HP. apply (StronglySorted_unique_strong key_le).
  - intros [k1 a1] [k2 a2] H1 H2 Hle1 Hle2. unfold key_le in *; cbn [fst] in *.
    assert (k1 = k2) as <- by (by apply (anti_symm String.le)).
    rewrite (merge_sort_Permutation key_le D1) in H1.
    rewrite (merge_sort_Permutation key_le D2), <- HP in H2.
    f_equal. exact (nodup_keys_unique D1 k1 a1 a2 Hnd H1 H2).
  - apply StronglySorted_merge_sort; [apply key_le_transitive|apply key_le_total].
  - apply StronglySorted_merge_sort; [apply key_le_transitive|apply key_le_total].
  - by rewrite !merge_sort_Permutation.
Qed.

Lemma same_json_list_nil_nil : same_json (VList []) (VList []) = true.
Proof. reflexivity. Qed.

Lemma same_json_list_cons x xs y ys :
  same_json (VList (x :: xs)) (VList (y :: ys)) = same_json x y && same_json (VList xs) (VList ys).
Proof. reflexivity. Qed.

Lemma same_json_list_nil_cons y ys : same_json (VList []) (VList (y :: ys)) = false.
Proof. reflexivity. Qed.

Lemma same_json_list_cons_nil x xs : same_json (VList (x :: xs)) (VList []) = false.
Proof. reflexivity. Qed.

Lemma same_json_dict d1 d2 :
  same_json (VDict d1) (VDict d2) =
  Nat.eqb (length d1) (length d2) &&
  forallb (fun kv => match dict_get kv.1 d2 with Some y => same_json kv.2 y | None => false end) d1.
Proof. reflexivity. Qed.

(** On data a Python dict can hold, two values have the same key-ordered
    form exactly when they are the same JSON data. *)
Lemma canon_same_json v :
  ∀ w, wf v = true → wf w = true → (canon v = canon w ↔ same_json v w = true).
Proof.
  induction v as [| b | z | s | l IH | d IH | f _ | c] using value_ind';
    intros w Hv Hw; try discriminate.
  - destruct w; cbn [canon same_json]; split; done.
  - destruct w; cbn [canon same_json]; split; try done.
    + intros E; injection E as ->. apply eqb_reflx.
    + intros E. apply eqb_prop in E. by subst.
  - destruct w; cbn [canon same_json]; split; try done.
    + intros E; injection E as ->. apply Z.eqb_refl.
    + intros E. apply Z.eqb_eq in E. by subst.
  - destruct w; cbn [canon same_json]; split; try done.
    + intros E; injection E as ->. apply String.eqb_refl.
    + intros E. apply String.eqb_eq in E. by subst.
  - destruct w as [| | | |l2| | |]; cbn [canon]; try (split; [done|]; destruct l; done).
    cbn [wf] in Hv, Hw. revert l2 Hw. induction l as [|x xs IHl]; intros l2 Hw.
    + destruct l2; [done|]. rewrite same_json_list_nil_cons. done.
    + apply Forall_cons in IH as [Hx Hxs]. cbn [forallb] in Hv.
      apply andb_prop in Hv as [Hv1 Hv2].
      destruct l2 as [|y ys]; [rewrite same_json_list_cons_nil; done|].
      cbn [forallb] in Hw. apply andb_prop in Hw as [Hw1 Hw2].
      rewrite same_json_list_cons, andb_true_iff, <- (Hx y Hv1 Hw1), <- (IHl Hxs Hv2 ys Hw2).
      cbn [map]. split; [intros E; injection E as E1 E2; by rewrite E1, E2|].
      intros [E1 E2]. injection E2 as E2. by rewrite E1, E2.
  - destruct w as [| | | | |d2| |]; cbn [canon]; try (split; [done|]; destruct d; done).
    rewrite same_json_dict. cbn [wf] in Hv, Hw.
    apply andb_prop in Hv as [Hnd1 Hv]. apply andb_prop in Hw as [Hnd2 Hw].
    apply bool_decide_eq_true in Hnd1, Hnd2.
    rewrite forallb_elem in Hv, Hw. rewrite Forall_forall in IH.
    rewrite andb_true_iff, Nat.eqb_eq, forallb_elem. split.
    + intros E. injection E as E.
      assert (map (fun kv => (kv.1, canon kv.2)) d ≡ₚ map (fun kv => (kv.1, canon kv.2)) d2) as HP.
      { rewrite <- (merge_sort_Permutation key_le (map _ d)), E.
        apply merge_sort_Permutation. }
      split.
      * apply Permutation_length in HP. by rewrite !length_map in HP.
      * intros [k x] Hkx. cbn [fst snd].
        assert ((k, canon x) ∈ map (fun kv => (kv.1, canon kv.2)) d2) as Hk2.
        { rewrite <- HP. apply elem_of_kmap. eauto. }
        apply elem_of_kmap in Hk2 as (y & Ey & Hy).
        rewrite (dict_get_elem k d2 y Hnd2 Hy).
        apply (IH (k, x) Hkx y (Hv _ Hkx) (Hw _ Hy)). done.
    + intros [Hlen Hall]. f_equal. apply sorted_perm_eq; [by rewrite keys_kmap|].
      apply submseteq_length_Permutation; [|by rewrite !length_map, Hlen].
      apply NoDup_submseteq; [apply nodup_keys_nodup; by rewrite keys_kmap|].
      intros [k cx] Hin. apply elem_of_kmap in Hin as (x & -> & Hkx).
      specialize (Hall _ Hkx). cbn [fst snd] in Hall.
      destruct (dict_get k d2) as [y|] eqn:Hg; [|done].
      apply dict_get_Some in Hg. apply elem_of_kmap. exists y. split; [|done].
      apply (IH (k, x) Hkx y (Hv _ Hkx) (Hw _ Hg)). done.
Qed.

Lemma wf_serializable v : wf v = true → serializable v = true.
Proof.
  induction v as [| b | z | s | l IH | d IH | f _ | c] using value_ind'; cbn [wf serializable];
    intros H; try done.
  - rewrite forallb_elem in H |- *. rewrite Forall_forall in IH. intros x Hx. auto.
  - apply andb_prop in H as [_ H].
    rewrite forallb_elem in H |- *. rewrite Forall_forall in IH. intros x Hx. auto.
Qed.

Lemma get_mock_key_ok t a :
  wf a = true → get_mock_key (VStr t) a = Ok (render true true (mock_query t a)).
Proof.
  intros Ha. unfold get_mock_key, dumps.
  replace (serializable _) with true; [reflexivity|].
  symmetry. cbn [serializable forallb snd]. by rewrite (wf_serializable a Ha).
Qed.

Lemma wf_mock_query t a : wf a = true → wf (mock_query t a) = true.
Proof. intros Ha. unfold mock_query. cbn [wf forallb snd]. rewrite Ha. reflexivity. Qed.

Lemma same_json_mock_query t a t' a' :
  same_json (mock_query t a) (mock_query t' a') = String.eqb t t' && same_json a a'.
Proof. simpl. destruct (String.eqb t t'), (same_json a a'); reflexivity. Qed.

(** Two queries have the same mock key exactly when their tools are equal
    and their arguments are the same JSON data. *)
Lemma mock_key_eq_iff t a t' a' :
  wf a = true → wf a' = true →
  render true true (mock_query t a) = render true true (mock_query t' a') ↔
  String.eqb t t' && same_json a a' = true.
Proof.
  intros Ha Ha'. rewrite <- same_json_mock_query.
  rewrite <- (canon_same_json _ _ (wf_mock_query t a Ha) (wf_mock_query t' a' Ha')).
  split.
  - apply render_inj; apply wf_serializable, wf_mock_query; done.
  - intros E. by rewrite !render_canon, E.
Qed.

(** C5, refuted: Python's [==] holds between [{"x": 1}] and
    [{"x": True}], yet their mock keys differ ([1] against [true]): after
    recording under the one, a lookup under the other is a miss. *)
Lemma mock_replay_bool_int :
  py_eq (VDict [("x", VInt 1)]) (VDict [("x", VBool true)]) = true ∧
  get_mock_key (VStr "search") (VDict [("x", VInt 1)]) ≠
    get_mock_key (VStr "search") (VDict [("x", VBool true)]) ∧
  get (record ∅ (VStr "search") (VDict [("x", VInt 1)]) (VStr "ok")).1
      (VStr "search") (VDict [("x", VBool true)]) = Ok None.
Proof. split_and!; [reflexivity|vm_compute; discriminate|vm_compute; reflexivity]. Qed.

(** C5 (amended): after [record(t, a, R)], a lookup of [(t', a')] with
    arguments that are the same JSON data as [a] (whatever the insertion
    order of their keys, with booleans and integers apart) returns [R]
    unchanged, and a lookup with other arguments (or another tool) is
    answered as before the record, so a miss on a registry without it.
    Arguments are JSON data: strings, integers, booleans, null, lists and
    dicts with distinct keys ([wf]). *)
Theorem mock_record_replay (m : mock_registry) (t t' : string) (a a' R : value) :
  wf a = true → wf a' = true →
  get (record m (VStr t) a R).1 (VStr t') a' =
  if String.eqb t t' && same_json a a' then Ok (Some R) else get m (VStr t') a'.
Proof.
  intros Ha Ha'. unfold record. rewrite (get_mock_key_ok t a Ha). cbn [fst].
  unfold get. rewrite (get_mock_key_ok t' a' Ha'). cbn [bind].
  pose proof (mock_key_eq_iff t a t' a' Ha Ha') as Hiff.
  destruct (String.eqb t t' && same_json a a') eqn:Eb.
  - rewrite (proj2 Hiff eq_refl). by rewrite lookup_insert_eq.
  - rewrite lookup_insert_ne; [done|]. intros E. apply Hiff in E. discriminate.
Qed.

(** Recording under [{"b": 2, "a": 1}] replays under [{"a": 1, "b": 2}]. *)
Lemma mock_record_replay_witness :
  wf (VDict [("b", VInt 2); ("a", VInt 1)]) = true ∧
  wf (VDict [("a", VInt 1); ("b", VInt 2)]) = true ∧
  get (record ∅ (VStr "search") (VDict [("b", VInt 2); ("a", VInt 1)]) (VStr "ok")).1
      (VStr "search") (VDict [("a", VInt 1); ("b", VInt 2)]) = Ok (Some (VStr "ok")).
Proof.
  split; [reflexivity|split; [reflexivity|]].
  rewrite (mock_record_replay ∅ "search" "search" (VDict [("b", VInt 2); ("a", VInt 1)])
             (VDict [("a", VInt 1); ("b", VInt 2)]) (VStr "ok") eq_refl eq_refl).
  reflexivity.
Defined.

End mock_key.

(* ------------------------------------------------------------------ *)
(** The validator of [exec_async] (C3). *)

Section validator.
Import Nodes Json Runner RunnerSpec.

Local Ltac vsimpl := cbn [bind String.eqb Ascii.eqb Bool.eqb andb first_failure].

Local Ltac finish_latency Hl :=
  unfold check_latency in Hl; destruct (tc_get _ "expected_metrics" (VDict []));
  try discriminate; injection Hl as <-; vsimpl;
  try destruct (py_number _) as [?mx|]; try destruct (py_lt _ _); reflexivity.

(** C3: when each of the four checks, evaluated on its own, gives a
    verdict, the validator reports the first failing one in the order
    call error, schema, keywords, latency: that check alone gives the
    status and the failure reasons, and the later ones do not count even
    when they fail too. *)
Theorem validation_first_failure (E : runner_env) (tc : list (string * value))
    (resp : value) (latency_ms : Q) (ca cs ck cl : check) :
  check_error resp = Ok ca →
  check_schema E tc resp = Ok cs →
  check_keywords tc resp = Ok ck →
  check_latency tc latency_ms = Ok cl →
  validation E tc resp latency_ms = Ok (first_failure [ca; cs; ck; cl]).
Proof.
  intros Ha Hs Hk Hl. unfold check_error in Ha. unfold validation.
  destruct (py_contains "error" resp) as [b|e]; [|discriminate].
  cbn [bind String.eqb Ascii.eqb Bool.eqb andb first_failure] in Ha |- *. injection Ha as <-.
  destruct b; vsimpl.
  - finish_latency Hl.
  - unfold check_schema in Hs.
    destruct (truthy (tc_get tc "expected_schema" VNone)) eqn:Hsn.
    + destruct (schema_lookup E _) as [model|e]; [|discriminate]. cbn [bind String.eqb Ascii.eqb Bool.eqb andb first_failure] in Hs |- *.
      destruct model as [validate|].
      * destruct resp; try discriminate. destruct (validate _) as [u|e].
        -- injection Hs as <-. vsimpl.
           unfold check_keywords in Hk.
           destruct (truthy (tc_get tc "expected_keywords" (VList []))) eqn:Hkw.
           ++ destruct (dumps false false _) as [jam|e]; [|discriminate]. cbn [bind String.eqb Ascii.eqb Bool.eqb andb first_failure] in Hk |- *.
              destruct (py_iter _) as [ks|e]; [|discriminate]. cbn [bind String.eqb Ascii.eqb Bool.eqb andb first_failure] in Hk |- *.
              destruct (missing_keywords _ ks) as [missing|e]; [|discriminate]. cbn [bind String.eqb Ascii.eqb Bool.eqb andb first_failure] in Hk |- *.
              injection Hk as <-. destruct missing as [|k0 ks0].
              ** finish_latency Hl.
              ** finish_latency Hl.
           ++ injection Hk as <-. vsimpl.
              finish_latency Hl.
        -- destruct (isinstance e "ValidationError"); [|discriminate].
           injection Hs as <-. vsimpl.
           finish_latency Hl.
      * injection Hs as <-. vsimpl.
        finish_latency Hl.
    + injection Hs as <-. vsimpl.
      unfold check_keywords in Hk.
      destruct (truthy (tc_get tc "expected_keywords" (VList []))) eqn:Hkw.
      * destruct (dumps false false _) as [jam|e]; [|discriminate]. cbn [bind String.eqb Ascii.eqb Bool.eqb andb first_failure] in Hk |- *.
        destruct (py_iter _) as [ks|e]; [|discriminate]. cbn [bind String.eqb Ascii.eqb Bool.eqb andb first_failure] in Hk |- *.
        destruct (missing_keywords _ ks) as [missing|e]; [|discriminate]. cbn [bind String.eqb Ascii.eqb Bool.eqb andb first_failure] in Hk |- *.
        injection Hk as <-. destruct missing as [|k0 ks0].
        -- finish_latency Hl.
        -- finish_latency Hl.
      * injection Hk as <-. vsimpl.
        finish_latency Hl.
Qed.

End validator.

(** The report of the keyword example: a response missing the keyword
    ["Foo"] and over its latency bound fails on the keyword alone. *)
Lemma validation_first_failure_witness :
  RunnerSpec.check_error (VDict [("result", VStr "live")]) = Ok RunnerSpec.Pass ∧
  RunnerSpec.check_schema (Runner.mk_env true (fun _ => None) (fun _ _ _ _ => Runner.CallText "live") (5 # 1))
    [("name", VStr "t"); ("tool", VStr "search");
     ("expected_keywords", VList [VStr "Foo"; VStr "LIVE"]);
     ("expected_metrics", VDict [("max_latency_ms", VInt 1)])]
    (VDict [("result", VStr "live")]) = Ok RunnerSpec.Pass ∧
  RunnerSpec.check_keywords
    [("name", VStr "t"); ("tool", VStr "search");
     ("expected_keywords", VList [VStr "Foo"; VStr "LIVE"]);
     ("expected_metrics", VDict [("max_latency_ms", VInt 1)])]
    (VDict [("result", VStr "live")]) =
    Ok (RunnerSpec.Fail [Runner.FMissingKeywords [VStr "Foo"]]) ∧
  RunnerSpec.check_latency
    [("name", VStr "t"); ("tool", VStr "search");
     ("expected_keywords", VList [VStr "Foo"; VStr "LIVE"]);
     ("expected_metrics", VDict [("max_latency_ms", VInt 1)])] (5 # 1) =
    Ok (RunnerSpec.Fail [Runner.FLatency (5 # 1) (VInt 1)]) ∧
  Runner.validation (Runner.mk_env true (fun _ => None) (fun _ _ _ _ => Runner.CallText "live") (5 # 1))
    [("name", VStr "t"); ("tool", VStr "search");
     ("expected_keywords", VList [VStr "Foo"; VStr "LIVE"]);
     ("expected_metrics", VDict [("max_latency_ms", VInt 1)])]
    (VDict [("result", VStr "live")]) (5 # 1) =
    Ok ("FAIL", [Runner.FMissingKeywords [VStr "Foo"]]).
Proof.
  split; [reflexivity|]. split; [reflexivity|]. split; [reflexivity|]. split; [reflexivity|].
  exact (validation_first_failure
           (Runner.mk_env true (fun _ => None) (fun _ _ _ _ => Runner.CallText "live") (5 # 1))
           [("name", VStr "t"); ("tool", VStr "search");
            ("expected_keywords", VList [VStr "Foo"; VStr "LIVE"]);
            ("expected_metrics", VDict [("max_latency_ms", VInt 1)])]
           (VDict [("result", VStr "live")]) (5 # 1)
           RunnerSpec.Pass RunnerSpec.Pass
           (RunnerSpec.Fail [Runner.FMissingKeywords [VStr "Foo"]])
           (RunnerSpec.Fail [Runner.FLatency (5 # 1) (VInt 1)])
           eq_refl eq_refl eq_refl eq_refl).
Defined.

Section runner_shape.
Import Nodes Json Runner.

(** The shape of a completed [exec_async]: either the early result of the
    mocking block, or a response validated into the result record. *)
Lemma exec_async_ok (E : runner_env) (m : mock_registry) (sp : string)
    (tc : list (string * value)) (gu gr : value) (m' : mock_registry) (r : test_result) :
  exec_async E m sp tc gu gr = (m', Ok r) →
  ∃ name tool timeout,
    dict_get "name" tc = Some name ∧ dict_get "tool" tc = Some tool ∧
    py_int (tc_get tc "timeout_sec" (VInt 45)) = Ok timeout ∧
    (acquire E m sp tc name tool (tc_get tc "arguments" (VDict [])) timeout
       (tc_get tc "use_mocks" gu) (tc_get tc "record_mocks" gr) = (m', Ok (inl r)) ∨
     ∃ resp lat mode status failures,
       acquire E m sp tc name tool (tc_get tc "arguments" (VDict [])) timeout
         (tc_get tc "use_mocks" gu) (tc_get tc "record_mocks" gr) = (m', Ok (inr (resp, lat, mode))) ∧
       validation E tc resp lat = Ok (status, failures) ∧
       r = mk_result (if bool_decide (mode ∈ ["mock"; "replay"]) then "mock" else sp)
             name tool (tc_get tc "arguments" (VDict [])) status resp failures mode).
Proof.
  unfold exec_async, tc_index.
  destruct (dict_get "name" tc) as [name|]; [|cbn; congruence].
  destruct (dict_get "tool" tc) as [tool|]; [|cbn; congruence].
  cbn [bind].
  destruct (py_int (tc_get tc "timeout_sec" (VInt 45))) as [timeout|e]; [|cbn; congruence].
  cbn [bind].
  destruct (acquire _ _ _ _ _ _ _ _ _ _) as [m1 [[r1|[[resp lat] mode]]|e]] eqn:Ha;
    [| |congruence].
  - intros [= -> ->]. eauto 10.
  - destruct (validation E tc resp lat) as [[status failures]|e] eqn:Hv; cbn [bind];
      [|congruence].
    intros [= -> <-]. exists name, tool, timeout. split_and!; auto.
    right. eauto 10.
Qed.

(** The mocking block returns a finished result only when FastMCP is
    missing, and that result is the fixed [FastMCP not installed] record. *)
Lemma acquire_inl (E : runner_env) (m : mock_registry) (sp : string)
    (tc : list (string * value)) (name tool args : value) (timeout : Z) (um rm : value)
    (m' : mock_registry) (r : test_result) :
  acquire E m sp tc name tool args timeout um rm = (m', Ok (inl r)) →
  fastmcp_available E = false ∧ m' = m ∧
  r = mk_result sp name tool args "FAIL" (VDict [("error", VStr "FastMCP not installed")])
        [FText "pip install fastmcp"] "error".
Proof.
  unfold acquire.
  destruct (truthy um && dict_has "mock" tc); [congruence|].
  destruct (if truthy um then has_mock m tool args else Ok false) as [[|]|e];
    [|destruct (fastmcp_available E)|congruence].
  - destruct (get m tool args); congruence.
  - cbn [negb]. destruct (call_tool E sp tool args timeout) as [text|e].
    + destruct (truthy rm); [|congruence].
      destruct (record m tool args _) as [m1 [u|e]]; [congruence|].
      destruct (call_handler timeout e) as [[? ?]|?]; congruence.
    + destruct (call_handler timeout e) as [[? ?]|?]; congruence.
  - cbn [negb]. intros [= <- <-]. auto.
Qed.

(** A response holding ["error"] fails check (a), and no later check runs. *)
Lemma validation_error (E : runner_env) (tc : list (string * value)) (resp : value)
    (lat : Q) (status : string) (failures : list failure) :
  py_contains "error" resp = Ok true →
  validation E tc resp lat = Ok (status, failures) →
  status = "FAIL" ∧ failures = [].
Proof.
  intros He. unfold validation. rewrite He. cbn [bind String.eqb Ascii.eqb Bool.eqb andb].
  destruct (match tc_get tc "expected_metrics" (VDict []) with
            | VDict d => Ok (tc_get d "max_latency_ms" VNone)
            | _ => Raise (AttributeError "get") end); cbn [bind]; [|congruence].
  cbn [String.eqb Ascii.eqb Bool.eqb andb]. intros [= <- <-]. auto.
Qed.

End runner_shape.

(** C9 (counterexample): with FastMCP missing and mocking off, the result
    holds an ["error"] key, is a FAIL, and its failures list is not empty:
    it holds ["pip install fastmcp"]. *)
Lemma exec_async_error_with_failure :
  Runner.exec_async (Runner.mk_env false (fun _ => None) (fun _ _ _ _ => Runner.CallText "live") (5 # 1))
    ∅ "srv.py" [("name", VStr "t"); ("tool", VStr "search")] (VBool false) (VBool false) =
  (∅, Ok (Runner.mk_result "srv.py" (VStr "t") (VStr "search") (VDict []) "FAIL"
            (VDict [("error", VStr "FastMCP not installed")])
            [Runner.FText "pip install fastmcp"] "error")) ∧
  Runner.py_contains "error" (VDict [("error", VStr "FastMCP not installed")]) = Ok true ∧
  [Runner.FText "pip install fastmcp"] ≠ [].
Proof. split; [reflexivity|]. split; [reflexivity|]. discriminate. Qed.

(** C9 (amended): whenever [exec_async] returns a result whose response
    contains ["error"] ([in] on the response: a dict key, a list element or
    a substring), the status is FAIL; the failures list is empty, except
    for the early result when FastMCP is not installed, whose mode is
    ["error"] and whose failures are exactly ["pip install fastmcp"]. *)
Theorem exec_async_error_key (E : Runner.runner_env) (m : Json.mock_registry) (sp : string)
    (tc : list (string * value)) (gu gr : value) (m' : Json.mock_registry) (r : Runner.test_result) :
  Runner.exec_async E m sp tc gu gr = (m', Ok r) →
  Runner.py_contains "error" (Runner.r_response r) = Ok true →
  Runner.r_status r = "FAIL" ∧
  (Runner.r_failures r = [] ∨
   (Runner.fastmcp_available E = false ∧ Runner.r_mode r = "error" ∧
    Runner.r_failures r = [Runner.FText "pip install fastmcp"])).
Proof.
  intros H He.
  destruct (exec_async_ok E m sp tc gu gr m' r H)
    as (name & tool & timeout & _ & _ & _ & [Ha | (resp & lat & mode & st & fl & Ha & Hv & ->)]).
  - destruct (acquire_inl _ _ _ _ _ _ _ _ _ _ _ _ Ha) as (Hf & _ & ->).
    cbn. auto.
  - cbn in He |- *. destruct (validation_error E tc resp lat st fl He Hv) as [-> ->]. auto.
Qed.

(** The inline-mock example: a mock configured with a field named
    ["error"] is recorded as a FAIL with no failure reason. *)
Lemma exec_async_error_key_witness :
  Runner.exec_async (Runner.mk_env true (fun _ => None) (fun _ _ _ _ => Runner.CallText "live") (5 # 1))
    ∅ "srv.py"
    [("name", VStr "t"); ("tool", VStr "search"); ("use_mocks", VBool true);
     ("mock", VDict [("error", VStr "legit")])] (VBool false) (VBool false) =
  (∅, Ok (Runner.mk_result "mock" (VStr "t") (VStr "search") (VDict []) "FAIL"
            (VDict [("error", VStr "legit")]) [] "mock")) ∧
  Runner.py_contains "error" (VDict [("error", VStr "legit")]) = Ok true ∧
  ("FAIL" = "FAIL" ∧
   (([] : list Runner.failure) = [] ∨
    (true = false ∧ "mock" = "error" ∧ ([] : list Runner.failure) = [Runner.FText "pip install fastmcp"])))%string.
Proof.
  split; [reflexivity|]. split; [reflexivity|].
  exact (exec_async_error_key
           (Runner.mk_env true (fun _ => None) (fun _ _ _ _ => Runner.CallText "live") (5 # 1))
           ∅ "srv.py"
           [("name", VStr "t"); ("tool", VStr "search"); ("use_mocks", VBool true);
            ("mock", VDict [("error", VStr "legit")])] (VBool false) (VBool false) ∅
           (Runner.mk_result "mock" (VStr "t") (VStr "search") (VDict []) "FAIL"
              (VDict [("error", VStr "legit")]) [] "mock")
           eq_refl eq_refl).
Defined.

Section source_order.
Import Nodes Json Runner.

Variables (E : runner_env) (m : mock_registry) (sp : string) (tc : list (string * value))
  (name tool args : value) (timeout : Z) (um rm : value).

(** Branch 1: the inline mock. *)
Lemma acquire_mock :
  truthy um = true → dict_has "mock" tc = true →
  acquire E m sp tc name tool args timeout um rm = (m, Ok (inr (tc_get tc "mock" VNone, 0%Q, "mock"))).
Proof. intros Hu Hk. unfold acquire. rewrite Hu, Hk. reflexivity. Qed.

(** Branch 2: the registry replay. *)
Lemma acquire_replay :
  truthy um = true → dict_has "mock" tc = false → has_mock m tool args = Ok true →
  ∃ v, get m tool args = Ok (Some v) ∧
       acquire E m sp tc name tool args timeout um rm = (m, Ok (inr (v, 0%Q, "replay"))).
Proof.
  intros Hu Hk Hh. unfold acquire. rewrite Hu, Hk. cbn [andb]. rewrite Hh.
  unfold has_mock in Hh. unfold get.
  destruct (get_mock_key tool args) as [key|e]; cbn [bind] in Hh |- *; [|congruence].
  destruct (m !! key) as [v|] eqn:Hl.
  - exists v. split; reflexivity.
  - rewrite bool_decide_eq_false_2 in Hh; [congruence|]. intros [? ?]; congruence.
Qed.

(** The handler of the real call always reports mode ["error"]. *)
Lemma call_handler_mode (t : Z) (e : exn) (resp : value) (mode : string) :
  call_handler t e = Ok (resp, mode) → mode = "error".
Proof.
  unfold call_handler. destruct (isinstance e "TimeoutError"); [congruence|].
  destruct (isinstance e "Exception"); congruence.
Qed.

(** Branch 3: no inline mock and no replay, so the real call, or the
    early FAIL when FastMCP is missing. *)
Lemma acquire_call (m' : mock_registry) (x : test_result + (value * Q * string)) :
  (truthy um = false ∨ (dict_has "mock" tc = false ∧ has_mock m tool args = Ok false)) →
  acquire E m sp tc name tool args timeout um rm = (m', Ok x) →
  (fastmcp_available E = false ∧ m' = m ∧
   x = inl (mk_result sp name tool args "FAIL" (VDict [("error", VStr "FastMCP not installed")])
              [FText "pip install fastmcp"] "error")) ∨
  (fastmcp_available E = true ∧ ∃ resp lat mode, x = inr (resp, lat, mode) ∧
     match call_tool E sp tool args timeout with
     | CallText text =>
         (truthy rm = false ∧ mode = "real" ∧ resp = VDict [("result", VStr text)] ∧ m' = m) ∨
         (truthy rm = true ∧ mode = "recorded" ∧ resp = VDict [("result", VStr text)] ∧
          record m tool args (VDict [("result", VStr text)]) = (m', Ok tt)) ∨
         (truthy rm = true ∧ mode = "error" ∧
          ∃ e, record m tool args (VDict [("result", VStr text)]) = (m', Raise e) ∧
               call_handler timeout e = Ok (resp, "error"))
     | CallRaise e => mode = "error" ∧ call_handler timeout e = Ok (resp, "error") ∧ m' = m
     end).
Proof.
  intros Hpre. unfold acquire.
  assert (Hb : (truthy um && dict_has "mock" tc) = false ∧
               (if truthy um then has_mock m tool args else Ok false) = Ok false).
  { destruct Hpre as [Hu | [Hk Hh]]; rewrite ?Hu, ?Hk, ?Hh; destruct (truthy um); auto. }
  destruct Hb as [-> ->].
  destruct (fastmcp_available E); cbn [negb].
  - cbv zeta.
    destruct (call_tool E sp tool args timeout) as [text|e].
    + destruct (truthy rm).
      * destruct (record m tool args _) as [m1 [[]|e]] eqn:Hrec.
        -- intros [= <- <-]. right. split; [reflexivity|]. eexists _, _, _. split; [reflexivity|].
           right. left. auto.
        -- destruct (call_handler timeout e) as [[resp mode]|e'] eqn:Hc; [|congruence].
           intros [= <- <-]. right. split; [reflexivity|]. eexists _, _, _. split; [reflexivity|].
           pose proof (call_handler_mode _ _ _ _ Hc) as ->.
           right. right. split; [reflexivity|]. split; [reflexivity|]. exists e. auto.
      * intros [= <- <-]. right. split; [reflexivity|]. eexists _, _, _. split; [reflexivity|].
        left. auto.
    + destruct (call_handler timeout e) as [[resp mode]|e'] eqn:Hc; [|congruence].
      intros [= <- <-]. right. split; [reflexivity|]. eexists _, _, _. split; [reflexivity|].
      pose proof (call_handler_mode _ _ _ _ Hc) as ->. auto.
  - intros [= <- <-]. left. auto.
Qed.

End source_order.

(** C1 (counterexample): with [use_mocks] on, no inline mock and an empty
    registry, the lookup is a miss, and the runner does not fail: it falls
    through to the real call, and the test passes in mode ["real"]. *)
Lemma exec_async_miss_falls_through :
  Json.has_mock ∅ (VStr "search") (VDict []) = Ok false ∧
  Runner.exec_async (Runner.mk_env true (fun _ => None) (fun _ _ _ _ => Runner.CallText "live") (5 # 1))
    ∅ "srv.py" [("name", VStr "t"); ("tool", VStr "search"); ("use_mocks", VBool true)]
    (VBool false) (VBool false) =
  (∅, Ok (Runner.mk_result "srv.py" (VStr "t") (VStr "search") (VDict []) "PASS"
            (VDict [("result", VStr "live")]) [] "real")).
Proof. split; reflexivity. Qed.

Section precedence.
Import Nodes Json Runner.

(** C1 (amended): a registry miss is not a failure. With [use_mocks] the
    value of the test case's ["use_mocks"] key (else the global flag),
    the response comes from: (1) the inline mock, when [use_mocks] is
    truthy and the test case has a ["mock"] key; else (2) the registry,
    when [use_mocks] is truthy and [has_mock] holds; else (3) the real
    call, or the early FAIL record when FastMCP is not installed. A call
    returning text [t] gives [{"result": t}] in mode ["real"] when
    [record_mocks] is falsy; when it is truthy, mode ["recorded"] if
    [record] succeeds, and mode ["error"] with the handler's response if
    [record] raises (the dict is updated before that raise). *)
Theorem exec_async_source_precedence (E : runner_env) (m : mock_registry) (sp : string)
    (tc : list (string * value)) (gu gr : value) (m' : mock_registry) (r : test_result) :
  exec_async E m sp tc gu gr = (m', Ok r) →
  (truthy (tc_get tc "use_mocks" gu) = true → dict_has "mock" tc = true →
     r_mode r = "mock" ∧ r_server r = "mock" ∧ r_response r = tc_get tc "mock" VNone ∧ m' = m) ∧
  (truthy (tc_get tc "use_mocks" gu) = true → dict_has "mock" tc = false →
     has_mock m (r_tool r) (r_arguments r) = Ok true →
     r_mode r = "replay" ∧ r_server r = "mock" ∧
     get m (r_tool r) (r_arguments r) = Ok (Some (r_response r)) ∧ m' = m) ∧
  ((truthy (tc_get tc "use_mocks" gu) = false ∨
    (dict_has "mock" tc = false ∧ has_mock m (r_tool r) (r_arguments r) = Ok false)) →
     r_server r = sp ∧
     ((fastmcp_available E = false ∧ r_mode r = "error" ∧ r_status r = "FAIL" ∧
       r_failures r = [FText "pip install fastmcp"] ∧ m' = m) ∨
      (fastmcp_available E = true ∧
       ∃ timeout, py_int (tc_get tc "timeout_sec" (VInt 45)) = Ok timeout ∧
       match call_tool E sp (r_tool r) (r_arguments r) timeout with
       | CallText text =>
           (truthy (tc_get tc "record_mocks" gr) = false ∧ r_mode r = "real" ∧
            r_response r = VDict [("result", VStr text)] ∧ m' = m) ∨
           (truthy (tc_get tc "record_mocks" gr) = true ∧ r_mode r = "recorded" ∧
            r_response r = VDict [("result", VStr text)] ∧
            record m (r_tool r) (r_arguments r) (VDict [("result", VStr text)]) = (m', Ok tt)) ∨
           (truthy (tc_get tc "record_mocks" gr) = true ∧ r_mode r = "error" ∧
            ∃ e, record m (r_tool r) (r_arguments r) (VDict [("result", VStr text)]) = (m', Raise e) ∧
                 call_handler timeout e = Ok (r_response r, "error"))
       | CallRaise e =>
           r_mode r = "error" ∧ call_handler timeout e = Ok (r_response r, "error") ∧ m' = m
       end))).
Proof.
  intros H.
  destruct (exec_async_ok E m sp tc gu gr m' r H)
    as (name & tool & timeout & _ & _ & Hto & [Ha | (resp & lat & mode & st & fl & Ha & Hv & ->)]).
  - destruct (acquire_inl _ _ _ _ _ _ _ _ _ _ _ _ Ha) as (Hf & -> & ->). cbn.
    split_and!.
    + intros Hu Hk. rewrite (acquire_mock E m sp tc name tool _ timeout _ _ Hu Hk) in Ha. congruence.
    + intros Hu Hk Hh.
      destruct (acquire_replay E m sp tc name tool _ timeout _ (tc_get tc "record_mocks" gr) Hu Hk Hh)
        as (v & _ & Ha'). rewrite Ha' in Ha. congruence.
    + intros _. split; [reflexivity|]. left. auto.
  - cbn [r_mode r_server r_response r_tool r_arguments r_status r_failures]. split_and!.
    + intros Hu Hk. rewrite (acquire_mock E m sp tc name tool _ timeout _ _ Hu Hk) in Ha.
      injection Ha as <- <- _ <-. split_and!; reflexivity.
    + intros Hu Hk Hh.
      destruct (acquire_replay E m sp tc name tool _ timeout _ (tc_get tc "record_mocks" gr) Hu Hk Hh)
        as (v & Hg & Ha'). rewrite Ha' in Ha. injection Ha as <- <- _ <-. split_and!; try reflexivity. exact Hg.
    + intros Hpre.
      destruct (acquire_call E m sp tc name tool _ timeout _ _ m' _ Hpre Ha)
        as [(_ & _ & [=]) | (Hf & resp' & lat' & mode' & [= <- <- <-] & Hc)].
      split.
      * destruct (call_tool E sp tool _ timeout);
          [destruct Hc as [(_ & -> & _) | [(_ & -> & _) | (_ & -> & _)]] | destruct Hc as (-> & _)];
          reflexivity.
      * right. split; [exact Hf|]. exists timeout. split; [exact Hto|]. exact Hc.
Qed.

(** The replay example: a response recorded for ["search"] with no
    arguments is replayed, without an inline mock and without a call. *)
Lemma exec_async_source_precedence_witness :
  Runner.exec_async (Runner.mk_env true (fun _ => None) (fun _ _ _ _ => Runner.CallText "live") (5 # 1))
    (record ∅ (VStr "search") (VDict []) (VDict [("result", VStr "cached")])).1 "srv.py"
    [("name", VStr "t"); ("tool", VStr "search"); ("use_mocks", VBool true)]
    (VBool false) (VBool false) =
  ((record ∅ (VStr "search") (VDict []) (VDict [("result", VStr "cached")])).1,
   Ok (mk_result "mock" (VStr "t") (VStr "search") (VDict []) "PASS"
         (VDict [("result", VStr "cached")]) [] "replay")) ∧
  "replay" = "replay" ∧ "mock" = "mock" ∧
  get (record ∅ (VStr "search") (VDict []) (VDict [("result", VStr "cached")])).1
    (VStr "search") (VDict []) = Ok (Some (VDict [("result", VStr "cached")])).
Proof.
  match goal with |- ?A ∧ _ => assert (He : A) by (vm_compute; reflexivity) end.
  split; [exact He|].
  destruct (exec_async_source_precedence
              (Runner.mk_env true (fun _ => None) (fun _ _ _ _ => Runner.CallText "live") (5 # 1))
              (record ∅ (VStr "search") (VDict []) (VDict [("result", VStr "cached")])).1 "srv.py"
              [("name", VStr "t"); ("tool", VStr "search"); ("use_mocks", VBool true)]
              (VBool false) (VBool false)
              (record ∅ (VStr "search") (VDict []) (VDict [("result", VStr "cached")])).1
              (mk_result "mock" (VStr "t") (VStr "search") (VDict []) "PASS"
                 (VDict [("result", VStr "cached")]) [] "replay")
              He) as (_ & H2 & _).
  destruct (H2 eq_refl eq_refl eq_refl) as (H3 & H4 & H5 & _).
  split; [exact H3|]. split; [exact H4|]. exact H5.
Defined.

End precedence.

Section retry.
Import Nodes Runner Retry.


Lemma py_range_empty (lo hi : Z) :
  (hi <= lo)%Z → py_range lo hi = [].
Proof. intros Hle. unfold py_range. replace (Z.to_nat (hi - lo)) with 0%nat by lia. reflexivity. Qed.






End retry.

Section retry_spec.
Import Nodes Runner Retry.




End retry_spec.

(* ================================================================== *)
(** * Further properties of the code *)

Section mock_registry_extra.
Import Nodes Json.

Lemma save_unserializable (m : mock_registry) (k : string) (v : value) :
  m !! k = Some v → serializable v = false → save m = Raise (TypeError "Object is not JSON serializable").
Proof.
  intros Hk Hv. unfold save.
  destruct (forallb serializable (map snd (map_to_list m))) eqn:Hf; [|reflexivity].
  exfalso. rewrite forallb_forall in Hf.
  assert (Hin : In v (map snd (map_to_list m))).
  { apply in_map_iff. exists (k, v). split; [done|].
    apply list_elem_of_In. by apply elem_of_map_to_list. }
  specialize (Hf v Hin). congruence.
Qed.

(** [record] stores the response before [_save] runs: recording a
    response that is not JSON raises [TypeError] but keeps it in memory;
    from then on every [record] under another key raises [TypeError] too,
    while still storing its response. *)
Theorem record_unserializable_sticks (m : mock_registry) (t a R : value) (k : string) :
  get_mock_key t a = Ok k →
  (serializable R = false →
     (record m t a R).2 = Raise (TypeError "Object is not JSON serializable") ∧
     get (record m t a R).1 t a = Ok (Some R)) ∧
  (∀ k0 v0, m !! k0 = Some v0 → serializable v0 = false → k ≠ k0 →
     (record m t a R).2 = Raise (TypeError "Object is not JSON serializable") ∧
     get (record m t a R).1 t a = Ok (Some R) ∧ (record m t a R).1 !! k0 = Some v0).
Proof.
  intros Hk. unfold record, get. rewrite Hk. cbn [fst snd bind]. split.
  - intros HR. split; [|by rewrite lookup_insert_eq].
    apply (save_unserializable _ k R); [by rewrite lookup_insert_eq|done].
  - intros k0 v0 H0 Hv0 Hne. split_and!.
    + apply (save_unserializable _ k0 v0); [by rewrite lookup_insert_ne|done].
    + by rewrite lookup_insert_eq.
    + by rewrite lookup_insert_ne.
Qed.

End mock_registry_extra.

(** A registry that already holds a protocol object: recording a JSON
    response under another key raises, and the response is still stored. *)
Lemma record_unserializable_sticks_witness :
  Json.get_mock_key (VStr "search") (VDict []) =
    Ok (Json.render true true (VDict [("tool", VStr "search"); ("args", VDict [])])) ∧
  (Json.record (<["other" := VObj []]> ∅) (VStr "search") (VDict []) (VStr "ok")).2 =
    Raise (Nodes.TypeError "Object is not JSON serializable").
Proof.
  assert (Hk : Json.get_mock_key (VStr "search") (VDict []) =
                 Ok (Json.render true true (VDict [("tool", VStr "search"); ("args", VDict [])])))
    by reflexivity.
  split; [exact Hk|].
  destruct (record_unserializable_sticks (<["other" := VObj []]> ∅) (VStr "search") (VDict []) (VStr "ok") _ Hk)
    as [_ H2].
  destruct (H2 "other" (VObj []) ltac:(reflexivity) ltac:(reflexivity) ltac:(vm_compute; discriminate))
    as [H3 _].
  exact H3.
Defined.

Section retry_extra.
Import Nodes Runner Retry.

Lemma py_min_le_r (x M : Q) : (py_min x M <= M)%Q.
Proof.
  unfold py_min, py_lt. destruct (Qle_bool x M) eqn:H; cbn [negb].
  - by apply Qle_bool_iff.
  - apply Qle_refl.
Qed.

Lemma py_min_nonneg (x M : Q) : (0 <= x)%Q → (0 <= M)%Q → (0 <= py_min x M)%Q.
Proof. unfold py_min, py_lt. destruct (Qle_bool x M); cbn [negb]; auto. Qed.

Lemma py_min_mono (x y M : Q) : (x <= y)%Q → (py_min x M <= py_min y M)%Q.
Proof.
  unfold py_min, py_lt. intros Hxy.
  destruct (Qle_bool x M) eqn:Hx, (Qle_bool y M) eqn:Hy; cbn [negb].
  - exact Hxy.
  - by apply Qle_bool_iff.
  - exfalso. apply Qle_bool_iff in Hy.
    assert (Hxm : (x <= M)%Q) by (eapply Qle_trans; eauto).
    apply Qle_bool_iff in Hxm. congruence.
  - apply Qle_refl.
Qed.

Lemma calculate_delay_ok (config : retry_config) (attempt : Z) (u d : Q) :
  calculate_delay attempt config u = Ok d →
  d = (let d := py_min (base_delay config * exponential_base config ^ (attempt - 1)%Z)%Q
                       (max_delay config) in
       if jitter config then (d * ((1 # 2) + u))%Q else d).
Proof.
  unfold calculate_delay, float_pow.
  destruct (Qeq_bool _ _ && _); [discriminate|].
  destruct (Qle_bool _ _); [discriminate|]. cbn [bind]. by intros [= <-].
Qed.

(** Every delay [calculate_delay] returns (when it does not raise) is
    between 0 and [max_delay] without jitter, and between 0 and
    1.5 × [max_delay] with jitter, for a draw u in [0, 1) and non-negative
    parameters. *)
Theorem calculate_delay_bounds (config : retry_config) (attempt : Z) (u d : Q) :
  (0 <= base_delay config)%Q → (0 <= exponential_base config)%Q → (0 <= max_delay config)%Q →
  (0 <= u < 1)%Q →
  calculate_delay attempt config u = Ok d →
  (0 <= d)%Q ∧
  (d <= if jitter config then (3 # 2) * max_delay config else max_delay config)%Q.
Proof.
  intros Hb He Hm [Hu0 Hu1] Hc. apply calculate_delay_ok in Hc as ->. cbv zeta.
  set (d := py_min (base_delay config * exponential_base config ^ (attempt - 1)%Z) (max_delay config)).
  assert (Hd0 : (0 <= d)%Q).
  { apply py_min_nonneg; [|done]. apply Qmult_le_0_compat; [done|]. by apply Qpower_0_le. }
  assert (HdM : (d <= max_delay config)%Q) by apply py_min_le_r.
  destruct (jitter config); [|by split].
  assert (Hf0 : (0 <= (1 # 2) + u)%Q).
  { apply (Qle_trans _ (0 + 0)); [done|]. apply Qplus_le_compat; [done|done]. }
  split; [by apply Qmult_le_0_compat|].
  apply (Qle_trans _ (max_delay config * ((1 # 2) + u))).
  - apply Qmult_le_compat_r; done.
  - rewrite Qmult_comm. apply Qmult_le_compat_r; [|done].
    apply (Qle_trans _ ((1 # 2) + 1)); [apply Qplus_le_compat; [apply Qle_refl|by apply Qlt_le_weak]|].
    done.
Qed.

(** Without jitter, the delays [calculate_delay] returns never shrink from
    one attempt to a later one when [base_delay] ≥ 0 and
    [exponential_base] ≥ 1. *)
Theorem calculate_delay_monotone (config : retry_config) (a b : Z) (u v da db : Q) :
  jitter config = false → (0 <= base_delay config)%Q → (1 <= exponential_base config)%Q →
  (a <= b)%Z →
  calculate_delay a config u = Ok da → calculate_delay b config v = Ok db →
  (da <= db)%Q.
Proof.
  intros Hj Hb He Hab Ha Hb'.
  apply calculate_delay_ok in Ha as ->. apply calculate_delay_ok in Hb' as ->.
  cbv zeta. rewrite Hj.
  apply py_min_mono. rewrite !(Qmult_comm (base_delay config)).
  apply Qmult_le_compat_r; [|done].
  apply Qpower_le_compat_l; [lia|done].
Qed.


(** With [max_attempts] ≤ 0, [retry_async] never calls the function and
    never sleeps; it raises [TypeError] ([raise None]). *)
Theorem retry_async_no_attempts {A} (config : retry_config) (func : Z → result A) (rand : Z → Q) :
  (max_attempts config <= 0)%Z →
  retry_async config func rand =
    ([], [], Raise (TypeError "exceptions must derive from BaseException")).
Proof.
  intros H. unfold retry_async. rewrite py_range_empty by lia. reflexivity.
Qed.

End retry_extra.

Lemma calculate_delay_bounds_witness :
  Retry.calculate_delay 7 (Retry.RetryConfig 3 1 30 2 true None) (9 # 10) =
    Ok (Retry.py_min (1 * 2 ^ (7 - 1)%Z) 30 * ((1 # 2) + (9 # 10)))%Q ∧
  (Retry.py_min (1 * 2 ^ (7 - 1)%Z) 30 * ((1 # 2) + (9 # 10)) == 42 # 1)%Q ∧
  (0 <= Retry.py_min (1 * 2 ^ (7 - 1)%Z) 30 * ((1 # 2) + (9 # 10)))%Q ∧
  (Retry.py_min (1 * 2 ^ (7 - 1)%Z) 30 * ((1 # 2) + (9 # 10)) <= (3 # 2) * 30)%Q.
Proof.
  assert (He : Retry.calculate_delay 7 (Retry.RetryConfig 3 1 30 2 true None) (9 # 10) =
                 Ok (Retry.py_min (1 * 2 ^ (7 - 1)%Z) 30 * ((1 # 2) + (9 # 10)))%Q) by reflexivity.
  split; [exact He|]. split; [reflexivity|].
  exact (calculate_delay_bounds (Retry.RetryConfig 3 1 30 2 true None) 7 (9 # 10) _
           ltac:(vm_compute; discriminate) ltac:(vm_compute; discriminate)
           ltac:(vm_compute; discriminate) ltac:(split; vm_compute; [discriminate|reflexivity]) He).
Defined.

Lemma calculate_delay_monotone_witness :
  Retry.calculate_delay 2 (Retry.RetryConfig 5 2 120 2 false None) 0 =
    Ok (Retry.py_min (2 * 2 ^ (2 - 1)%Z) 120) ∧
  Retry.calculate_delay 3 (Retry.RetryConfig 5 2 120 2 false None) 0 =
    Ok (Retry.py_min (2 * 2 ^ (3 - 1)%Z) 120) ∧
  (Retry.py_min (2 * 2 ^ (2 - 1)%Z) 120 == 4 # 1)%Q ∧
  (Retry.py_min (2 * 2 ^ (3 - 1)%Z) 120 == 8 # 1)%Q ∧
  (Retry.py_min (2 * 2 ^ (2 - 1)%Z) 120 <= Retry.py_min (2 * 2 ^ (3 - 1)%Z) 120)%Q.
Proof.
  assert (Ha : Retry.calculate_delay 2 (Retry.RetryConfig 5 2 120 2 false None) 0 =
                 Ok (Retry.py_min (2 * 2 ^ (2 - 1)%Z) 120)) by reflexivity.
  assert (Hb : Retry.calculate_delay 3 (Retry.RetryConfig 5 2 120 2 false None) 0 =
                 Ok (Retry.py_min (2 * 2 ^ (3 - 1)%Z) 120)) by reflexivity.
  split; [exact Ha|]. split; [exact Hb|]. split; [reflexivity|]. split; [reflexivity|].
  exact (calculate_delay_monotone (Retry.RetryConfig 5 2 120 2 false None) 2 3 0 0 _ _
           eq_refl ltac:(vm_compute; discriminate) ltac:(vm_compute; discriminate) ltac:(lia) Ha Hb).
Defined.

Lemma retry_async_no_attempts_witness :
  Retry.retry_async (Retry.RetryConfig 0 1 60 2 false None) (fun _ => Ok tt) (fun _ => 0%Q) =
    ([], [], Raise (Nodes.TypeError "exceptions must derive from BaseException")).
Proof.
  exact (retry_async_no_attempts (Retry.RetryConfig 0 1 60 2 false None) (fun _ => Ok tt) (fun _ => 0%Q)
           ltac:(vm_compute; discriminate)).
Defined.

Section runner_extra.
Import Nodes Json Runner.

(** A ["recorded"] response comes from a successful [record]. *)
Lemma acquire_recorded (E : runner_env) (m : mock_registry) (sp : string)
    (tc : list (string * value)) (name tool args : value) (timeout : Z) (um rm : value)
    (m1 : mock_registry) (resp : value) (lat : Q) :
  acquire E m sp tc name tool args timeout um rm = (m1, Ok (inr (resp, lat, "recorded"))) →
  ∃ k, get_mock_key tool args = Ok k ∧ m1 = <[k := resp]> m.
Proof.
  unfold acquire.
  destruct (truthy um && dict_has "mock" tc); [intros [=]|].
  destruct (if truthy um then has_mock m tool args else Ok false) as [[|]|e];
    [|destruct (fastmcp_available E)|intros [=]].
  - destruct (get m tool args); intros [=].
  - cbn [negb]. cbv zeta. unfold call_handler.
    destruct (call_tool E sp tool args timeout) as [text|e].
    + destruct (truthy rm) eqn:Hrm.
      * unfold record. destruct (get_mock_key tool args) as [k|e] eqn:Hk.
        -- destruct (save (<[k := VDict [("result", VStr text)]]> m)) as [u|e].
           ++ intros [= <- <- _]. eauto.
           ++ destruct (isinstance e "TimeoutError"); [intros [=]|].
              destruct (isinstance e "Exception"); intros [=].
        -- destruct (isinstance e "TimeoutError"); [intros [=]|].
           destruct (isinstance e "Exception"); intros [=].
      * intros [=].
    + destruct (isinstance e "TimeoutError"); [intros [=]|].
      destruct (isinstance e "Exception"); intros [=].
  - intros [=].
Qed.

(** Record, then replay: once a real call has been recorded (mode
    ["recorded"]), a later test case with the same tool and arguments,
    mocking on and no inline mock, replays the recorded response in mode
    ["replay"] with server ["mock"], without calling the tool and without
    changing the registry. *)
Theorem record_then_replay (E E' : runner_env) (m m1 : mock_registry) (sp : string)
    (tc tc' : list (string * value)) (gu gr gu' gr' : value) (r1 : test_result)
    (name' : value) (timeout' : Z) (status : string) (failures : list failure) :
  exec_async E m sp tc gu gr = (m1, Ok r1) → r_mode r1 = "recorded" →
  dict_get "name" tc' = Some name' → dict_get "tool" tc' = Some (r_tool r1) →
  tc_get tc' "arguments" (VDict []) = r_arguments r1 →
  py_int (tc_get tc' "timeout_sec" (VInt 45)) = Ok timeout' →
  truthy (tc_get tc' "use_mocks" gu') = true → dict_has "mock" tc' = false →
  validation E' tc' (r_response r1) 0%Q = Ok (status, failures) →
  exec_async E' m1 sp tc' gu' gr' =
    (m1, Ok (mk_result "mock" name' (r_tool r1) (r_arguments r1) status (r_response r1) failures "replay")).
Proof.
  intros H1 Hmode Hn Ht Ha Hto Hu Hk Hv.
  destruct (exec_async_ok E m sp tc gu gr m1 r1 H1)
    as (name & tool & timeout & _ & _ & _ & [Hacq | (resp & lat & mode & st & fl & Hacq & _ & ->)]).
  - destruct (acquire_inl _ _ _ _ _ _ _ _ _ _ _ _ Hacq) as (_ & _ & ->). discriminate.
  - cbn in Hmode, Ht, Ha, Hv |- *. subst mode.
    destruct (acquire_recorded _ _ _ _ _ _ _ _ _ _ _ _ _ Hacq) as (k & Hkey & ->).
    unfold exec_async, tc_index. rewrite Hn, Ht, Ha, Hto. cbn [bind].
    unfold acquire. rewrite Hu, Hk. cbn [andb].
    unfold has_mock, get. rewrite Hkey. cbn [bind]. rewrite lookup_insert_eq.
    rewrite bool_decide_eq_true_2 by done.
    rewrite Hv. reflexivity.
Qed.

(** The recording run writes ["live"] for ["search"]; a second test case
    with mocking on replays it. *)
Lemma record_then_replay_witness :
  exec_async (mk_env true (fun _ => None) (fun _ _ _ _ => CallText "live") (5 # 1)) ∅ "srv.py"
    [("name", VStr "t"); ("tool", VStr "search"); ("record_mocks", VBool true)]
    (VBool false) (VBool false) =
  ((record ∅ (VStr "search") (VDict []) (VDict [("result", VStr "live")])).1,
   Ok (mk_result "srv.py" (VStr "t") (VStr "search") (VDict []) "PASS"
         (VDict [("result", VStr "live")]) [] "recorded")) ∧
  exec_async (mk_env true (fun _ => None) (fun _ _ _ _ => CallText "other") (5 # 1))
    (record ∅ (VStr "search") (VDict []) (VDict [("result", VStr "live")])).1 "srv.py"
    [("name", VStr "u"); ("tool", VStr "search"); ("use_mocks", VBool true)]
    (VBool false) (VBool false) =
  ((record ∅ (VStr "search") (VDict []) (VDict [("result", VStr "live")])).1,
   Ok (mk_result "mock" (VStr "u") (VStr "search") (VDict []) "PASS"
         (VDict [("result", VStr "live")]) [] "replay")).
Proof.
  match goal with |- ?A ∧ _ => assert (He : A) by (vm_compute; reflexivity) end.
  split; [exact He|].
  exact (record_then_replay
    (mk_env true (fun _ => None) (fun _ _ _ _ => CallText "live") (5 # 1))
    (mk_env true (fun _ => None) (fun _ _ _ _ => CallText "other") (5 # 1))
    ∅ _ "srv.py" _ [("name", VStr "u"); ("tool", VStr "search"); ("use_mocks", VBool true)]
    (VBool false) (VBool false) (VBool false) (VBool false) _
    (VStr "u") 45 "PASS" [] He eq_refl eq_refl eq_refl eq_refl eq_refl eq_refl eq_refl
    ltac:(vm_compute; reflexivity)).
Defined.

End runner_extra.


Section builder_extra.
Import Parser Builder.
Lemma ordered_step (c : edge) (cs : list edge) (seen : list string) :
  ∃ acc seen' : list string, ordered_nodes_go seen (c :: cs) = (acc ++ ordered_nodes_go seen' cs)%list ∧
    (∀ y, y ∈ acc ↔ (y ∉ seen) ∧ (y = e_source c ∨ (y = e_target c ∧ y ≠ COMPLETE))) ∧
    (∀ y, y ∈ seen' ↔ y ∈ seen ∨ (y = e_source c ∨ (y = e_target c ∧ y ≠ COMPLETE))) ∧
    NoDup acc.
Proof.
  simpl. set (s := e_source c). set (t := e_target c). clearbody s t.
  destruct (decide (s ∈ seen)) as [Hs|Hs];
    [rewrite bool_decide_true by done|rewrite bool_decide_false by done];
  destruct (String.eqb_spec t COMPLETE) as [Ht|Ht]; simpl.
  - eexists [], seen. rewrite app_nil_l. split_and!; [done| |by intros; set_solver|constructor].
    intros y. set_solver.
  - destruct (decide (t ∈ seen)) as [Ht'|Ht'];
      [rewrite bool_decide_true by done|rewrite bool_decide_false by done]; simpl.
    + eexists [], seen. split_and!; [done|intros y; set_solver|intros y; set_solver|constructor].
    + eexists [t], (t :: seen). split_and!; [done|intros y; set_solver|intros y; set_solver|].
      constructor; [set_solver|constructor].
  - eexists [s], (s :: seen). split_and!; [done|intros y; set_solver|intros y; set_solver|].
    constructor; [set_solver|constructor].
  - destruct (decide (t ∈ s :: seen)) as [Ht'|Ht'];
      [rewrite bool_decide_true by done|rewrite bool_decide_false by done]; simpl.
    + eexists [s], (s :: seen). split_and!; [done|intros y; set_solver|intros y; set_solver|].
      constructor; [set_solver|constructor].
    + eexists [s; t], (t :: s :: seen). split_and!; [done|intros y; set_solver|intros y; set_solver|].
      constructor; [set_solver|constructor; [set_solver|constructor]].
Qed.

Lemma ordered_nodes_go_spec (cs : list edge) (seen : list string) :
  NoDup (ordered_nodes_go seen cs) ∧
  ∀ x, x ∈ ordered_nodes_go seen cs ↔
    (x ∉ seen) ∧ ∃ c, c ∈ cs ∧ (x = e_source c ∨ (x = e_target c ∧ x ≠ COMPLETE)).
Proof.
  revert seen. induction cs as [|c cs IH]; intros seen.
  - split; [constructor|]. intros x. simpl. split; [set_solver|]. intros (_ & c & Hc & _). set_solver.
  - destruct (ordered_step c cs seen) as (acc & seen' & -> & Hacc & Hseen & Hnd).
    destruct (IH seen') as [Hnd' Hmem]. split.
    + apply NoDup_app. split_and!; [done| |done].
      intros y Hy Hy'. apply Hmem in Hy' as [Hy' _]. apply Hacc in Hy as [_ Hy].
      apply Hy', Hseen. by right.
    + intros x. rewrite elem_of_app, Hacc, Hmem. split.
      * intros [[Hx Hp]|[Hx (c' & Hc' & Hp)]].
        -- split; [done|]. exists c. split; [apply list_elem_of_here|done].
        -- split; [intros Hs; apply Hx, Hseen; by left|].
           exists c'. split; [by apply list_elem_of_further|done].
      * intros [Hx (c' & Hc' & Hp)]. apply elem_of_cons in Hc' as [->|Hc'].
        -- by left.
        -- destruct (decide (x = e_source c ∨ (x = e_target c ∧ x ≠ COMPLETE))) as [Hp'|Hp'].
           ++ by left.
           ++ right. split; [|eauto]. rewrite Hseen. tauto.
Qed.


Lemma create_nodes_eq (custom : custom_classes) (cs : list edge) (ns : list string) :
  create_nodes custom cs ns =
  Ok (zip_with (λ n nx, (n, match get_custom_node_class custom n with
                            | Some cls => CustomNode cls
                            | None => ToolNode nx (get_node_params cs n) end))
        ns (tail ns ++ [COMPLETE])%list).
Proof.
  induction ns as [|n ns IH]; [done|].
  cbn [create_nodes]. rewrite is_custom_node_class.
  destruct (get_custom_node_class custom n) eqn:Hc; cbn [bind]; rewrite IH; cbn [bind];
    destruct ns; simpl; rewrite Hc; reflexivity.
Qed.

Lemma map_fst_zip_with {B C} (f : string → B → C) (ns : list string) (ys : list B) :
  (length ns ≤ length ys)%nat → map fst (zip_with (λ n y, (n, f n y)) ns ys) = ns.
Proof.
  revert ys. induction ns as [|n ns IH]; intros [|y ys]; simpl; intros Hl; [done|done|lia|].
  f_equal. apply IH. lia.
Qed.

Lemma wire_edges_eq (nodes : list (string * built_node)) (cs : list edge) :
  (∀ c, c ∈ cs → e_source c ∈ map fst nodes ∧
                 (e_target c ≠ COMPLETE → e_target c ∈ map fst nodes)) →
  wire_edges nodes cs =
  Ok (map (λ c, (e_source c, match e_action c with Some (String _ _ as a) => Some a | _ => None end,
                 e_target c))
        (filter (λ c, e_target c ≠ COMPLETE) cs)).
Proof.
  induction cs as [|c cs IH]; simpl; intros Hcs; [done|].
  destruct (Hcs c (list_elem_of_here _ _)) as [Hs Ht].
  destruct (dict_get_elem_of nodes _ Hs) as [vs Hvs].
  unfold lookup_node. rewrite Hvs. cbn [bind].
  rewrite IH by (intros c' Hc'; apply Hcs; set_solver).
  rewrite filter_cons.
  destruct (String.eqb_spec (e_target c) COMPLETE) as [He|Hne].
  - rewrite decide_False by tauto. done.
  - rewrite decide_True by done.
    destruct (dict_get_elem_of nodes _ (Ht Hne)) as [vt Hvt].
    rewrite Hvt. reflexivity.
Qed.

(** [_build_workflow] on a non-empty connection list: the nodes are the
    distinct names that occur as a source or as a non-sentinel target, in
    first-seen order and without repetition; each is an instance of its
    custom class when one is found by name or PascalCase name, and otherwise
    an [MCPNode] whose next node is the following ordered name (the
    sentinel for the last) and whose explicit params come from
    [get_node_params]; the wired transitions are exactly the connections
    whose target is not the sentinel, in order, an empty action being
    wired as a plain [>>]. *)
Theorem build_workflow_structure (custom : custom_classes) (cs : list edge) :
  cs ≠ [] →
  ∃ fl, build_workflow custom cs = Ok fl ∧
    NoDup (get_ordered_nodes cs) ∧
    (∀ x, x ∈ get_ordered_nodes cs ↔
       ∃ c, c ∈ cs ∧ (x = e_source c ∨ (x = e_target c ∧ x ≠ COMPLETE))) ∧
    f_nodes fl =
      zip_with (λ n nx, (n, match get_custom_node_class custom n with
                            | Some cls => CustomNode cls
                            | None => ToolNode nx (get_node_params cs n) end))
        (get_ordered_nodes cs) (tail (get_ordered_nodes cs) ++ [COMPLETE])%list ∧
    f_wires fl =
      map (λ c, (e_source c, match e_action c with Some (String _ _ as a) => Some a | _ => None end,
                 e_target c))
        (filter (λ c, e_target c ≠ COMPLETE) cs).
Proof.
  intros Hne. destruct (build_workflow_total custom cs Hne) as (fl & Hb & _).
  destruct (ordered_nodes_go_spec cs []) as [Hnd Hmem].
  assert (Hmem' : ∀ x, x ∈ get_ordered_nodes cs ↔
            ∃ c, c ∈ cs ∧ (x = e_source c ∨ (x = e_target c ∧ x ≠ COMPLETE))).
  { intros x. unfold get_ordered_nodes. rewrite Hmem. set_solver. }
  exists fl. split_and!; [done|done|done| |].
  - destruct cs as [|c0 cs0]; [done|].
    unfold build_workflow in Hb. rewrite create_nodes_eq in Hb. cbn [get_start_node bind] in Hb.
    destruct (wire_edges _ _); cbn [bind] in Hb; [|discriminate].
    destruct (lookup_node _ _); cbn [bind] in Hb; [|discriminate].
    by injection Hb as <-.
  - destruct cs as [|c0 cs0]; [done|].
    unfold build_workflow in Hb. rewrite create_nodes_eq in Hb. cbn [get_start_node bind] in Hb.
    rewrite wire_edges_eq in Hb.
    + destruct (lookup_node _ _); cbn [bind] in Hb; [|discriminate].
      by injection Hb as <-.
    + intros c Hc. rewrite (map_fst_zip_with (λ n nx, match get_custom_node_class custom n with
                            | Some cls => CustomNode cls
                            | None => ToolNode nx (get_node_params (c0 :: cs0) n) end)).
      * rewrite !Hmem'. split; [eauto|]. intros Ht. eauto.
      * destruct (get_ordered_nodes (c0 :: cs0)); simpl; rewrite ?length_app; simpl; lia.
Qed.

Lemma build_workflow_structure_witness :
  ∃ fl, build_workflow ["ParsePage"]
          [mk_edge "fetch" None "parse_page" (Some ["url"]);
           mk_edge "parse_page" (Some "error") "fetch" (Some ["q"]);
           mk_edge "parse_page" None "complete" None] = Ok fl ∧
    f_nodes fl = [("fetch", ToolNode "parse_page" (Some ["q"])); ("parse_page", CustomNode "ParsePage")] ∧
    f_wires fl = [("fetch", None, "parse_page"); ("parse_page", Some "error", "fetch")].
Proof.
  destruct (build_workflow_structure ["ParsePage"]
              [mk_edge "fetch" None "parse_page" (Some ["url"]);
               mk_edge "parse_page" (Some "error") "fetch" (Some ["q"]);
               mk_edge "parse_page" None "complete" None] ltac:(discriminate))
    as (fl & Hb & _ & _ & Hn & Hw).
  exists fl. split; [exact Hb|]. split; [rewrite Hn; vm_compute; reflexivity|].
  rewrite Hw. vm_compute. reflexivity.
Defined.

(** [get_node_params]: a node's explicit params are those of the first
    connection into it that carries a non-empty param list; connections
    into it with no list or an empty one are passed over, and later
    connections never count. *)
Theorem get_node_params_first (cs : list edge) (n : string) (p : list string) :
  get_node_params cs n = Some p ↔
  ∃ pre c post, cs = (pre ++ c :: post)%list ∧ e_target c = n ∧ e_params c = Some p ∧ p ≠ [] ∧
    ∀ c', c' ∈ pre → e_target c' = n → e_params c' = None ∨ e_params c' = Some [].
Proof.
  induction cs as [|c cs IH]; simpl.
  - split; [done|]. intros ([|? ?] & ? & ? & ? & _); discriminate.
  - split.
    + destruct (e_params c) as [[|x xs]|] eqn:Hp.
      * intros H. apply IH in H as (pre & c1 & post & -> & Ht & Hp1 & Hne & Hpre).
        exists (c :: pre), c1, post. split_and!; [done|done|done|done|].
        intros c' Hc' Ht'. apply elem_of_cons in Hc' as [->|Hc']; [by right|auto].
      * destruct (String.eqb_spec (e_target c) n) as [Ht|Ht].
        -- intros [= <-]. exists [], c, cs. split_and!; [done|done|done|done|set_solver].
        -- intros H. apply IH in H as (pre & c1 & post & -> & Ht1 & Hp1 & Hne & Hpre).
           exists (c :: pre), c1, post. split_and!; [done|done|done|done|].
           intros c' Hc' Ht'. apply elem_of_cons in Hc' as [->|Hc']; [done|auto].
      * intros H. apply IH in H as (pre & c1 & post & -> & Ht & Hp1 & Hne & Hpre).
        exists (c :: pre), c1, post. split_and!; [done|done|done|done|].
        intros c' Hc' Ht'. apply elem_of_cons in Hc' as [->|Hc']; [by left|auto].
    + intros ([|c' pre] & c1 & post & Heq & Ht & Hp1 & Hne & Hpre); simpl in Heq;
        injection Heq as <- ->.
      * rewrite Hp1. destruct p as [|x xs]; [done|]. by rewrite Ht, String.eqb_refl.
      * assert (Hrec : get_node_params (pre ++ c1 :: post) n = Some p).
        { apply IH. exists pre, c1, post. split_and!; [done|done|done|done|].
          intros c'' Hc''. apply Hpre. by apply list_elem_of_further. }
        destruct (e_params c) as [[|x xs]|] eqn:Hp'; [done| |done].
        destruct (String.eqb_spec (e_target c) n) as [Ht'|Ht']; [|done].
        destruct (Hpre c (list_elem_of_here _ _) Ht'); congruence.
Qed.

End builder_extra.

Section nodes_extra.
Import Nodes.
Lemma run_node_shape (E : env) (nd nd' : node) (s s' : shared) (p r rk : value) :
  run_node E nd s = Ok (nd', p, r, s', rk) →
  s' = <[PREV_OUTPUT_KEY := VStr (output_key (node_name nd))]>
         (<[output_key (node_name nd) := match nd with
                                         | NValidation _ | NRouting _ => VDict [("input", p); ("routing_key", r)]
                                         | _ => r
                                         end]> s).
Proof.
  unfold run_node. intros H.
  apply bind_Ok_inv in H as ([p0 nd0] & Hp & H). cbv beta iota in H.
  pose proof (prep_same_kind _ _ _ _ _ Hp) as Hk.
  apply bind_Ok_inv in H as (r0 & _ & H).
  destruct (post nd0 s p0 r0) as [s0 rk0] eqn:Hpost.
  injection H as <- <- <- <- <-.
  destruct nd as [n|n|n|n], nd0 as [n0|n0|n0|n0]; simpl in Hk; try contradiction;
    simpl in Hpost; injection Hpost as <- <-; simpl; [rewrite Hk| subst n0..]; done.
Qed.

Lemma string_app_nil_l (x : string) : ("" ++ x)%string = x.
Proof. reflexivity. Qed.

Lemma string_app_cons (c : ascii) (a x : string) : (String c a ++ x)%string = String c (a ++ x).
Proof. reflexivity. Qed.

Lemma string_length_app (a x : string) :
  String.length (a ++ x) = (String.length a + String.length x)%nat.
Proof. induction a as [|c a IH]; [done|]. rewrite string_app_cons. cbn. by rewrite IH. Qed.

Lemma string_app_suffix (a b x y : string) :
  (a ++ x = b ++ y)%string → (String.length x <= String.length y)%nat → ∃ w, y = (w ++ x)%string.
Proof.
  revert b. induction a as [|c a IH]; intros b H Hl.
  - destruct b as [|c' b]; rewrite ?string_app_nil_l, ?string_app_cons in H.
    + subst x. by exists "".
    + subst x. cbn in Hl. rewrite string_length_app in Hl. lia.
  - destruct b as [|c' b]; rewrite ?string_app_nil_l, ?string_app_cons in H.
    + subst y. by exists (String c a).
    + injection H as _ H. eauto.
Qed.

Lemma input_key_ne_output (a b : string) : input_key b ≠ output_key a.
Proof.
  unfold input_key, output_key. intros H.
  destruct (string_app_suffix b a "_input" "_output" H ltac:(simpl; lia)) as [w Hw].
  destruct w as [|c w]; [discriminate|]. injection Hw as _ Hw.
  destruct w as [|c' w]; [discriminate|]. injection Hw as _ Hw.
  apply (f_equal String.length) in Hw. rewrite string_length_app in Hw. simpl in Hw. lia.
Qed.

Lemma input_key_ne_prev (b : string) : input_key b ≠ PREV_OUTPUT_KEY.
Proof.
  unfold input_key, PREV_OUTPUT_KEY. intros H.
  repeat (destruct b as [|? b]; simpl in H;
          [discriminate|first [discriminate|injection H as _ H]]).
Qed.

Lemma output_key_truthy (a : string) : truthy (VStr (output_key a)) = true.
Proof. by destruct a. Qed.

(** How one node feeds the next through the shared state: a node run
    never changes any [<name>_input] entry; and a node [b] with no
    [<b>_input] entry of its own then reads what the node just run stored.
    A custom node reads the stored value as is (the [{input,
    routing_key}] record after a validation or routing node); a tool node
    reads it unwrapped, so after a validation or routing node it receives
    that node's own input, never its routing key, and after a tool node
    the [model_dump()] of a response object, or [{"result": ...}] from
    the first content item of a result object. *)
Theorem run_node_feeds_next (E E' : env) (nd nd' : node) (s s' : shared) (p r rk : value) (b : string) :
  run_node E nd s = Ok (nd', p, r, s', rk) →
  s' !! input_key b = s !! input_key b ∧
  (s !! input_key b = None →
     custom_prep b s' = Ok (match nd with
                            | NValidation _ | NRouting _ => VDict [("input", p); ("routing_key", r)]
                            | _ => r
                            end) ∧
     ∀ nb, m_name nb = b →
       mcp_prep E' nb s' = Ok (mcp_map_params E' nb (match nd with
                                                     | NValidation _ | NRouting _ => p
                                                     | _ => normalize_prev r
                                                     end))).
Proof.
  intros H. apply run_node_shape in H as ->.
  pose proof (input_key_ne_output (node_name nd) b) as H1.
  pose proof (input_key_ne_prev b) as H2.
  pose proof (output_key_ne_prev (node_name nd)) as H3.
  rewrite !lookup_insert_ne by done. split; [done|]. intros Hb. split.
  - unfold custom_prep. rewrite !lookup_insert_ne by done. rewrite Hb.
    rewrite lookup_insert_eq, output_key_truthy. cbn [shared_get_prev].
    rewrite lookup_insert_ne by done. rewrite lookup_insert_eq. reflexivity.
  - intros nb <-. unfold mcp_prep. rewrite !lookup_insert_ne by done. rewrite Hb.
    rewrite lookup_insert_eq, output_key_truthy. cbn [shared_get_prev].
    rewrite lookup_insert_ne by done. rewrite lookup_insert_eq. cbn [default bind].
    destruct nd; reflexivity.
Qed.

Lemma run_node_feeds_next_witness :
  let E := mk_env false (mk_client (fun _ _ => Ok VNone) (fun _ _ => Ok VNone)
                           (fun _ => Ok VNone) (fun _ => None)) in
  let vn := mk_validation "check" None "error" (fun _ => Ok (VStr "ok")) in
  let nb := mk_mcp "fetch" "tool" "fetch" (Some ["url"]) None None None in
  let s : shared := <["check_input" := VDict [("url", VStr "u"); ("x", VInt 1)]]> ∅ in
  let s' : shared := <[PREV_OUTPUT_KEY := VStr "check_output"]>
              (<["check_output" := VDict [("input", VDict [("url", VStr "u"); ("x", VInt 1)]);
                                          ("routing_key", VStr "ok")]]> s) in
  run_node E (NValidation vn) s =
    Ok (NValidation vn, VDict [("url", VStr "u"); ("x", VInt 1)], VStr "ok", s', VStr "ok") ∧
  mcp_prep E nb s' = Ok (VDict [("url", VStr "u")], nb, []).
Proof.
  intros E vn nb s s'.
  assert (Hrun : run_node E (NValidation vn) s =
    Ok (NValidation vn, VDict [("url", VStr "u"); ("x", VInt 1)], VStr "ok", s', VStr "ok"))
    by reflexivity.
  split; [exact Hrun|].
  destruct (run_node_feeds_next E E (NValidation vn) (NValidation vn) s s'
              (VDict [("url", VStr "u"); ("x", VInt 1)]) (VStr "ok") (VStr "ok") "fetch" Hrun)
    as (_ & H).
  destruct (H ltac:(reflexivity)) as (_ & Hm).
  rewrite (Hm nb eq_refl). reflexivity.
Defined.

(** The discovery cache of [MCPNode]: once a node holds discovered
    params, its parameter mapping no longer depends on the client (no
    [list_tools()] call is made) and leaves the node as it is. *)
Theorem mcp_map_params_cached (E E' : env) (n : mcp_node) (ps : list string) (i : value) :
  m_discovered_params n = Some ps →
  mcp_map_params E' n i = mcp_map_params E n i ∧ (mcp_map_params E n i).1.2 = n.
Proof.
  intros Hd. unfold mcp_map_params. destruct i; try done.
  destruct (list_truthy (m_explicit_params n)); [done|].
  rewrite Hd. split; [done|]. cbv zeta. rewrite Hd.
  destruct ps as [|x xs]; [done|]. by destruct (auto_map_params _ _ _).
Qed.

(** The first mapping of a dict input for a tool node without explicit
    params: when discovery fails, nothing is cached (the next prep asks
    again) and the input passes through with the "no parameter info"
    warning; when it succeeds, the node keeps all, required and optional
    names, and a tool with no parameters then passes the input through
    with the same warning. *)
Theorem mcp_map_params_discover (E : env) (n : mcp_node) (d : list (string * value)) :
  list_truthy (m_explicit_params n) = false → m_discovered_params n = None →
  m_entity_type n = "tool" →
  match discover_tool_params E n with
  | None => mcp_map_params E n (VDict d) = (VDict d, n, [WNoParamInfo])
  | Some (all, req, opt) =>
      let n' := mk_mcp (m_name n) (m_entity_type n) (m_entity_name n) (m_explicit_params n)
                       (Some all) (Some req) (Some opt) in
      (mcp_map_params E n (VDict d)).1.2 = n' ∧
      (all = [] → mcp_map_params E n (VDict d) = (VDict d, n', [WNoParamInfo]))
  end.
Proof.
  intros He Hd Ht. unfold mcp_map_params. rewrite He, Hd, Ht. cbn [String.eqb Ascii.eqb Bool.eqb andb].
  destruct (discover_tool_params E n) as [[[all req] opt]|]; [|by rewrite Hd].
  cbv zeta. cbn [m_discovered_params]. split.
  - destruct all as [|x xs]; [done|]. by destruct (auto_map_params _ _ _).
  - by intros ->.
Qed.

Lemma mcp_map_params_cached_witness :
  let n := mk_mcp "fetch" "tool" "fetch" None (Some ["url"]) (Some ["url"]) (Some []) in
  let E2 := mk_env true (mk_client (fun _ _ => Ok VNone) (fun _ _ => Ok VNone)
                          (fun _ => Ok VNone) (fun _ => Some (["other"], ["other"]))) in
  mcp_map_params E2 n (VDict [("url", VStr "u"); ("x", VInt 1)]) =
    (VDict [("url", VStr "u")], n, []).
Proof.
  intros n E2.
  destruct (mcp_map_params_cached
              (mk_env false (mk_client (fun _ _ => Ok VNone) (fun _ _ => Ok VNone)
                               (fun _ => Ok VNone) (fun _ => None)))
              E2 n ["url"] (VDict [("url", VStr "u"); ("x", VInt 1)]) eq_refl) as [H _].
  rewrite H. reflexivity.
Defined.

Lemma mcp_map_params_discover_witness :
  let E := mk_env true (mk_client (fun _ _ => Ok VNone) (fun _ _ => Ok VNone)
                         (fun _ => Ok VNone) (fun _ => Some (["url"; "limit"], ["url"]))) in
  let n := mk_mcp "fetch" "tool" "fetch" None None None None in
  (mcp_map_params E n (VDict [("url", VStr "u")])).1.2 =
    mk_mcp "fetch" "tool" "fetch" None (Some ["url"; "limit"]) (Some ["url"]) (Some ["limit"]).
Proof.
  intros E n.
  pose proof (mcp_map_params_discover E n [("url", VStr "u")] eq_refl eq_refl eq_refl) as H.
  change (discover_tool_params E n) with (Some (["url"; "limit"], ["url"], ["limit"])) in H.
  exact (proj1 H).
Defined.

End nodes_extra.


Section loader_extra.
Import Nodes Json Runner Loader.

Lemma pairs_of_list (ss : list string) (ts : list value) (gu gr : value) :
  pairs_of (map VStr ss) (VList ts) gu gr =
  Ok (concat (map (fun s => map (fun t => mk_pair (VStr s) t gu gr) ts) ss)).
Proof. induction ss as [|s ss IH]; [done|]. cbn [map pairs_of py_iter bind]. by rewrite IH. Qed.

(** [RunMCPTestsNode.prep_async] on the dict that [LoadSpecNode] stores:
    the ["mcp_servers"] key is always there, so a spec that names a single
    [mcp_server] (and leaves [mcp_servers] unset) fails with a [TypeError]
    when [None] is iterated; a spec with [mcp_servers] gives one item per
    server and test, server-major, each carrying the spec's global flags. *)
Theorem runner_prep_dumped (s : spec_schema) :
  runner_prep (spec_dump s) =
  match mcp_servers s with
  | None => Raise (TypeError "object is not iterable")
  | Some l =>
      Ok (concat (map (fun x => map (fun t => mk_pair (VStr x) (VDict (test_case_dump t))
                                                (VBool (use_mocks s)) (VBool (record_mocks s)))
                                    (custom_tests s)) l))
  end.
Proof.
  destruct s as [an ms mss ts um rm]; cbn [mcp_servers].
  destruct mss as [l|]; [|reflexivity].
  unfold runner_prep. cbn -[pairs_of]. rewrite pairs_of_list.
  f_equal. f_equal. apply map_ext. intros x. by rewrite map_map.
Qed.

Lemma acquire_not_replay (E : runner_env) (m : mock_registry) (sp : string)
    (tc : list (string * value)) (name tool args : value) (timeout : Z) (um rm : value)
    (m' : mock_registry) (resp : value) (lat : Q) (mode : string) :
  dict_has "mock" tc = true →
  acquire E m sp tc name tool args timeout um rm = (m', Ok (inr (resp, lat, mode))) →
  mode ≠ "replay".
Proof.
  intros Hk. unfold acquire. rewrite Hk, andb_true_r.
  destruct (truthy um) eqn:Hum; [intros [= _ _ _ <-]; discriminate|].
  cbn [negb]. destruct (fastmcp_available E); [|intros [=]].
  cbn [negb]. cbv zeta. unfold call_handler.
  destruct (call_tool E sp tool args timeout) as [text|e].
  - destruct (truthy rm).
    + destruct (record m tool args _) as [m1 [u|e]].
      * intros [= _ _ _ <-]. discriminate.
      * destruct (isinstance e "TimeoutError"); [intros [= _ _ _ <-]; discriminate|].
        destruct (isinstance e "Exception"); [intros [= _ _ _ <-]; discriminate|intros [=]].
    + intros [= _ _ _ <-]. discriminate.
  - destruct (isinstance e "TimeoutError"); [intros [= _ _ _ <-]; discriminate|].
    destruct (isinstance e "Exception"); [intros [= _ _ _ <-]; discriminate|intros [=]].
Qed.

(** [exec_async] on a test case as [LoadSpecNode] passes it on: its
    [model_dump()] always holds the keys ["use_mocks"], ["record_mocks"]
    and ["mock"]. So the spec's global flags never matter; the registry is
    never replayed from (no result has mode ["replay"]); and a test with
    [use_mocks: true] and no inline mock takes [None] as its response and
    fails with a [TypeError], leaving the registry as it was. *)
Theorem exec_async_dumped (E : runner_env) (m : mock_registry) (sp : string)
    (t : test_case) (gu gr gu' gr' : value) :
  exec_async E m sp (test_case_dump t) gu gr = exec_async E m sp (test_case_dump t) gu' gr' ∧
  (∀ m' r, exec_async E m sp (test_case_dump t) gu gr = (m', Ok r) → r_mode r ≠ "replay") ∧
  (tc_use_mocks t = Some true → tc_mock t = None →
     exec_async E m sp (test_case_dump t) gu gr =
       (m, Raise (TypeError "argument of type is not iterable"))).
Proof.
  split; [reflexivity|]. split.
  - intros m' r H.
    destruct (exec_async_ok E m sp _ gu gr m' r H)
      as (name & tool & timeout & _ & _ & _ & [Hacq | (resp & lat & mode & st & fl & Hacq & _ & ->)]).
    + destruct (acquire_inl _ _ _ _ _ _ _ _ _ _ _ _ Hacq) as (_ & _ & ->). discriminate.
    + exact (acquire_not_replay _ _ _ (test_case_dump t) _ _ _ _ _ _ _ _ _ _ eq_refl Hacq).
  - destruct t as [nm tl args to um rm mk es ek em]; cbn [tc_use_mocks tc_mock].
    intros -> ->. reflexivity.
Qed.

End loader_extra.


Section examples_extra.
Import Nodes Runner Examples.

Lemma py_get_spec (input : value) (k : string) (default : value) :
  match py_get input k default with
  | Ok _ => ∃ d, input = VDict d
  | Raise e => Exception_ e = true ∧ ∀ d, input ≠ VDict d
  end.
Proof. destruct input; cbn; eauto. Qed.

Local Ltac label_tac :=
  repeat match goal with
  | |- context [if ?b then _ else _] => destruct b
  end; cbn; set_solver.

Lemma retry_handler_validate_spec (max_attempts : Z) (input : value) :
  match retry_handler_validate max_attempts input with
  | Ok rk => ∃ k, rk = VStr k ∧ k ∈ ["retry"; "max_retries"]
  | Raise e => Exception_ e = true
  end.
Proof.
  unfold retry_handler_validate.
  pose proof (py_get_spec input "retry_count" (VInt 0)) as Hg.
  destruct (py_get input "retry_count" (VInt 0)) as [rc|e]; cbn [bind]; [|by destruct Hg].
  destruct (py_number rc) as [q|]; [|reflexivity].
  eexists; split; [reflexivity|label_tac].
Qed.

Lemma error_handler_validate_spec (input : value) :
  match error_handler_validate input with
  | Ok rk => ∃ k, rk = VStr k ∧ k ∈ ["retry"; "skip"; "fatal"]
  | Raise e => Exception_ e = true
  end.
Proof.
  unfold error_handler_validate.
  pose proof (py_get_spec input "error" (VDict [])) as Hg.
  destruct (py_get input "error" (VDict [])) as [err|e]; cbn [bind]; [|by destruct Hg].
  pose proof (py_get_spec err "type" (VStr "unknown")) as Hg'.
  destruct (py_get err "type" (VStr "unknown")) as [ty|e]; cbn [bind]; [|by destruct Hg'].
  eexists; split; [reflexivity|label_tac].
Qed.

Lemma conditional_route_spec (input : value) :
  match conditional_route input with
  | Ok rk => ∃ k, rk = VStr k ∧ k ∈ ["low_confidence"; "high"; "medium"; "low"]
  | Raise e => Exception_ e = true
  end.
Proof.
  unfold conditional_route.
  pose proof (py_get_spec input "priority" (VStr "medium")) as Hg.
  destruct (py_get input "priority" (VStr "medium")) as [pr|e]; cbn [bind]; [|by destruct Hg].
  destruct Hg as [d ->].
  destruct (dict_get "confidence" d) as [v|]; [destruct (py_number v) as [q|]; [|reflexivity]|];
    cbn [bind]; eexists; split; (reflexivity || label_tac).
Qed.

(** The example nodes always produce a routing key and never raise: the
    retry handler one of ["retry"], ["max_retries"], ["error"]; the error
    handler one of ["retry"], ["skip"], ["fatal"], ["error"]; the
    conditional router one of ["low_confidence"], ["high"], ["medium"],
    ["low"], ["error"]. So the validation nodes never fall back to their
    default route, and an input that is not a dict routes all three to
    ["error"]. *)
Theorem example_nodes_routes (name : string) (max_attempts : Z) (input : value) :
  (∃ k, validation_exec (RetryHandler name max_attempts) input = Ok (VStr k) ∧
        k ∈ ["retry"; "max_retries"; "error"]) ∧
  (∃ k, validation_exec (ErrorHandler name) input = Ok (VStr k) ∧
        k ∈ ["retry"; "skip"; "fatal"; "error"]) ∧
  (∃ k, routing_exec (ConditionalRouter name) input = Ok (VStr k) ∧
        k ∈ ["low_confidence"; "high"; "medium"; "low"; "error"]) ∧
  match input with
  | VDict _ => True
  | _ => validation_exec (RetryHandler name max_attempts) input = Ok (VStr "error") ∧
         validation_exec (ErrorHandler name) input = Ok (VStr "error") ∧
         routing_exec (ConditionalRouter name) input = Ok (VStr "error")
  end.
Proof.
  split_and!.
  - unfold validation_exec. cbn [RetryHandler v_validate v_allowed_routes v_default_route].
    pose proof (retry_handler_validate_spec max_attempts input) as H.
    destruct (retry_handler_validate max_attempts input) as [rk|e].
    + destruct H as (k & -> & Hk). exists k.
      cbn [list_truthy default route_in andb]. rewrite bool_decide_true by done.
      split; [reflexivity|set_solver].
    + rewrite H. eexists; split; [reflexivity|set_solver].
  - unfold validation_exec. cbn [ErrorHandler v_validate v_allowed_routes v_default_route].
    pose proof (error_handler_validate_spec input) as H.
    destruct (error_handler_validate input) as [rk|e].
    + destruct H as (k & -> & Hk). exists k.
      cbn [list_truthy default route_in andb]. rewrite bool_decide_true by done.
      split; [reflexivity|set_solver].
    + rewrite H. eexists; split; [reflexivity|set_solver].
  - unfold routing_exec. cbn [ConditionalRouter r_route].
    pose proof (conditional_route_spec input) as H.
    destruct (conditional_route input) as [rk|e].
    + destruct H as (k & -> & Hk). exists k. split; [reflexivity|set_solver].
    + rewrite H. eexists; split; [reflexivity|set_solver].
  - destruct input; try done; vm_compute; split_and!; reflexivity.
Qed.

End examples_extra.

Section decorator_extra.
Import Nodes Runner Retry RetryDecorator.

(** [retryable] writes its exception list into the config object it was
    given: after one call through a wrapper built with a shared config
    (such as [STANDARD_RETRY]) and a non-empty list, that object keeps the
    list, and every later wrapper built on the same object, even one given
    no list, retries on exactly those exception types. *)
Theorem retryable_shared_config {A B} (h : config_heap) (l : positive) (c : retry_config)
    (ls : list string) (f : Z → result A) (rand : Z → Q) (g : Z → result B) (rand' : Z → Q) :
  h !! l = Some c → ls ≠ [] →
  wrapper_call h (Some l) (Some ls) f rand =
    Some (<[l := set_retryable c ls]> h, retry_async (set_retryable c ls) f rand) ∧
  wrapper_call (<[l := set_retryable c ls]> h) (Some l) None g rand' =
    Some (<[l := set_retryable c ls]> h, retry_async (set_retryable c ls) g rand').
Proof.
  intros Hl Hne. unfold wrapper_call. rewrite Hl. destruct ls as [|x xs]; [done|].
  cbn [list_truthy default]. split; [reflexivity|].
  by rewrite lookup_insert_eq.
Qed.

(** [STANDARD_RETRY] does not retry a [ValueError]; after one call
    through [retryable(STANDARD_RETRY, [ValueError])], a wrapper on
    [STANDARD_RETRY] alone makes all three attempts on it. *)
Lemma retryable_shared_config_witness :
  match wrapper_call (<[1%positive := set_retryable STANDARD_RETRY ["ValueError"]]>
                        (<[1%positive := STANDARD_RETRY]> ∅))
          (Some 1%positive) None (fun _ : Z => Raise (A:=unit) (ValueError "bad")) (fun _ => 1 # 2) with
  | Some (_, (calls, _, r)) => calls = [1; 2; 3]%Z ∧ r = Raise (ValueError "bad")
  | None => False
  end.
Proof.
  destruct (retryable_shared_config (<[1%positive := STANDARD_RETRY]> ∅) 1%positive STANDARD_RETRY
              ["ValueError"] (fun _ : Z => Raise (A:=unit) (ValueError "bad")) (fun _ => 1 # 2)
              (fun _ : Z => Raise (A:=unit) (ValueError "bad")) (fun _ => 1 # 2)
              ltac:(apply lookup_insert_eq) ltac:(discriminate)) as [_ H].
  rewrite H. vm_compute. split; reflexivity.
Defined.

(** A wrapper built without a config works on a fresh [RetryConfig()]:
    every config object alive before the call is left as it was. *)
Theorem retryable_fresh_config {A} (h : config_heap) (rex : option (list string))
    (f : Z → result A) (rand : Z → Q) :
  ∃ h' out, wrapper_call h None rex f rand = Some (h', out) ∧
    (∀ l c, h !! l = Some c → h' !! l = Some c) ∧
    out = retry_async (if list_truthy rex then set_retryable RetryConfig_default (default [] rex)
                       else RetryConfig_default) f rand.
Proof.
  unfold wrapper_call. cbv zeta. rewrite lookup_insert_eq.
  assert (Hf : ∀ l c, h !! l = Some c → fresh (dom h) ≠ l).
  { intros l c Hl Heq. apply (is_fresh (dom h)). apply elem_of_dom. rewrite Heq. eauto. }
  destruct (list_truthy rex); eexists _, _; split_and!; try reflexivity;
    intros l c Hl; rewrite ?insert_insert_eq, lookup_insert_ne by (eapply Hf; eauto); done.
Qed.

End decorator_extra.

Section parser_extra.
Import Parser Runner WorkflowParse.

Lemma wp_app_cons c (s t : string) : String c s ++ t = String c (s ++ t).
Proof. reflexivity. Qed.

Lemma wp_app_nil_l (s : string) : "" ++ s = s.
Proof. reflexivity. Qed.

Lemma wp_app_assoc (s1 s2 s3 : string) : (s1 ++ s2) ++ s3 = s1 ++ (s2 ++ s3).
Proof. induction s1 as [|c s1 IH]; [done|]. rewrite !wp_app_cons. by f_equal. Qed.

Lemma wp_app_nil_r (s : string) : s ++ "" = s.
Proof. induction s as [|c s IH]; [done|]. rewrite wp_app_cons. by f_equal. Qed.

Lemma list_ascii_app (s t : string) :
  list_ascii_of_string (s ++ t) = (list_ascii_of_string s ++ list_ascii_of_string t)%list.
Proof. induction s as [|c s IH]; [done|]. rewrite wp_app_cons. simpl. by f_equal. Qed.

Lemma word_not_space c : is_word c && is_space c = false.
Proof. destruct c as [[] [] [] [] [] [] [] []]; reflexivity. Qed.

Lemma take_word_app (w r : string) :
  forallb is_word (list_ascii_of_string w) = true →
  match r with String c _ => is_word c = false | EmptyString => True end →
  take_word (w ++ r) = (w, r).
Proof.
  intros Hw Hr. induction w as [|c w IH].
  - destruct r as [|c r]; simpl; [done|]. by rewrite Hr.
  - simpl in Hw. apply andb_prop in Hw as [Hc Hw].
    rewrite wp_app_cons. simpl. rewrite Hc, IH by done. done.
Qed.

Lemma match_word_app (w r : string) :
  is_ident w = true →
  match r with String c _ => is_word c = false | EmptyString => True end →
  match_word (w ++ r) = Some (w, r).
Proof.
  intros Hw Hr. unfold match_word. destruct w as [|c w']; [done|].
  rewrite take_word_app by done. done.
Qed.

Lemma take_until_rbracket_app (j r : string) :
  forallb (fun c => negb (Ascii.eqb c "]")) (list_ascii_of_string j) = true →
  take_until_rbracket (j ++ String "]" r) = (j, String "]" r).
Proof.
  intros Hj. induction j as [|c j IH]; [done|].
  simpl in Hj. apply andb_prop in Hj as [Hc Hj]. apply negb_true_iff in Hc.
  rewrite wp_app_cons. simpl. rewrite Hc, IH by done. done.
Qed.

Lemma lstrip_nonspace (s : string) :
  match s with String c _ => is_space c = false | EmptyString => True end → lstrip s = s.
Proof. destruct s as [|c s]; simpl; [done|]. by intros ->. Qed.

Lemma ident_head (w : string) :
  is_ident w = true → ∃ c w', w = String c w' ∧ is_word c = true.
Proof.
  destruct w as [|c w']; [done|]. simpl. intros H. apply andb_prop in H as [H _]. eauto.
Qed.

(** The separator and the action of a rendered line. *)
Lemma match_action_line (a : option string) (r : string) :
  match a with None => true | Some a => is_ident a end = true →
  match_action (match a with Some a => " - '" ++ a ++ "'" | None => "" end ++ " >> " ++ r)
    = (a, " >> " ++ r).
Proof.
  intros Ha. destruct a as [a|]; [|reflexivity].
  rewrite !wp_app_assoc, !wp_app_cons, !wp_app_nil_l. unfold match_action. cbn [lstrip is_space].
  simpl. rewrite (match_word_app a) by done. simpl. done.
Qed.

Fixpoint split_comma_nonempty (s : string) : split_comma s ≠ [].
Proof.
  destruct s as [|c s]; simpl; [done|].
  pose proof (split_comma_nonempty s). destruct (split_comma s); [done|].
  by destruct (Ascii.eqb c ",").
Qed.

Lemma split_comma_app (w r : string) :
  no_comma_bracket w = true →
  split_comma (w ++ r) =
    match split_comma r with w' :: ws => (w ++ w') :: ws | [] => [] end.
Proof.
  intros Hw. induction w as [|c w IH].
  - rewrite wp_app_nil_l. destruct (split_comma r); done.
  - unfold no_comma_bracket in Hw. simpl in Hw.
    apply andb_prop in Hw as [Hc Hw]. apply andb_prop in Hc as [Hc _].
    apply negb_true_iff in Hc. rewrite wp_app_cons. simpl. rewrite IH by done.
    pose proof (split_comma_nonempty r). destruct (split_comma r); [done|]. by rewrite Hc.
Qed.

Lemma split_comma_concat (l : list string) :
  l ≠ [] → forallb no_comma_bracket l = true → split_comma (String.concat "," l) = l.
Proof.
  intros Hne Hl. induction l as [|p l IH]; [done|].
  simpl in Hl. apply andb_prop in Hl as [Hp Hl]. destruct l as [|q l].
  - simpl. rewrite <- (wp_app_nil_r p) at 1. rewrite split_comma_app by done.
    simpl. by rewrite wp_app_nil_r.
  - change (String.concat "," (p :: q :: l)) with (p ++ "," ++ String.concat "," (q :: l)).
    rewrite split_comma_app by done. rewrite wp_app_cons, wp_app_nil_l.
    cbn [split_comma]. rewrite IH by done. simpl. by rewrite wp_app_nil_r.
Qed.

Lemma split_params_concat (l : list string) :
  params_ok (Some l) = true → split_params (String.concat "," l) = l.
Proof.
  simpl. intros H. apply andb_prop in H as [Hne Hl].
  assert (l ≠ []) by (intros ->; done).
  unfold split_params. rewrite split_comma_concat.
  - clear -Hl. induction l as [|p l IH]; [done|]. simpl in *.
    apply andb_prop in Hl as [Hp Hl]. apply andb_prop in Hp as [Hp _].
    apply String.eqb_eq in Hp. rewrite Hp. by rewrite IH.
  - done.
  - clear -Hl. induction l as [|p l IH]; [done|]. simpl in *.
    apply andb_prop in Hl as [Hp Hl]. apply andb_prop in Hp as [_ Hp]. by rewrite Hp, IH.
Qed.

Lemma concat_nonempty (l : list string) :
  params_ok (Some l) = true → ∃ c w, String.concat "," l = String c w.
Proof.
  simpl. intros H. apply andb_prop in H as [H _].
  destruct (String.concat "," l); [done|]. eauto.
Qed.

Lemma params_ok_nobracket (l : list string) :
  params_ok (Some l) = true →
  forallb (fun c => negb (Ascii.eqb c "]")) (list_ascii_of_string (String.concat "," l)) = true.
Proof.
  simpl. intros H. apply andb_prop in H as [_ Hl].
  induction l as [|p [|q l] IH]; [done|..]; simpl in Hl.
  - apply andb_prop in Hl as [Hp _]. apply andb_prop in Hp as [_ Hp].
    unfold no_comma_bracket in Hp. simpl. rewrite !forallb_forall in Hp |- *.
    intros c Hc. specialize (Hp c Hc). by apply andb_prop in Hp as [_ ->].
  - apply andb_prop in Hl as [Hp Hl]. apply andb_prop in Hp as [_ Hp].
    change (String.concat "," (p :: q :: l)) with (p ++ "," ++ String.concat "," (q :: l)).
    rewrite !list_ascii_app, !forallb_app. apply andb_true_intro; split.
    + unfold no_comma_bracket in Hp. rewrite !forallb_forall in Hp |- *.
      intros c Hc. specialize (Hp c Hc). by apply andb_prop in Hp as [_ ->].
    + simpl. by apply IH.
Qed.

Lemma match_params_bracket (ps : option (list string)) (r : string) :
  params_ok ps = true →
  match ps with None => match r with String "[" _ => False | _ => True end | Some _ => True end →
  match_params (bracket ps ++ r) =
    (match ps with Some l => Some (String.concat "," l) | None => None end, r).
Proof.
  intros Hp Hr. destruct ps as [l|].
  - destruct (concat_nonempty l Hp) as (c & w & Hcw).
    unfold bracket. rewrite wp_app_cons, wp_app_assoc, wp_app_cons, wp_app_nil_l.
    unfold match_params. rewrite take_until_rbracket_app by (by apply params_ok_nobracket).
    by rewrite Hcw.
  - simpl. destruct r as [|c r]; [done|]. unfold match_params.
    destruct c as [[] [] [] [] [] [] [] []]; done.
Qed.

Lemma py_strip_id (s : string) :
  lstrip s = s →
  match rev (list_ascii_of_string s) with c :: _ => is_space c = false | [] => True end →
  py_strip s = s.
Proof.
  intros H1 H2. unfold py_strip. rewrite H1.
  destruct (rev (list_ascii_of_string s)) as [|c l] eqn:E.
  - apply (f_equal (@rev ascii)) in E. rewrite rev_involutive in E. simpl in E.
    rewrite <- (string_of_list_ascii_of_string s), E. done.
  - cbn [string_of_list_ascii lstrip]. rewrite H2.
    change (String c (string_of_list_ascii l)) with (string_of_list_ascii (c :: l)).
    rewrite <- E.
    rewrite list_ascii_of_string_of_list_ascii, rev_involutive.
    apply string_of_list_ascii_of_string.
Qed.

Lemma py_substr_app_r (p x y : string) : py_substr p y = true → py_substr p (x ++ y) = true.
Proof.
  intros H. induction x as [|c x IH]; [done|]. rewrite wp_app_cons. simpl.
  rewrite IH. apply orb_true_r.
Qed.

(** A line of the docstring's format is parsed back into its edge; the
    parameters of the target are used, and those written on the source
    (the legacy place) when the target has none. *)
Theorem parse_workflow_line (source target : string) (action : option string)
    (sp tp : option (list string)) :
  is_ident source = true → is_ident target = true →
  match action with None => true | Some a => is_ident a end = true →
  params_ok sp = true → params_ok tp = true →
  parse_workflow [workflow_line source sp action target tp] =
    [mk_edge source action target (match tp with Some l => Some l | None => sp end)].
Proof.
  intros Hs Ht Ha Hsp Htp.
  set (tail := match action with Some a => " - '" ++ a ++ "'" | None => "" end ++
               " >> " ++ target ++ bracket tp).
  assert (Hline : workflow_line source sp action target tp = source ++ bracket sp ++ tail) by done.
  (* the matched groups *)
  assert (Hm : workflow_match (workflow_line source sp action target tp) =
    Some (source, match sp with Some l => Some (String.concat "," l) | None => None end,
          action, target, match tp with Some l => Some (String.concat "," l) | None => None end)).
  { rewrite Hline. unfold workflow_match.
    rewrite match_word_app; [|done|by destruct sp; [|unfold tail; destruct action]].
    rewrite match_params_bracket; [|done|by destruct sp; [|unfold tail; destruct action]].
    unfold tail. rewrite match_action_line by done.
    rewrite !wp_app_cons, wp_app_nil_l. cbn [lstrip is_space]. simpl.
    destruct (ident_head target Ht) as (c & w & -> & Hc).
    rewrite lstrip_nonspace by (pose proof (word_not_space c) as Hn; rewrite Hc in Hn; done).
    rewrite match_word_app; [|done|by destruct tp].
    rewrite <- (wp_app_nil_r (bracket tp)).
    rewrite match_params_bracket; [|done|by destruct tp]. done. }
  (* the line is already stripped and holds [>>] *)
  assert (Hstrip : py_strip (workflow_line source sp action target tp) =
                   workflow_line source sp action target tp).
  { apply py_strip_id.
    - rewrite Hline. destruct (ident_head source Hs) as (c & w & -> & Hc).
      apply lstrip_nonspace. rewrite wp_app_cons.
      pose proof (word_not_space c) as Hn. rewrite Hc in Hn. done.
    - unfold workflow_line. rewrite !list_ascii_app, !rev_app_distr.
      destruct tp as [l|].
      + unfold bracket. cbn [list_ascii_of_string rev].
        rewrite list_ascii_app, rev_app_distr. simpl. done.
      + simpl. rewrite ?app_nil_r. destruct (ident_head target Ht) as (c & w & Heq & _).
        assert (Hall : forallb is_word (list_ascii_of_string target) = true).
        { rewrite Heq in Ht |- *. done. }
        rewrite Heq in Hall |- *. simpl.
        destruct (rev (list_ascii_of_string w)) as [|d l] eqn:E; simpl.
        * pose proof (word_not_space c) as Hn. simpl in Hall.
          apply andb_prop in Hall as [Hc _]. rewrite Hc in Hn. done.
        * assert (Hd : In d (list_ascii_of_string w)).
          { apply in_rev. rewrite E. by left. }
          simpl in Hall. apply andb_prop in Hall as [_ Hall].
          rewrite forallb_forall in Hall.
          pose proof (word_not_space d) as Hn. rewrite (Hall d Hd) in Hn. done. }
  assert (Hsub : py_substr ">>" (workflow_line source sp action target tp) = true).
  { rewrite Hline. apply py_substr_app_r, py_substr_app_r. unfold tail.
    apply py_substr_app_r. rewrite wp_app_cons. simpl. done. }
  assert (Hne : String.eqb (workflow_line source sp action target tp) "" = false).
  { rewrite Hline. destruct (ident_head source Hs) as (c & w & Heq & _).
    rewrite Heq, wp_app_cons. done. }
  simpl. rewrite Hstrip, Hne, Hsub, Hm. simpl. f_equal. f_equal.
  destruct tp as [l|].
  - pose proof (split_params_concat l Htp) as Hl.
    destruct (concat_nonempty l Htp) as (c & w & Hcw). rewrite Hcw in Hl |- *. by rewrite Hl.
  - destruct sp as [l|]; [|done].
    pose proof (split_params_concat l Hsp) as Hl.
    destruct (concat_nonempty l Hsp) as (c & w & Hcw). rewrite Hcw in Hl |- *. by rewrite Hl.
Qed.

Lemma parse_workflow_line_witness :
  workflow_line "fetch" (Some ["url"; "limit"]) (Some "error") "parse" None =
    "fetch[url,limit] - 'error' >> parse" ∧
  parse_workflow [workflow_line "fetch" (Some ["url"; "limit"]) (Some "error") "parse" None] =
    [mk_edge "fetch" (Some "error") "parse" (Some ["url"; "limit"])].
Proof.
  split; [reflexivity|].
  exact (parse_workflow_line "fetch" "parse" (Some "error") (Some ["url"; "limit"]) None
           ltac:(vm_compute; reflexivity) ltac:(vm_compute; reflexivity)
           ltac:(vm_compute; reflexivity) ltac:(vm_compute; reflexivity)
           ltac:(vm_compute; reflexivity)).
Defined.

(** Stripping. *)
Lemma lstrip_idem (s : string) : lstrip (lstrip s) = lstrip s.
Proof.
  induction s as [|c s IH]; [done|]. simpl. destruct (is_space c) eqn:E; [done|].
  simpl. by rewrite E.
Qed.

Lemma lstrip_head (s : string) :
  match lstrip s with String c _ => is_space c = false | EmptyString => True end.
Proof. induction s as [|c s IH]; [done|]. simpl. by destruct (is_space c) eqn:E. Qed.

Lemma lstrip_last (x : list ascii) (c : ascii) :
  is_space c = false →
  ∃ y, lstrip (string_of_list_ascii (x ++ [c])) = string_of_list_ascii (y ++ [c]).
Proof.
  intros Hc. induction x as [|a x IH]; simpl.
  - exists []. simpl. by rewrite Hc.
  - destruct (is_space a); [done|]. by exists (a :: x).
Qed.

Lemma py_strip_idem (s : string) : py_strip (py_strip s) = py_strip s.
Proof.
  set (L := lstrip s).
  set (R := lstrip (string_of_list_ascii (rev (list_ascii_of_string L)))).
  assert (HP : py_strip s = string_of_list_ascii (rev (list_ascii_of_string R))) by done.
  rewrite HP. apply py_strip_id.
  - assert (HL := lstrip_head s). fold L in HL.
    destruct L as [|c l] eqn:EL.
    + subst R. simpl. done.
    + assert (HR : ∃ y, R = string_of_list_ascii (y ++ [c])).
      { subst R. simpl. by apply lstrip_last. }
      destruct HR as [y ->]. rewrite list_ascii_of_string_of_list_ascii, rev_app_distr.
      simpl. by rewrite HL.
  - rewrite list_ascii_of_string_of_list_ascii, rev_involutive.
    pose proof (lstrip_head (string_of_list_ascii (rev (list_ascii_of_string L)))) as H.
    fold R in H. destruct R; done.
Qed.

Lemma forallb_rev {C} (f : C → bool) (l : list C) : forallb f (rev l) = forallb f l.
Proof.
  induction l as [|x l IH]; [done|]. simpl. rewrite forallb_app, IH. simpl.
  by rewrite andb_true_r, andb_comm.
Qed.

Lemma forallb_lstrip (f : ascii → bool) (s : string) :
  forallb f (list_ascii_of_string s) = true → forallb f (list_ascii_of_string (lstrip s)) = true.
Proof.
  induction s as [|c s IH]; [done|]. simpl. intros H.
  destruct (is_space c); [|done]. apply IH. by apply andb_prop in H as [_ H].
Qed.

Lemma forallb_py_strip (f : ascii → bool) (s : string) :
  forallb f (list_ascii_of_string s) = true → forallb f (list_ascii_of_string (py_strip s)) = true.
Proof.
  intros H. unfold py_strip.
  rewrite list_ascii_of_string_of_list_ascii, forallb_rev.
  apply forallb_lstrip. rewrite list_ascii_of_string_of_list_ascii, forallb_rev.
  by apply forallb_lstrip.
Qed.

(** The pieces of the match. *)
Lemma take_word_words (s : string) :
  forallb is_word (list_ascii_of_string (take_word s).1) = true.
Proof.
  induction s as [|c s IH]; [done|]. simpl. destruct (is_word c) eqn:E; [|done].
  destruct (take_word s) as [w r]. simpl in *. by rewrite E, IH.
Qed.

Lemma match_word_ident (s w r : string) : match_word s = Some (w, r) → is_ident w = true.
Proof.
  unfold match_word. pose proof (take_word_words s) as H.
  destruct (take_word s) as [[|c w'] r']; [done|]. intros [= <- <-]. done.
Qed.

Lemma take_until_rbracket_spec (s : string) :
  forallb (fun c => negb (Ascii.eqb c "]")) (list_ascii_of_string (take_until_rbracket s).1) = true.
Proof.
  induction s as [|c s IH]; [done|]. simpl. destruct (Ascii.eqb c "]") eqn:E; [done|].
  destruct (take_until_rbracket s) as [w r]. simpl in *. by rewrite E, IH.
Qed.

Lemma match_params_spec (s p r : string) :
  match_params s = (Some p, r) →
  p ≠ "" ∧ forallb (fun c => negb (Ascii.eqb c "]")) (list_ascii_of_string p) = true.
Proof.
  unfold match_params. destruct s as [|a s]; [done|].
  destruct (ascii_dec a "["); [subst a|destruct a as [[] [] [] [] [] [] [] []]; done].
  pose proof (take_until_rbracket_spec s) as H.
  destruct (take_until_rbracket s) as [[|c w] [|b r']]; try done.
  destruct (ascii_dec b "]"); [subst b|destruct b as [[] [] [] [] [] [] [] []]; done].
  intros [= <- <-]. done.
Qed.

Lemma match_action_spec (s a r : string) : match_action s = (Some a, r) → is_ident a = true.
Proof.
  unfold match_action. intros Heq.
  repeat case_match; simplify_eq/=. by eapply match_word_ident.
Qed.

Lemma workflow_match_spec (line source target : string) (sp tp action : option string) :
  workflow_match line = Some (source, sp, action, target, tp) →
  is_ident source = true ∧ is_ident target = true ∧
  match action with None => true | Some a => is_ident a end = true ∧
  (∀ p, sp = Some p ∨ tp = Some p →
     forallb (fun c => negb (Ascii.eqb c "]")) (list_ascii_of_string p) = true).
Proof.
  unfold workflow_match. intros Heq.
  destruct (match_word line) as [[w r1]|] eqn:Hw; [|done].
  destruct (match_params r1) as [sp' r2] eqn:Hsp.
  destruct (match_action r2) as [act r3] eqn:Hact.
  destruct (lstrip r3) as [|c1 [|c2 r4]]; try done.
  1: destruct c1 as [[] [] [] [] [] [] [] []]; done.
  destruct (ascii_dec c1 ">"); [subst c1|destruct c1 as [[] [] [] [] [] [] [] []]; done].
  destruct (ascii_dec c2 ">"); [subst c2|destruct c2 as [[] [] [] [] [] [] [] []]; done].
  destruct (match_word (lstrip r4)) as [[t r5]|] eqn:Ht; [|done].
  destruct (match_params r5) as [tp' r6] eqn:Htp.
  injection Heq as <- <- <- <- <-.
  split; [by eapply match_word_ident|]. split; [by eapply match_word_ident|].
  split; [destruct act; [by eapply match_action_spec|done]|].
  intros p [->| ->]; [by eapply match_params_spec | by eapply match_params_spec].
Qed.

Lemma split_comma_items (f : ascii → bool) (s : string) :
  forallb f (list_ascii_of_string s) = true →
  Forall (fun p => forallb (fun c => f c && negb (Ascii.eqb c ",")) (list_ascii_of_string p) = true)
    (split_comma s).
Proof.
  induction s as [|c s IH]; simpl; [by repeat constructor|].
  intros H. apply andb_prop in H as [Hc H]. specialize (IH H).
  destruct (split_comma s) as [|w ws]; [done|].
  inversion IH as [|? ? Hw Hws]; subst.
  destruct (Ascii.eqb c ",") eqn:E; repeat constructor; try done.
  simpl. by rewrite Hc, E, Hw.
Qed.

Lemma split_params_spec (t : string) :
  forallb (fun c => negb (Ascii.eqb c "]")) (list_ascii_of_string t) = true →
  split_params t ≠ [] ∧
  Forall (fun p => py_strip p = p ∧ no_comma_bracket p = true) (split_params t).
Proof.
  intros Ht. unfold split_params. split.
  - pose proof (split_comma_nonempty t). by destruct (split_comma t).
  - pose proof (split_comma_items _ t Ht) as H. apply Forall_fmap.
    eapply Forall_impl; [exact H|]. intros p Hp. simpl. split; [apply py_strip_idem|].
    unfold no_comma_bracket. apply forallb_py_strip.
    rewrite forallb_forall in Hp |- *. intros c Hc. specialize (Hp c Hc).
    apply andb_prop in Hp as [Hp1 Hp2]. by rewrite Hp1, Hp2.
Qed.

(** What [parse_workflow] yields: an edge to ["complete"] named by a
    whole line without [>>], or an edge between two [\w+] names with an
    optional [\w+] action and a nonempty list of stripped parameters
    holding no [','] and no [']']. *)
Theorem parse_workflow_edges (lines : list string) (e : edge) :
  e ∈ parse_workflow lines →
  (∃ l, l ∈ lines ∧ e = mk_edge (py_strip l) None COMPLETE None ∧
        py_strip l ≠ "" ∧ py_substr ">>" (py_strip l) = false) ∨
  (is_ident (e_source e) = true ∧ is_ident (e_target e) = true ∧
   match e_action e with None => true | Some a => is_ident a end = true ∧
   match e_params e with
   | None => True
   | Some ps => ps ≠ [] ∧ Forall (fun p => py_strip p = p ∧ no_comma_bracket p = true) ps
   end).
Proof.
  induction lines as [|l ls IH]; simpl; [by intros ?%elem_of_nil|].
  destruct (String.eqb (py_strip l) "") eqn:Hemp.
  { intros He. destruct (IH He) as [(l' & ? & ?)|?]; [left; exists l'; set_solver|by right]. }
  destruct (py_substr ">>" (py_strip l)) eqn:Hsub; simpl.
  - destruct (workflow_match (py_strip l)) as [[[[[source sp] action] target] tp]|] eqn:Hm.
    + intros [->|He]%elem_of_cons.
      * right. apply workflow_match_spec in Hm as (Hs & Ht & Ha & Hp). simpl.
        split; [done|]. split; [done|]. split; [done|].
        destruct tp as [[|c t]|].
        -- destruct sp as [[|c' s]|]; [done| |done]. apply split_params_spec. auto.
        -- apply split_params_spec. auto.
        -- destruct sp as [[|c' s]|]; [done| |done]. apply split_params_spec. auto.
      * destruct (IH He) as [(l' & ? & ?)|?]; [left; exists l'; set_solver|by right].
    + intros He. destruct (IH He) as [(l' & ? & ?)|?]; [left; exists l'; set_solver|by right].
  - intros [->|He]%elem_of_cons.
    + left. exists l. rewrite py_strip_idem. split; [left|]. split; [done|].
      split; [by apply String.eqb_neq|done].
    + destruct (IH He) as [(l' & ? & ?)|?]; [left; exists l'; set_solver|by right].
Qed.

Lemma parse_workflow_edges_witness :
  mk_edge "a" None "b" (Some ["x"; "y z"]) ∈ parse_workflow ["  "; "my-tool >> b"; "a >> b[ x , y z ]"] ∧
  parse_workflow ["  "; "my-tool >> b"; "a >> b[ x , y z ]"] = [mk_edge "a" None "b" (Some ["x"; "y z"])] ∧
  ((∃ l, l ∈ ["  "; "my-tool >> b"; "a >> b[ x , y z ]"] ∧
         mk_edge "a" None "b" (Some ["x"; "y z"]) = mk_edge (py_strip l) None COMPLETE None ∧
         py_strip l ≠ "" ∧ py_substr ">>" (py_strip l) = false) ∨
   (is_ident "a" = true ∧ is_ident "b" = true ∧ true = true ∧
    (["x"; "y z"] ≠ [] ∧ Forall (fun p => py_strip p = p ∧ no_comma_bracket p = true) ["x"; "y z"]))).
Proof.
  assert (He : mk_edge "a" None "b" (Some ["x"; "y z"]) ∈
               parse_workflow ["  "; "my-tool >> b"; "a >> b[ x , y z ]"]).
  { vm_compute. left. }
  split; [exact He|]. split; [vm_compute; reflexivity|].
  exact (parse_workflow_edges ["  "; "my-tool >> b"; "a >> b[ x , y z ]"] _ He).
Defined.

End parser_extra.

Section spec_check_extra.
Import Nodes Runner Loader SpecCheck.

(** A spec that passes [model_post_init] and names a single
    [mcp_server] never gets a test run: [RunMCPTestsNode.prep_async] on
    its dump fails with a [TypeError] ([mcp_servers] unset) or yields no
    item ([mcp_servers: []]). A spec without such an [mcp_server] passes
    only with a nonempty [mcp_servers] list. *)
Theorem validated_single_server_runs_nothing (s : spec_schema) :
  model_post_init s = Ok tt →
  if truthy (opt_value VStr (mcp_server s)) then
    runner_prep (spec_dump s) = Raise (TypeError "object is not iterable") ∨
    runner_prep (spec_dump s) = Ok []
  else ∃ x xs, mcp_servers s = Some (x :: xs).
Proof.
  unfold model_post_init. destruct s as [an ms mss ts um rm]; cbn [mcp_server mcp_servers].
  destruct (truthy (opt_value VStr ms)) eqn:Hs; destruct mss as [[|x xs]|]; simpl;
    try discriminate; intros _.
  - right. reflexivity.
  - left. reflexivity.
  - eauto.
Qed.

Lemma validated_single_server_runs_nothing_witness :
  model_post_init (mk_spec "agent" (Some "server.py") None [] false false) = Ok tt ∧
  runner_prep (spec_dump (mk_spec "agent" (Some "server.py") None [] false false)) =
    Raise (TypeError "object is not iterable").
Proof.
  split; [reflexivity|].
  pose proof (validated_single_server_runs_nothing (mk_spec "agent" (Some "server.py") None [] false false)
                eq_refl) as H. simpl in H. destruct H as [H|H]; [exact H|discriminate H].
Defined.

End spec_check_extra.

Section report_extra.
Import Runner Report.

Lemma by_server_partition (rs : list test_result) (ss : list string) :
  NoDup ss → (∀ r, r ∈ rs → r_server r ∈ ss) →
  concat (map (by_server rs) ss) ≡ₚ rs.
Proof.
  revert rs. induction ss as [|s ss IH]; intros rs Hnd Hin.
  - destruct rs as [|r rs]; [done|]. exfalso. apply (not_elem_of_nil (r_server r)), Hin. left.
  - inversion Hnd as [|? ? Hs Hnd']; subst. simpl.
    set (rest := filter (fun r => ¬ r_server r = s) rs).
    assert (Hrest : concat (map (by_server rs) ss) = concat (map (by_server rest) ss)).
    { f_equal. apply map_ext_in. intros x Hx%list_elem_of_In. unfold by_server, rest.
      rewrite list_filter_filter. apply list_filter_iff. intros r.
      split; [intros ->; split; [done|intros ->; contradiction]|by intros [? _]]. }
    rewrite Hrest, IH.
    + unfold by_server, rest. apply filter_app_complement.
    + done.
    + intros r [Hne Hr]%list_elem_of_filter. apply Hin in Hr as [|]%elem_of_cons; done.
Qed.

Lemma report_servers_spec (results : list test_result) :
  Sorted String.le (report_servers results) ∧ NoDup (report_servers results) ∧
  (∀ s, s ∈ report_servers results ↔ ∃ r, r ∈ results ∧ r_server r = s).
Proof.
  unfold report_servers. split; [apply Sorted_merge_sort; apply _|split].
  - apply (NoDup_Permutation_proper _ _ (merge_sort_Permutation String.le _)).
    apply NoDup_remove_dups.
  - intros s. rewrite (elem_of_Permutation_proper s _ _ (merge_sort_Permutation String.le _)).
    rewrite elem_of_remove_dups, list_elem_of_In, in_map_iff. split.
    + intros (r & <- & Hr). exists r. split; [by apply list_elem_of_In|done].
    + intros (r & Hr & <-). exists r. split; [done|by apply list_elem_of_In].
Qed.

Lemma sum_list_with_map {A B} (f : B → nat) (g : A → B) (l : list A) :
  sum_list_with f (map g l) = sum_list_with (fun x => f (g x)) l.
Proof. induction l as [|x l IH]; [done|]. simpl. by rewrite IH. Qed.

Lemma length_concat_sum {A} (ls : list (list A)) :
  length (concat ls) = sum_list_with length ls.
Proof. induction ls as [|l ls IH]; [done|]. simpl. by rewrite length_app, IH. Qed.

Lemma filter_concat_map {A} (P : A → Prop) `{∀ x, Decision (P x)} (ls : list (list A)) :
  filter P (concat ls) = concat (map (filter P) ls).
Proof. induction ls as [|l ls IH]; [done|]. simpl. by rewrite filter_app, IH. Qed.

(** [GenerateReportNode.exec_async] lists the servers in sorted order,
    each once, exactly those of the results; each result appears in
    exactly one server's block (the blocks together are a permutation of
    the results); and the passed counts of the [Summary] lines add up to
    the results that passed. *)
Theorem report_blocks_partition (results : list test_result) :
  let blocks := report_blocks results in
  Sorted String.le (map (fun b => b.1.1.1) blocks) ∧
  NoDup (map (fun b => b.1.1.1) blocks) ∧
  (∀ s, s ∈ map (fun b => b.1.1.1) blocks ↔ ∃ r, r ∈ results ∧ r_server r = s) ∧
  concat (map (fun b => b.2) blocks) ≡ₚ results ∧
  sum_list_with (fun b => b.1.1.2) blocks = passed results ∧
  sum_list_with (fun b => b.1.2) blocks = length results.
Proof.
  intros blocks. unfold blocks, report_blocks. rewrite !map_map. cbn.
  rewrite map_id.
  destruct (report_servers_spec results) as (Hs & Hnd & Hin).
  assert (Hp : concat (map (by_server results) (report_servers results)) ≡ₚ results).
  { apply by_server_partition; [done|]. intros r Hr. apply Hin. eauto. }
  split; [done|]. split; [done|]. split; [done|]. split; [exact Hp|].
  rewrite !sum_list_with_map. cbn. split.
  - unfold passed.
    transitivity (length (filter (fun r => r_status r = "PASS")
                    (concat (map (by_server results) (report_servers results))))).
    + rewrite filter_concat_map, length_concat_sum, !sum_list_with_map. done.
    + apply Permutation_length. by rewrite Hp.
  - transitivity (length (concat (map (by_server results) (report_servers results)))).
    + rewrite length_concat_sum, !sum_list_with_map. done.
    + by apply Permutation_length.
Qed.

End report_extra.
